(** * Content ingestion pipeline

    A shallow embedding of the TypeScript sources of the pipeline: the
    sanitizer ([Sanitizer.ts]), the token counter ([TokenCounter.ts]), the
    embedding client ([Mistral.ts]), the upload validation schema and the
    chunk table ([Schema.ts]), with the properties the specification states
    about them.  The secure fetcher and the orchestrator are not among the
    sources; what is said about them is modelled from the specification and
    marked as such.

    JavaScript strings are sequences of UTF-16 code units; they are modelled
    as [list Z], one [Z] per code unit.  [String.prototype.length] is the
    number of code units. *)

From stdpp Require Import gmap strings list pretty.
From Stdlib Require Import ZArith QArith Qround Lia.

#[local] Open Scope Z_scope.

(** ** JavaScript primitives used by the sources *)

Module JS.

Abbreviation jsstring := (list Z).

(** A literal of the source, given as an ASCII Rocq string. *)
Definition lit (s : string) : jsstring :=
  map (fun a => Z.of_N (Ascii.N_of_ascii a)) (String.list_ascii_of_string s).

(** [s.length] *)
Definition len {A} (s : list A) : Z := Z.of_nat (length s).

Definition in_range (lo hi c : Z) : bool := (lo <=? c) && (c <=? hi).

(** The relative index of [Array.prototype.slice] and
    [String.prototype.slice]: a negative index counts from the end, and
    the result is clamped to [0 .. length]. *)
Definition relative_index (n k : Z) : Z :=
  if k <? 0 then Z.max (n + k) 0 else Z.min k n.

(** [s.slice(start, end)] *)
Definition slice {A} (s : list A) (start end_ : Z) : list A :=
  let from := relative_index (len s) start in
  let to := relative_index (len s) end_ in
  take (Z.to_nat (to - from)) (drop (Z.to_nat from) s).

(** [s.startsWith(p)] *)
Fixpoint startsWith (s p : jsstring) : bool :=
  match p, s with
  | [], _ => true
  | _ :: _, [] => false
  | a :: p', b :: s' => (a =? b) && startsWith s' p'
  end.

(** ECMAScript [WhiteSpace] and [LineTerminator] code points, the
    characters [String.prototype.trim] strips. *)
Definition is_white_space (c : Z) : bool :=
  (c =? 0x09) || (c =? 0x0A) || (c =? 0x0B) || (c =? 0x0C) || (c =? 0x0D)
  || (c =? 0x20) || (c =? 0xA0) || (c =? 0x1680) || in_range 0x2000 0x200A c
  || (c =? 0x2028) || (c =? 0x2029) || (c =? 0x202F) || (c =? 0x205F)
  || (c =? 0x3000) || (c =? 0xFEFF).

Fixpoint trimStart (s : jsstring) : jsstring :=
  match s with
  | [] => []
  | c :: t => if is_white_space c then trimStart t else s
  end.

Definition trimEnd (s : jsstring) : jsstring := rev (trimStart (rev s)).

(** [s.trim()] *)
Definition trim (s : jsstring) : jsstring := trimEnd (trimStart s).

(** [s.replace(/[class]/g, '')]: every code unit of the class is deleted. *)
Definition remove_all (class : Z -> bool) (s : jsstring) : jsstring :=
  filter (fun c => class c = false) s.

(** [Math.ceil(a / b)] for an integer [a] and a positive integer [b].  The
    sources only divide a string length by a power of two, which is exact
    in double precision, so rational arithmetic models it. *)
Definition Math_ceil_div (a : Z) (b : positive) : Z :=
  Qceiling (inject_Z a / inject_Z (Z.pos b)).

End JS.

Import JS.

(** ** Sanitizer.ts *)

Module Sanitizer.

Definition TAB : Z := 0x09.
Definition LF : Z := 0x0A.
Definition CR : Z := 0x0D.
Definition SP : Z := 0x20.

(** [CONTROL_CHAR_REGEX = /[\x00-\x08\v\f\x0E-\x1F\x7F-\x9F]/g] *)
Definition CONTROL_CHAR (c : Z) : bool :=
  in_range 0x00 0x08 c || (c =? 0x0B) || (c =? 0x0C)
  || in_range 0x0E 0x1F c || in_range 0x7F 0x9F c.

(** [ZERO_WIDTH_REGEX = /[\u200B-\u200D\uFEFF\u00AD]/g] *)
Definition ZERO_WIDTH (c : Z) : bool :=
  in_range 0x200B 0x200D c || (c =? 0xFEFF) || (c =? 0x00AD).

(** [BIDI_CONTROL_REGEX = /[\u202A-\u202E\u2066-\u2069]/g] *)
Definition BIDI_CONTROL (c : Z) : bool :=
  in_range 0x202A 0x202E c || in_range 0x2066 0x2069 c.

(** [.replace(CRLF_REGEX, '\n')] with [CRLF_REGEX = /\r\n/g]: matches are
    found left to right and do not overlap. *)
Fixpoint replace_CRLF (s : jsstring) : jsstring :=
  match s with
  | [] => []
  | c :: t =>
      match t with
      | d :: t' =>
          if (c =? CR) && (d =? LF) then LF :: replace_CRLF t'
          else c :: replace_CRLF t
      | [] => [c]
      end
  end.

(** [.replace(CR_REGEX, '\n')] with [CR_REGEX = /\r/g] *)
Definition replace_CR (s : jsstring) : jsstring :=
  map (fun c => if c =? CR then LF else c) s.

(** Replacement of the maximal runs of one character [ch] that a greedy
    quantifier matches.  The scanner counts in [seen] how many [ch] of the
    current run it has already copied (at most [keep]); the rest of the run
    is skipped.

    - [/ +/g -> ' '] is [squeeze SP 1]: a run of one or more spaces becomes
      one space.
    - [/\n{3,}/g -> '\n\n'] is [squeeze LF 2]: a run of three or more
      newlines becomes two newlines, a run of one or two does not match
      and is copied. *)
Fixpoint squeeze (ch : Z) (keep seen : nat) (s : jsstring) : jsstring :=
  match s with
  | [] => []
  | c :: t =>
      if c =? ch then
        if (seen <? keep)%nat then c :: squeeze ch keep (S seen) t
        else squeeze ch keep seen t
      else c :: squeeze ch keep 0 t
  end.

(** [.replace(MULTI_SPACE_REGEX, ' ')] with [MULTI_SPACE_REGEX = / +/g] *)
Definition replace_MULTI_SPACE : jsstring -> jsstring := squeeze SP 1 0.

(** [.replace(MULTI_NEWLINE_REGEX, '\n\n')] with
    [MULTI_NEWLINE_REGEX = /\n{3,}/g] *)
Definition replace_MULTI_NEWLINE : jsstring -> jsstring := squeeze LF 2 0.

(** The result of [sanitizeAndValidate]. *)
Record Validated := { text : jsstring; valid : bool; length_ : Z }.

Section WithNormalize.

(** [text.normalize('NFC')] is implemented by the JavaScript engine from
    the Unicode character database; the sanitizer is parameterised by
    it. *)
Variable normalize : jsstring -> jsstring.

Definition sanitizeText (text : jsstring) : jsstring :=
  trim
    (replace_MULTI_NEWLINE
       (replace_MULTI_SPACE
          (replace_CR
             (replace_CRLF
                (remove_all BIDI_CONTROL
                   (remove_all ZERO_WIDTH
                      (remove_all CONTROL_CHAR
                         (normalize text)))))))).

Definition isEmptyText (text : jsstring) : bool :=
  len (sanitizeText text) =? 0.

(** [minLength = 100] is a default parameter: [None] stands for an
    omitted argument. *)
Definition sanitizeAndValidate (text : jsstring) (minLength : option Z)
  : Validated :=
  let minLength := default 100 minLength in
  let sanitized := sanitizeText text in
  {| text := sanitized;
     valid := minLength <=? len sanitized;
     length_ := len sanitized |}.

End WithNormalize.

(** An excerpt of canonical composition, enough to run the sanitizer on
    the inputs of its test-suite: a Latin vowel directly followed by
    U+0300 (combining grave) or U+0301 (combining acute) is replaced by
    the precomposed letter; every other code unit is copied.  The theorems
    below that hold for all inputs are stated for an arbitrary
    [normalize]. *)
Definition composition_table : list (Z * Z * Z) :=
  [ (0x41, 0x300, 0xC0); (0x41, 0x301, 0xC1); (0x45, 0x300, 0xC8);
    (0x45, 0x301, 0xC9); (0x49, 0x300, 0xCC); (0x49, 0x301, 0xCD);
    (0x4F, 0x300, 0xD2); (0x4F, 0x301, 0xD3); (0x55, 0x300, 0xD9);
    (0x55, 0x301, 0xDA); (0x61, 0x300, 0xE0); (0x61, 0x301, 0xE1);
    (0x65, 0x300, 0xE8); (0x65, 0x301, 0xE9); (0x69, 0x300, 0xEC);
    (0x69, 0x301, 0xED); (0x6F, 0x300, 0xF2); (0x6F, 0x301, 0xF3);
    (0x75, 0x300, 0xF9); (0x75, 0x301, 0xFA) ].

Fixpoint primary_composite (tbl : list (Z * Z * Z)) (base mark : Z)
  : option Z :=
  match tbl with
  | [] => None
  | (b, m, c) :: tbl' =>
      if (b =? base) && (m =? mark) then Some c
      else primary_composite tbl' base mark
  end.

Fixpoint nfc_excerpt (s : jsstring) : jsstring :=
  match s with
  | [] => []
  | b :: t =>
      match t with
      | m :: t' =>
          match primary_composite composition_table b m with
          | Some c => c :: nfc_excerpt t'
          | None => b :: nfc_excerpt t
          end
      | [] => [b]
      end
  end.

End Sanitizer.

(** ** Vocabulary for the properties of the sanitizer *)

Module SanitizerSpec.

(** Unicode general category Cc: the C0 controls, DEL and the C1
    controls. *)
Definition is_control (c : Z) : bool :=
  in_range 0x00 0x1F c || in_range 0x7F 0x9F c.

(** [runs_le ch k seen s] decides that [s], read after [seen] copies of
    [ch], never shows more than [k] copies of [ch] in a row. *)
Fixpoint runs_le (ch : Z) (k seen : nat) (s : jsstring) : bool :=
  match s with
  | [] => true
  | c :: t =>
      if c =? ch then (seen <? k)%nat && runs_le ch k (S seen) t
      else runs_le ch k 0 t
  end.

Import Sanitizer.

(** A code unit that one of the three deletions of [sanitizeText] removes. *)
Definition removed (c : Z) : bool :=
  CONTROL_CHAR c || ZERO_WIDTH c || BIDI_CONTROL c.

(** A code unit that is neither deleted nor white space. *)
Definition visible (c : Z) : bool :=
  negb (removed c) && negb (is_white_space c).

(** [clean s] decides that the steps after the normalization have nothing
    to do on [s]: no deleted character, no carriage return, no two spaces
    and no three newlines in a row, no white space at either end. *)
Definition clean (s : jsstring) : bool :=
  forallb (fun c => negb (removed c) && negb (c =? CR)) s
  && runs_le SP 1 0 s
  && runs_le LF 2 0 s
  && negb (default false (is_white_space <$> head s))
  && negb (default false (is_white_space <$> last s)).

End SanitizerSpec.

(** ** TokenCounter.ts *)

Module TokenCounter.

(** The [Tokenizer] type of the source; the tokenizer itself comes from the
    package [mistral-tokenizer-ts]. *)
Record Tokenizer := {
  encode : jsstring -> list Z;
  decode : list Z -> jsstring
}.

(** The module variable [tokenizerPromise]: [None] is [null], [Some r] is a
    promise settled with [r], where [r = None] is the [null] of the [catch]
    branch. *)
Abbreviation TokenizerPromise := (option (option Tokenizer)).

Definition CHARS_PER_TOKEN : positive := 4.

Section WithImport.

(** Outcome of [import('mistral-tokenizer-ts')] followed by
    [getTokenizerForModel('mistral-embed')]: [None] when either throws. *)
Variable importTokenizer : option Tokenizer.

Definition getTokenizer (tokenizerPromise : TokenizerPromise)
  : option Tokenizer * TokenizerPromise :=
  match tokenizerPromise with
  | None => (importTokenizer, Some importTokenizer)
  | Some tok => (tok, tokenizerPromise)
  end.

Definition countTokens (text : jsstring) (st : TokenizerPromise)
  : Z * TokenizerPromise :=
  let '(tok, st) := getTokenizer st in
  match tok with
  | Some tok => (len (encode tok text), st)
  | None => (Math_ceil_div (len text) CHARS_PER_TOKEN, st)
  end.

Definition exceedsTokenLimit (text : jsstring) (maxTokens : Z)
  (st : TokenizerPromise) : bool * TokenizerPromise :=
  let '(count, st) := countTokens text st in
  (maxTokens <? count, st).

Definition truncateToTokenLimit (text : jsstring) (maxTokens : Z)
  (st : TokenizerPromise) : jsstring * TokenizerPromise :=
  let '(tok, st) := getTokenizer st in
  match tok with
  | Some tok =>
      let tokens := encode tok text in
      if len tokens <=? maxTokens then (text, st)
      else
        let truncatedTokens := slice tokens 0 maxTokens in
        (decode tok truncatedTokens, st)
  | None =>
      let maxChars := maxTokens * Z.pos CHARS_PER_TOKEN in
      if len text <=? maxChars then (text, st)
      else (slice text 0 maxChars, st)
  end.

End WithImport.

Definition countTokensEstimate (text : jsstring) : Z :=
  Math_ceil_div (len text) CHARS_PER_TOKEN.

(** [Number.MAX_VALUE], the largest double: (2^53 - 1) * 2^971. *)
Definition MAX_VALUE : Z := (2 ^ 53 - 1) * 2 ^ 971.

(** The values of the two estimates below on whole numbers: a whole number
    or an infinity. *)
Inductive number :=
| Whole (n : Z)
| Infinity
| NegInfinity.

(** [Math.ceil(tokens * CHARS_PER_TOKEN)] for a whole number of tokens that
    is a double.  The product by 4 of a double is exact as long as it is
    within [Number.MAX_VALUE]; beyond, it is an infinity, and [Math.ceil]
    leaves both alone. *)
Definition estimateCharsFromTokens (tokens : Z) : number :=
  let product := tokens * Z.pos CHARS_PER_TOKEN in
  if MAX_VALUE <? product then Infinity
  else if product <? - MAX_VALUE then NegInfinity
  else Whole product.

(** [Math.ceil(chars / CHARS_PER_TOKEN)] for a whole number of characters
    that is a double: the quotient by 4 of a double is exact. *)
Definition estimateTokensFromChars (chars : Z) : Z :=
  Math_ceil_div chars CHARS_PER_TOKEN.

(** The same on the values of [estimateCharsFromTokens]: an infinity
    divided by 4 and rounded up is that infinity. *)
Definition estimateTokensFromChars_of (chars : number) : number :=
  match chars with
  | Whole n => Whole (estimateTokensFromChars n)
  | Infinity => Infinity
  | NegInfinity => NegInfinity
  end.

End TokenCounter.

(** ** Mistral.ts *)

Module Mistral.

Definition MISTRAL_EMBED_MODEL : string := "mistral-embed".
Definition MAX_BATCH_SIZE : Z := 16.

(** The options [createMistralClient] builds the client with. *)
Record RetryConfig := {
  strategy : string;
  initialInterval : Z;
  maxInterval : Z;
  exponent : Z;
  maxElapsedTime : Z;
  retryConnectionErrors : bool
}.

Record MistralOptions := { apiKey : string; retryConfig : RetryConfig }.

(** The two variables of [Env] the module reads; [None] is [undefined]. *)
Record Env := { MISTRAL_API_KEY : option string; NODE_ENV : option string }.

(** What loading the module does besides computing [mistral]. *)
Inductive load_event :=
| LoggerWarn (message : string)
| NewMistral (options : MistralOptions).

(** [createMistralClient]; the client is modelled by the options it is
    constructed with.  [!Env.MISTRAL_API_KEY] holds for a missing and for
    an empty key. *)
Definition createMistralClient (env : Env)
  : option MistralOptions * list load_event :=
  match MISTRAL_API_KEY env with
  | None | Some "" =>
      (None,
       [LoggerWarn "MISTRAL_API_KEY not configured, Mistral client unavailable"])
  | Some key =>
      let options :=
        {| apiKey := key;
           retryConfig := {| strategy := "backoff";
                             initialInterval := 1000;
                             maxInterval := 60000;
                             exponent := 2;
                             maxElapsedTime := 300000;
                             retryConnectionErrors := true |} |} in
      (Some options, [NewMistral options])
  end.

(** Loading the module: [mistral = globalForMistral.mistral ??
    createMistralClient()], then the client is kept in [globalForMistral]
    outside production.  The result is [mistral], the new
    [globalForMistral.mistral] and the events. *)
Definition load_mistral (env : Env) (globalForMistral : option MistralOptions)
  : option MistralOptions * option MistralOptions * list load_event :=
  let '(mistral, events) :=
    match globalForMistral with
    | Some client => (Some client, [])
    | None => createMistralClient env
    end in
  let globalForMistral :=
    if negb (bool_decide (NODE_ENV env = Some "production"))
       && bool_decide (is_Some mistral)
    then mistral else globalForMistral in
  (mistral, globalForMistral, events).

(** Values that are thrown: [new Error(message)] of this module, the two
    validation errors of the SDK that the [catch] block recognises, and any
    other error of the SDK (transport, HTTP status, retries exhausted). *)
Inductive thrown :=
| Error (message : string)
| SDKValidationError (message : string)
| HTTPValidationError (message : string)
| OtherError (message : string).

(** What the program does to the outside world, in order. *)
Inductive event :=
| EmbeddingsCreate (model : string) (inputs : list jsstring)
| LoggerError (message error : string)
| LoggerDebug (message : string)
| OnProgress (completed total : Z)
| SetTimeout (ms : Z).

(** How a computation ends.  [OutOfFuel] belongs to the model only: the
    [for] loop is run with a bound on its iterations. *)
Inductive outcome (A : Type) :=
| Returned (a : A)
| Threw (e : thrown)
| OutOfFuel.
Arguments Returned {A} a.
Arguments Threw {A} e.
Arguments OutOfFuel {A}.

(** Computations: the events so far go in, the outcome and the events so far
    come out. *)
Definition M (A : Type) : Type := list event -> outcome A * list event.

Definition ret {A} (a : A) : M A := fun h => (Returned a, h).

Definition bind {A B} (m : M A) (k : A -> M B) : M B :=
  fun h =>
    match m h with
    | (Returned a, h') => k a h'
    | (Threw e, h') => (Threw e, h')
    | (OutOfFuel, h') => (OutOfFuel, h')
    end.

Definition throw {A} (e : thrown) : M A := fun h => (Threw e, h).

Definition emit (ev : event) : M unit := fun h => (Returned tt, h ++ [ev]).

(** [try { m } catch (err) { handler err }] *)
Definition try_catch {A} (m : M A) (handler : thrown -> M A) : M A :=
  fun h =>
    match m h with
    | (Threw e, h') => handler e h'
    | r => r
    end.

Notation "'let*' x := m 'in' k" := (bind m (fun x => k))
  (at level 10, x name, m at level 100, k at level 200).
Notation "m >> k" := (bind m (fun _ => k))
  (at level 100, k at level 200, right associativity).

Section WithVector.

(** An embedding, [number[]] in the source. *)
Context {vector : Type}.

Record Usage := { promptTokens : Z; totalTokens : Z }.

Record EmbeddingResult := { embeddings : list vector; usage : Usage }.

(** The response of the provider: one embedding per [data] item and the
    usage counters, which may be missing. *)
Record EmbeddingResponse := {
  data : list vector;
  usage_promptTokens : option Z;
  usage_totalTokens : option Z
}.

(** The SDK client.  [embeddings_create] is the provider: its answer may
    depend on everything that happened before the call. *)
Record Client := {
  embeddings_create :
    list event -> string -> list jsstring -> thrown + EmbeddingResponse
}.

Section WithClient.

(** The module constant [mistral]: [None] is [null], the client that
    [createMistralClient] returns when [MISTRAL_API_KEY] is not set. *)
Variable mistral : option Client.

(** [await client.embeddings.create({ model, inputs })] *)
Definition call_embeddings_create (client : Client) (model : string)
  (inputs : list jsstring) : M EmbeddingResponse :=
  fun h =>
    let h' := h ++ [EmbeddingsCreate model inputs] in
    match embeddings_create client h model inputs with
    | inr response => (Returned response, h')
    | inl err => (Threw err, h')
    end.

Definition createEmbeddings (texts : list jsstring) : M EmbeddingResult :=
  match mistral with
  | None => throw (Error "Mistral client not initialized. Check MISTRAL_API_KEY.")
  | Some client =>
      if MAX_BATCH_SIZE <? len texts then
        throw (Error "Maximum 16 texts per request")
      else if len texts =? 0 then
        throw (Error "At least one text is required")
      else
        try_catch
          (let* result := call_embeddings_create client MISTRAL_EMBED_MODEL texts in
           ret {| embeddings := data result;
                  usage := {| promptTokens := default 0 (usage_promptTokens result);
                              totalTokens := default 0 (usage_totalTokens result) |} |})
          (fun err =>
             match err with
             | SDKValidationError message =>
                 emit (LoggerError "Mistral SDK validation error" message) >>
                 throw (Error ("Mistral validation failed: " +:+ message))
             | HTTPValidationError message =>
                 emit (LoggerError "Mistral HTTP validation error" message) >>
                 throw (Error ("Mistral API validation failed: " +:+ message))
             | _ => throw err
             end)
  end.

(** The [for] loop of [createEmbeddingsBatched].  [onProgress] tells whether
    the optional callback was passed; calling it is recorded as an event. *)
Fixpoint createEmbeddingsBatched_loop (texts : list jsstring)
  (onProgress : bool) (fuel : nat) (i : Z) (allEmbeddings : list vector)
  : M (list vector) :=
  if i <? len texts then
    match fuel with
    | O => fun h => (OutOfFuel, h)
    | S fuel =>
        let batch := slice texts i (i + MAX_BATCH_SIZE) in
        let* result := createEmbeddings batch in
        let allEmbeddings := allEmbeddings ++ embeddings result in
        (if onProgress
         then emit (OnProgress (Z.min (i + MAX_BATCH_SIZE) (len texts)) (len texts))
         else ret tt) >>
        (if i + MAX_BATCH_SIZE <? len texts
         then emit (LoggerDebug "Rate limiting: waiting 31s before next batch") >>
              emit (SetTimeout 31000)
         else ret tt) >>
        createEmbeddingsBatched_loop texts onProgress fuel
          (i + MAX_BATCH_SIZE) allEmbeddings
    end
  else ret allEmbeddings.

Definition createEmbeddingsBatched (texts : list jsstring) (onProgress : bool)
  : M (list vector) :=
  createEmbeddingsBatched_loop texts onProgress (length texts) 0 [].

End WithClient.

Definition MISTRAL_EMBED_DIMENSION : Z := 1024.

Section WithDimension.

(** The [length] of an embedding. *)
Variable dimension : vector -> Z.

(** [verifyConnection]: one request with the text ['test']; any error is
    caught and answered with [false]. *)
Definition verifyConnection (mistral : option Client) : M bool :=
  try_catch
    (let* result := createEmbeddings mistral [lit "test"] in
     ret ((len (embeddings result) =? 1)
          && match embeddings result with
             | v :: _ => dimension v =? MISTRAL_EMBED_DIMENSION
             | [] => false
             end))
    (fun _ => ret false).

End WithDimension.

(** The pauses among the events, in milliseconds, and the progress
    reports. *)
Definition pauses (h : list event) : list Z :=
  omap (fun ev => match ev with SetTimeout ms => Some ms | _ => None end) h.

Definition progress_reports (h : list event) : list (Z * Z) :=
  omap (fun ev => match ev with
                  | OnProgress completed total => Some (completed, total)
                  | _ => None
                  end) h.


(** The requests and the pauses among the events, in order. *)
Definition timeline (h : list event) : list (Z + list jsstring) :=
  omap (fun ev => match ev with
                  | SetTimeout ms => Some (inl ms)
                  | EmbeddingsCreate _ inputs => Some (inr inputs)
                  | _ => None
                  end) h.

(** The requests for the batches [bs] with one pause of [ms] between any
    two of them, and no other pause. *)
Fixpoint with_pauses (ms : Z) (bs : list (list jsstring))
  : list (Z + list jsstring) :=
  match bs with
  | [] => []
  | b :: rest =>
      inr b :: match rest with
               | [] => []
               | _ :: _ => inl ms :: with_pauses ms rest
               end
  end.

(** The rate limit of the free tier, two requests a minute: no request
    follows another one without a pause of at least 30 s in between.
    [paused] tells whether such a pause was taken since the last request. *)
Fixpoint rate_limited (paused : bool) (h : list event) : bool :=
  match h with
  | [] => true
  | EmbeddingsCreate _ _ :: h => paused && rate_limited false h
  | SetTimeout ms :: h => rate_limited (paused || (30000 <=? ms)) h
  | _ :: h => rate_limited paused h
  end.

(** The provider calls among the events, oldest first. *)
Definition provider_calls (h : list event) : list (list jsstring) :=
  omap (fun ev => match ev with
                  | EmbeddingsCreate _ inputs => Some inputs
                  | _ => None
                  end) h.

End WithVector.

Arguments Client : clear implicits.
Arguments EmbeddingResult : clear implicits.
Arguments EmbeddingResponse : clear implicits.

End Mistral.

(** ** The embedding batcher as the specification words it *)

Module EmbeddingBatcher.

Import Mistral.

(** Consecutive pieces of [size] elements; the last one may be shorter.
    [fuel] bounds the number of pieces. *)
Fixpoint pieces {A} (fuel size : nat) (l : list A) : list (list A) :=
  match fuel, l with
  | O, _ | _, [] => []
  | S fuel, _ => take size l :: pieces fuel size (drop size l)
  end.

(** The input partitioned in order into batches of at most 16 texts. *)
Definition batches {A} (l : list A) : list (list A) :=
  pieces (length l) (Z.to_nat MAX_BATCH_SIZE) l.

Section WithVector.

Context {vector : Type}.

Definition report_progress (onProgress : bool) (completed total : Z) : M unit :=
  if onProgress then emit (OnProgress completed total) else ret tt.

(** The fixed pause between two batches. *)
Definition inter_batch_delay : M unit :=
  emit (LoggerDebug "Rate limiting: waiting 31s before next batch") >>
  emit (SetTimeout 31000).

(** [embedAll]: the batches are embedded one after the other; after each
    one the cumulative number of embedded texts is reported; the pause
    is taken when another batch follows; the result is the concatenation of
    the vectors of all batches. *)
Fixpoint embedAll (mistral : option (Client vector)) (onProgress : bool)
  (total completed : Z) (bs : list (list jsstring)) : M (list vector) :=
  match bs with
  | [] => ret []
  | b :: rest =>
      let* result := createEmbeddings mistral b in
      let completed := completed + len b in
      report_progress onProgress completed total >>
      (match rest with [] => ret tt | _ :: _ => inter_batch_delay end) >>
      let* vectors := embedAll mistral onProgress total completed rest in
      ret (embeddings result ++ vectors)
  end.

(** A provider that answers every request: [embed] gives the vectors of a
    batch. *)
Definition answering (embed : list jsstring -> list vector) : Client vector :=
  {| embeddings_create := fun _ _ inputs =>
       inr {| data := embed inputs;
              usage_promptTokens := None;
              usage_totalTokens := None |} |}.

(** The events of a run over the batches [bs] in which every request is
    answered. *)
Fixpoint batched_events (onProgress : bool) (total completed : Z)
  (bs : list (list jsstring)) : list event :=
  match bs with
  | [] => []
  | b :: rest =>
      let completed := completed + len b in
      [EmbeddingsCreate MISTRAL_EMBED_MODEL b]
      ++ (if onProgress then [OnProgress completed total] else [])
      ++ (match rest with
          | [] => []
          | _ :: _ => [LoggerDebug "Rate limiting: waiting 31s before next batch";
                       SetTimeout 31000]
          end)
      ++ batched_events onProgress total completed rest
  end.

End WithVector.

End EmbeddingBatcher.

(** ** Upload validation (the zod schemas) *)

Module Validation.

(** A submission as the endpoint receives it.  A field that is not a string
    is refused by [z.string()] before any other check and is not modelled. *)
Record Submission := {
  type_ : jsstring;
  url : jsstring;
  title : option jsstring
}.

Section WithZod.

(** zod's [.url()] check: it trims the string, tests the trimmed string
    with [new URL] ([zod_url]: the constructor does not throw) and hands
    the trimmed string on to the checks that follow. *)
Variable zod_url : jsstring -> bool.

(** [z.string().min(1).max(200).optional()] *)
Definition title_ok (t : option jsstring) : bool :=
  match t with
  | None => true
  | Some t => (1 <=? len t) && (len t <=? 200)
  end.

(** The value of [url] after the [.url()] check: the refinement and the
    parsed submission see the trimmed string. *)
Definition checked_url (x : Submission) : jsstring := trim (url x).

(** [UrlUploadSchema.safeParse(x).success]: the literal type, the [.url()]
    check, the refinement [url.startsWith('https://')] on the value that
    the check hands on, and the title. *)
Definition UrlUploadSchema (x : Submission) : bool :=
  bool_decide (type_ x = lit "url")
  && zod_url (checked_url x)
  && startsWith (checked_url x) (lit "https://")
  && title_ok (title x).

End WithZod.

(** The scheme of a URL (RFC 3986, section 3.1): what stands before the
    first colon. *)
Fixpoint scheme_of (u : jsstring) : option jsstring :=
  match u with
  | [] => None
  | c :: t =>
      if c =? 0x3A then Some []
      else match scheme_of t with
           | Some s => Some (c :: s)
           | None => None
           end
  end.

End Validation.

(** ** SecureFetcher *)

Module SecureFetcher.

Inductive ip :=
| IPv4 (a : Z)   (* a 32-bit address *)
| IPv6 (a : Z).  (* a 128-bit address *)

(** [in_cidr width base prefix a]: the leading [prefix] bits of the
    [width]-bit address [a] are those of [base]. *)
Definition in_cidr (width : Z) (base prefix a : Z) : bool :=
  Z.shiftr a (width - prefix) =? Z.shiftr base (width - prefix).

(** Modelled from the spec: the address ranges of section 4.3, step 3
    (private, loopback, link-local, unique-local, multicast, reserved), as
    the blocks of the special-purpose address registries. *)
Definition blocked_v4 : list (Z * Z) :=
  [ (0x00000000, 8);    (* 0.0.0.0/8        reserved, this network *)
    (0x0A000000, 8);    (* 10.0.0.0/8       private *)
    (0x64400000, 10);   (* 100.64.0.0/10    private, shared address space *)
    (0x7F000000, 8);    (* 127.0.0.0/8      loopback *)
    (0xA9FE0000, 16);   (* 169.254.0.0/16   link-local *)
    (0xAC100000, 12);   (* 172.16.0.0/12    private *)
    (0xC0000000, 24);   (* 192.0.0.0/24     reserved, protocol assignments *)
    (0xC0000200, 24);   (* 192.0.2.0/24     reserved, documentation *)
    (0xC0586300, 24);   (* 192.88.99.0/24   reserved, 6to4 relay *)
    (0xC0A80000, 16);   (* 192.168.0.0/16   private *)
    (0xC6120000, 15);   (* 198.18.0.0/15    reserved, benchmarking *)
    (0xC6336400, 24);   (* 198.51.100.0/24  reserved, documentation *)
    (0xCB007100, 24);   (* 203.0.113.0/24   reserved, documentation *)
    (0xE0000000, 4);    (* 224.0.0.0/4      multicast *)
    (0xF0000000, 4) ].  (* 240.0.0.0/4      reserved, with the broadcast *)

Definition blocked_v6 : list (Z * Z) :=
  [ (0x00000000000000000000000000000000, 128);  (* ::            reserved *)
    (0x00000000000000000000000000000001, 128);  (* ::1           loopback *)
    (0x00000000000000000000000000000000, 96);   (* ::/96         reserved *)
    (0x0064FF9B000100000000000000000000, 48);   (* 64:ff9b:1::/48 reserved *)
    (0x01000000000000000000000000000000, 64);   (* 100::/64      reserved *)
    (0x20010000000000000000000000000000, 23);   (* 2001::/23     reserved *)
    (0x20010DB8000000000000000000000000, 32);   (* 2001:db8::/32 reserved *)
    (0xFC000000000000000000000000000000, 7);    (* fc00::/7      unique-local *)
    (0xFE800000000000000000000000000000, 10);   (* fe80::/10     link-local *)
    (0xFF000000000000000000000000000000, 8) ].  (* ff00::/8      multicast *)

(** The blocks of 128-bit addresses that carry a 32-bit address: the
    block, and how far right of it the 32 bits stand. *)
Definition embedding_v6 : list (Z * Z * Z) :=
  [ (0x00000000000000000000FFFF00000000, 96, 0);   (* ::ffff:a.b.c.d   *)
    (0x0064FF9B000000000000000000000000, 96, 0);   (* 64:ff9b::a.b.c.d *)
    (0x20020000000000000000000000000000, 16, 80) ].  (* 2002:ab:cd::/48  *)

(** The well-known cloud metadata address 169.254.169.254. *)
Definition METADATA_ADDRESS : Z := 0xA9FEA9FE.

Definition is_blocked_v4 (a : Z) : bool :=
  (a =? METADATA_ADDRESS)
  || existsb (fun r => in_cidr 32 (fst r) (snd r) a) blocked_v4.

(** The 32-bit addresses that the 128-bit address [a] carries. *)
Definition embedded_v4 (a : Z) : list Z :=
  omap (fun r : Z * Z * Z =>
          if in_cidr 128 r.1.1 r.1.2 a
          then Some (Z.land (Z.shiftr a r.2) 0xFFFFFFFF)
          else None)
       embedding_v6.

(** Modelled from the spec: step 3 of the validation sequence.  An address
    falls in a range also when the 32-bit address it carries does. *)
Definition is_blocked (a : ip) : bool :=
  match a with
  | IPv4 a => is_blocked_v4 a
  | IPv6 a =>
      existsb (fun r => in_cidr 128 (fst r) (snd r) a) blocked_v6
      || existsb is_blocked_v4 (embedded_v4 a)
  end.

Inductive FetchError :=
| InvalidUrl        (* the URL does not parse *)
| SecurityBlocked
| FetchFailed.      (* time-out, size cap, content type, transport *)

Inductive net_event :=
| DnsResolve (hostname : jsstring)
| HttpGet (url : jsstring).

Record ParsedUrl := { protocol : jsstring; hostname : jsstring }.

Section WithNetwork.

(** URL parsing, name resolution ([None]: the lookup fails) and the bounded
    fetch with content extraction (steps 4 to 7, [None]: it fails). *)
Variable parse : jsstring -> option ParsedUrl.
Variable resolve : jsstring -> option (list ip).
Variable fetch_and_extract : jsstring -> option jsstring.

(** Modelled from the spec: [fetchText] of section 4.3, which is not among
    the sources.  Each step ends the sequence when it fails; a failed name
    resolution blocks. *)
Definition fetchText (u : jsstring)
  : (FetchError + jsstring) * list net_event :=
  match parse u with
  | None => (inl InvalidUrl, [])
  | Some p =>
      if negb (bool_decide (protocol p = lit "https:")) then
        (inl SecurityBlocked, [])
      else
        match resolve (hostname p) with
        | None => (inl SecurityBlocked, [DnsResolve (hostname p)])
        | Some addresses =>
            if existsb is_blocked addresses then
              (inl SecurityBlocked, [DnsResolve (hostname p)])
            else
              match fetch_and_extract u with
              | Some body =>
                  (inr body, [DnsResolve (hostname p); HttpGet u])
              | None =>
                  (inl FetchFailed, [DnsResolve (hostname p); HttpGet u])
              end
        end
  end.

(** Modelled from the spec: a target is disallowed when its scheme is not
    the secure HTTP scheme, when its host name does not resolve, or when one
    of the addresses it resolves to is blocked. *)
Definition disallowed_target (p : ParsedUrl) : Prop :=
  protocol p <> lit "https:"
  \/ resolve (hostname p) = None
  \/ exists addresses,
       resolve (hostname p) = Some addresses
       /\ Exists (fun a => is_blocked a = true) addresses.

End WithNetwork.

Definition is_HttpGet (ev : net_event) : bool :=
  match ev with HttpGet _ => true | DnsResolve _ => false end.

End SecureFetcher.

(** ** Chunk rows and vector records *)

Module ContentIngestion.

(** The columns of [chunksSchema] ([Schema.ts]) that the application sets;
    [id] and [createdAt] have database defaults.  [pineconeId] is [notNull]
    and [unique]. *)
Record NewChunk := {
  documentId : string;
  content : jsstring;
  position : nat;
  tokenCount : Z;
  pineconeId : string
}.

Inductive content_type := pdf | url | text.

(** [ChunkMetadata] of [Pinecone.ts]. *)
Record ChunkMetadata := {
  user_id : string;
  document_id : string;
  chunk_position : nat;
  content_type_ : content_type;
  created_at : string;
  text_ : jsstring
}.

Section WithVector.

Context {vector : Type}.

(** What is stored under a key of the vector index. *)
Record VectorRecord := { values : vector; metadata : ChunkMetadata }.

(** The document being ingested: the columns of [documentsSchema] that the
    keys and the metadata use. *)
Record Document := {
  id : string;
  userId : string;
  contentType : content_type
}.

(** Modelled from the spec: the key derivation of the orchestrator, which is
    not among the sources.  The key is derived from the document identifier
    and the position; the plan of the repository gives its format,
    [{documentId}_chunk_{position}]. *)
Definition vectorKey (documentId : string) (position : nat) : string :=
  documentId +:+ "_chunk_" +:+ pretty position.

(** One ingestion attempt: the embedding of each chunk and the time of the
    attempt.  Both may change from one attempt to the next. *)
Record Attempt := {
  embed : jsstring -> vector;
  estimate : jsstring -> Z;
  now : string
}.

(** Modelled from the spec: the chunk rows of a document, in order, each
    with its position and its key. *)
Definition chunkRows (d : Document) (at_ : Attempt) (chunks : list jsstring)
  : list NewChunk :=
  imap (fun i c => {| documentId := id d;
                      content := c;
                      position := i;
                      tokenCount := estimate at_ c;
                      pineconeId := vectorKey (id d) i |}) chunks.

(** Modelled from the spec: the vector records of a document, keyed like its
    chunk rows. *)
Definition vectorRecords (d : Document) (at_ : Attempt)
  (chunks : list jsstring) : list (string * VectorRecord) :=
  imap (fun i c => (vectorKey (id d) i,
                    {| values := embed at_ c;
                       metadata := {| user_id := userId d;
                                      document_id := id d;
                                      chunk_position := i;
                                      content_type_ := contentType d;
                                      created_at := now at_;
                                      text_ := c |} |})) chunks.

(** Modelled from the spec: [upsert] of the vector store contract, a write
    under a key replaces what the key held. *)
Definition upsert (records : list (string * VectorRecord))
  (index : gmap string VectorRecord) : gmap string VectorRecord :=
  foldl (fun idx r => <[r.1 := r.2]> idx) index records.

(** The vector writes of one ingestion of [d]. *)
Definition ingestVectors (d : Document) (at_ : Attempt)
  (chunks : list jsstring) (index : gmap string VectorRecord)
  : gmap string VectorRecord :=
  upsert (vectorRecords d at_ chunks) index.

End WithVector.

Arguments VectorRecord : clear implicits.
Arguments Attempt : clear implicits.

End ContentIngestion.

(** ** Sample data for the examples *)

Module Samples.

Import Mistral EmbeddingBatcher.

(** [n] texts ["t0"], ["t1"], ... told apart by their number. *)
Definition sample_texts (n : nat) : list jsstring :=
  (fun i => lit "t" ++ [Z.of_nat i]) <$> seq 0 n.

(** A provider that answers each text with the one-dimensional vector of
    its length. *)
Definition length_embedder (inputs : list jsstring) : list (list Z) :=
  (fun t => [len t]) <$> inputs.

Definition sample_client : Client (list Z) := answering length_embedder.


Definition http_submission : Validation.Submission :=
  {| Validation.type_ := lit "url";
     Validation.url := lit "http://example.com/lesson";
     Validation.title := None |}.

Definition https_submission : Validation.Submission :=
  {| Validation.type_ := lit "url";
     Validation.url := lit "https://example.com/lesson";
     Validation.title := Some (lit "Lesson") |}.

(** A resolver for the literal cases of the specification; the dotted
    quads are written as 32-bit numbers. *)
Definition sample_parse (u : jsstring) : option SecureFetcher.ParsedUrl :=
  if startsWith u (lit "https://")
  then Some {| SecureFetcher.protocol := lit "https:";
               SecureFetcher.hostname := drop 8 u |}
  else if startsWith u (lit "http://")
  then Some {| SecureFetcher.protocol := lit "http:";
               SecureFetcher.hostname := drop 7 u |}
  else None.

Definition sample_resolve (host : jsstring) : option (list SecureFetcher.ip) :=
  if bool_decide (host = lit "169.254.169.254")
  then Some [SecureFetcher.IPv4 0xA9FEA9FE]
  else if bool_decide (host = lit "10.0.0.1")
  then Some [SecureFetcher.IPv4 0x0A000001]
  else if bool_decide (host = lit "127.0.0.1")
  then Some [SecureFetcher.IPv4 0x7F000001]
  else if bool_decide (host = lit "example.com")
  then Some [SecureFetcher.IPv4 0x5DB8D822]
  else None.

Definition sample_fetch (u : jsstring) : option jsstring :=
  Some (lit "Buongiorno").

End Samples.


(** ** Computations over a state that may throw *)

Module Eff.

(** How a computation ends.  [OutOfFuel] belongs to the model only: a
    [while] loop is run with a bound on its iterations. *)
Inductive outcome (E A : Type) :=
| Returned (a : A)
| Threw (e : E)
| OutOfFuel.
Arguments Returned {E A} a.
Arguments Threw {E A} e.
Arguments OutOfFuel {E A}.

(** The state goes in, the outcome and the state come out. *)
Definition M (S E A : Type) : Type := S -> outcome E A * S.

Definition ret {S E A} (a : A) : M S E A := fun s => (Returned a, s).

Definition bind {S E A B} (m : M S E A) (k : A -> M S E B) : M S E B :=
  fun s =>
    match m s with
    | (Returned a, s') => k a s'
    | (Threw e, s') => (Threw e, s')
    | (OutOfFuel, s') => (OutOfFuel, s')
    end.

Definition throw {S E A} (e : E) : M S E A := fun s => (Threw e, s).

Definition gets {S E A} (f : S -> A) : M S E A := fun s => (Returned (f s), s).

Definition modify {S E} (f : S -> S) : M S E unit :=
  fun s => (Returned tt, f s).

(** [try { m } catch (err) { handler err }] *)
Definition try_catch {S E A} (m : M S E A) (handler : E -> M S E A)
  : M S E A :=
  fun s =>
    match m s with
    | (Threw e, s') => handler e s'
    | r => r
    end.

(** [for (const x of l) { body x }], the loop variables passed along. *)
Fixpoint for_of {S E A V} (l : list A) (body : A -> V -> M S E V) (vars : V)
  : M S E V :=
  match l with
  | [] => ret vars
  | x :: l => bind (body x vars) (for_of l body)
  end.

Notation "'let!' x := m 'in' k" := (bind m (fun x => k))
  (at level 10, x name, m at level 100, k at level 200).
Notation "m ;> k" := (bind m (fun _ => k))
  (at level 100, k at level 200, right associativity).

(** What JavaScript takes for true of a [string | null | undefined]. *)
Definition truthy (s : option string) : bool :=
  match s with
  | Some s => negb (String.eqb s "")
  | None => false
  end.

End Eff.

(** ** The vector index (Pinecone.ts) *)

Module Pinecone.

Import Eff.

Definition PINECONE_INDEX_NAME : string := "italian-learning".
Definition PINECONE_NAMESPACE : string := "content".
Definition MISTRAL_EMBED_DIMENSION : Z := 1024.

(** The argument of [createIndex]. *)
Record CreateIndexOptions := {
  name : string;
  dimension : Z;
  metric : string;
  cloud : string;
  region : string;
  waitUntilReady : bool
}.

(** An item of the listing; only its [name] is read. *)
Record IndexModel := { index_name : string; index_dimension : Z }.

(** The answer of [listIndexes]: its [indexes] may be missing. *)
Record IndexList := { indexes : option (list IndexModel) }.

Inductive thrown :=
| Error (message : string)
| PineconeError (message : string).

(** What the module does to the outside world, in order. *)
Inductive event :=
| ListIndexes
| CreateIndex (options : CreateIndexOptions)
| Query (index : string) (namespace : option string) (vector : list Z)
    (topK : Z)
| LoggerInfo (message : string).

Section WithService.

(** The state of the index service. *)
Context {service : Type}.

(** The SDK client: its calls read and change the state of the service. *)
Record Client := {
  listIndexes : service -> thrown + IndexList;
  createIndex : CreateIndexOptions -> service -> thrown + service;
  query : string -> option string -> list Z -> Z -> service -> thrown + unit
}.

(** [pinecone.index(name)] and [.namespace(ns)]: a handle on the client. *)
Record Index := {
  index_client : Client;
  target : string;
  namespace_ : option string
}.

Definition World : Type := service * list event.

Definition emit (ev : event) : M World thrown unit :=
  modify (fun w => (w.1, w.2 ++ [ev])).

Definition call_listIndexes (client : Client) : M World thrown IndexList :=
  fun w =>
    let h := w.2 ++ [ListIndexes] in
    match listIndexes client w.1 with
    | inr l => (Returned l, (w.1, h))
    | inl err => (Threw err, (w.1, h))
    end.

Definition call_createIndex (client : Client) (options : CreateIndexOptions)
  : M World thrown unit :=
  fun w =>
    let h := w.2 ++ [CreateIndex options] in
    match createIndex client options w.1 with
    | inr s => (Returned tt, (s, h))
    | inl err => (Threw err, (w.1, h))
    end.

Definition call_query (index : Index) (vector : list Z) (topK : Z)
  : M World thrown unit :=
  fun w =>
    let h := w.2 ++ [Query (target index) (namespace_ index) vector topK] in
    match query (index_client index) (target index) (namespace_ index)
            vector topK w.1 with
    | inr _ => (Returned tt, (w.1, h))
    | inl err => (Threw err, (w.1, h))
    end.

Section WithClient.

(** The module constant [pinecone]: [None] is [null], the client that
    [createPineconeClient] returns when [PINECONE_API_KEY] is not set. *)
Variable pinecone : option Client.

Definition getIndex : M World thrown Index :=
  match pinecone with
  | None => throw (Error "Pinecone client not initialized. Check PINECONE_API_KEY.")
  | Some client =>
      ret {| index_client := client;
             target := PINECONE_INDEX_NAME;
             namespace_ := None |}
  end.

Definition getNamespacedIndex : M World thrown Index :=
  let! index := getIndex in
  ret {| index_client := index_client index;
         target := target index;
         namespace_ := Some PINECONE_NAMESPACE |}.

Definition ensureIndexExists : M World thrown unit :=
  match pinecone with
  | None => throw (Error "Pinecone client not initialized. Check PINECONE_API_KEY.")
  | Some client =>
      let! indexes := call_listIndexes client in
      (* [indexes.indexes?.some(...)]: [undefined] when there is no list *)
      let indexExists :=
        existsb (fun idx => String.eqb (index_name idx) PINECONE_INDEX_NAME)
          <$> Pinecone.indexes indexes in
      if negb (default false indexExists) then
        emit (LoggerInfo "Creating Pinecone index") ;>
        call_createIndex client
          {| name := PINECONE_INDEX_NAME;
             dimension := MISTRAL_EMBED_DIMENSION;
             metric := "cosine";
             cloud := "aws";
             region := "us-east-1";
             waitUntilReady := true |} ;>
        emit (LoggerInfo "Created Pinecone index")
      else ret tt
  end.

Definition keepAlive : M World thrown unit :=
  let! index := getIndex in
  call_query index (replicate (Z.to_nat MISTRAL_EMBED_DIMENSION) 0) 1 ;>
  emit (LoggerInfo "Pinecone keep-alive ping sent").

End WithClient.


(** The indexes that were asked for among the events, and the queries. *)
Definition creations (h : list event) : list CreateIndexOptions :=
  omap (fun ev => match ev with CreateIndex o => Some o | _ => None end) h.

Definition queries (h : list event)
  : list (string * option string * list Z * Z) :=
  omap (fun ev => match ev with
                  | Query i ns v k => Some (i, ns, v, k)
                  | _ => None
                  end) h.

(** A service on which a created index is listed afterwards. *)
Definition lists_what_it_creates (client : Client) : Prop :=
  forall (options : CreateIndexOptions) (s s' : service),
    createIndex client options s = inr s' ->
    exists l, listIndexes client s' = inr {| indexes := Some l |}
              /\ existsb (fun idx => String.eqb (index_name idx) (name options))
                   l = true.

End WithService.

Arguments Client : clear implicits.
Arguments Index : clear implicits.
Arguments World : clear implicits.

(** A service that keeps the list of its indexes and refuses to create an
    index twice. *)
Definition list_service : Client (list IndexModel) :=
  {| listIndexes := fun s => inr {| indexes := Some s |};
     createIndex := fun o s =>
       if existsb (fun idx => String.eqb (index_name idx) (name o)) s
       then inl (PineconeError "ALREADY_EXISTS")
       else inr (s ++ [{| index_name := name o;
                          index_dimension := dimension o |}]);
     query := fun _ _ _ _ _ => inr tt |}.

End Pinecone.

(** ** The tables (Schema.ts and the migration) *)

(** The database answers every statement: a statement fails only when a
    constraint of the migration refuses it.  Failures of the connection are
    not modelled.  A statement is atomic, a run of several awaited
    statements is not: between two of them other requests and scripts may
    write to the tables. *)

Module Schema.

Import Eff.

Definition uuid : Type := Z.

(** A row of [users].  The two timestamps are left out: no code reads
    them. *)
Record User := { id : uuid; clerkId : string }.

(** The tables that the migration ties to [users].  Of [documents],
    [exercises] and [responses] only the column [user_id] is kept, which
    refers to [users.id] with [ON DELETE no action]. *)
Record Tables := {
  users : list User;
  documents_user_id : list uuid;
  exercises_user_id : list uuid;
  responses_user_id : list uuid
}.

(** What a statement or a call of the application throws. *)
Inductive thrown :=
| Error (message : string)
| QueryError (code : string)
| SyntaxError
| ClerkAPIError (message : string)
| ProcessExit (code : Z).

(** The error codes of PostgreSQL for the two constraints. *)
Definition unique_violation : string := "23505".
Definition foreign_key_violation : string := "23503".

(** [gen_random_uuid()], the default of [users.id]: a value that no row
    has; the collisions of random identifiers are not modelled. *)
Definition gen_random_uuid (t : Tables) : uuid :=
  Z.succ (foldr Z.max 0 (id <$> users t)).

(** [select().from(usersSchema).where(eq(usersSchema.clerkId, x))] *)
Definition select_users (x : string) (t : Tables) : list User :=
  filter (fun u => clerkId u = x) (users t).

(** [db.query.usersSchema.findFirst({ where: eq(usersSchema.clerkId, x) })] *)
Definition findFirst (x : string) (t : Tables) : option User :=
  head (select_users x t).

(** [db.insert(usersSchema).values({ clerkId: x })] under
    [users_clerk_id_unique]. *)
Definition insert_users (x : string) (t : Tables) : thrown + Tables :=
  if bool_decide (x ∈ clerkId <$> users t)
  then inl (QueryError unique_violation)
  else inr {| users := users t ++ [{| id := gen_random_uuid t; clerkId := x |}];
              documents_user_id := documents_user_id t;
              exercises_user_id := exercises_user_id t;
              responses_user_id := responses_user_id t |}.

(** The rows of the other tables that refer to the user [i]. *)
Definition referenced (t : Tables) (i : uuid) : bool :=
  bool_decide (i ∈ documents_user_id t ++ exercises_user_id t
                   ++ responses_user_id t).

(** [db.delete(usersSchema).where(eq(usersSchema.clerkId, x))] under the
    three foreign keys [..._user_id_users_id_fk]: the statement fails, and
    deletes nothing, when a row to be deleted is still referred to. *)
Definition delete_users (x : string) (t : Tables) : thrown + Tables :=
  if existsb (fun u => referenced t (id u)) (select_users x t)
  then inl (QueryError foreign_key_violation)
  else inr {| users := filter (fun u => clerkId u <> x) (users t);
              documents_user_id := documents_user_id t;
              exercises_user_id := exercises_user_id t;
              responses_user_id := responses_user_id t |}.

(** The constraints of the migration on these columns: [clerk_id] and the
    primary key are unique, and every [user_id] is the [id] of a user. *)
Definition constraints (t : Tables) : Prop :=
  NoDup (clerkId <$> users t)
  /\ NoDup (id <$> users t)
  /\ (forall i, i ∈ documents_user_id t ++ exercises_user_id t
                    ++ responses_user_id t ->
                i ∈ id <$> users t).

(** The state of a run: the tables and what was logged or printed. *)
Definition World (line : Type) : Type := Tables * list line.

Section WithLine.

Context {line : Type}.

Definition emit (l : line) : M (World line) thrown unit :=
  modify (fun w => (w.1, w.2 ++ [l])).

(** [await] of a statement that reads. *)
Definition query {A} (q : Tables -> A) : M (World line) thrown A :=
  gets (fun w => q w.1).

(** [await] of a statement that writes. *)
Definition execute (q : Tables -> thrown + Tables) : M (World line) thrown unit :=
  fun w =>
    match q w.1 with
    | inr t => (Returned tt, (t, w.2))
    | inl err => (Threw err, w)
    end.

(** Between two awaited statements of a run: [concurrent] is what other
    requests and scripts do to the tables there, the identity when the run
    is alone. *)
Definition interleave (concurrent : Tables -> Tables)
  : M (World line) thrown unit :=
  modify (fun w => (concurrent w.1, w.2)).

End WithLine.

End Schema.

(** ** The Clerk webhook (route.ts) *)

Module ClerkWebhook.

Import Eff Schema.

(** [evt.type] and the [id] of [evt.data]. *)
Inductive WebhookEvent :=
| user_created (id : string)
| user_deleted (id : option string)
| other (type : string).

(** The request: the three Svix headers and [JSON.stringify(await
    req.json())], [None] when the body is no JSON. *)
Record Request := {
  svix_id : option string;
  svix_timestamp : option string;
  svix_signature : option string;
  json : option string
}.

Record Response := { body : string; status : Z }.

Inductive logline :=
| LoggerError (message : string)
| LoggerWarn (message : string)
| LoggerInfo (message clerkId : string)
| LoggerDebug (message detail : string).

Section WithSvix.

(** [new Webhook(secret)], which throws for a secret it cannot decode, and
    [verify(body, headers)] of the object it builds, [None] when that
    throws. *)
Variable Webhook :
  string -> thrown + (string -> string * string * string -> option WebhookEvent).

(** What other requests and scripts write between the search and the insert
    of [user.created], two awaited statements outside any transaction. *)
Variable concurrent : Tables -> Tables.

Definition POST (WEBHOOK_SECRET : option string) (req : Request)
  : M (World logline) thrown Response :=
  if negb (truthy WEBHOOK_SECRET) then
    emit (LoggerError "Missing CLERK_WEBHOOK_SECRET environment variable") ;>
    ret {| body := "Webhook secret not configured"; status := 500 |}
  else
    let svixId := svix_id req in
    let svixTimestamp := svix_timestamp req in
    let svixSignature := svix_signature req in
    if negb (truthy svixId) || negb (truthy svixTimestamp)
       || negb (truthy svixSignature) then
      emit (LoggerWarn "Missing Svix headers in webhook request") ;>
      ret {| body := "Missing Svix headers"; status := 400 |}
    else
      let! body := match json req with
                   | Some body => ret body
                   | None => throw SyntaxError
                   end in
      let! wh := match Webhook (default "" WEBHOOK_SECRET) with
                 | inr wh => ret wh
                 | inl err => throw err
                 end in
      match wh body (default "" svixId, default "" svixTimestamp,
                     default "" svixSignature) with
      | None =>
          emit (LoggerError "Webhook verification failed") ;>
          ret {| body := "Invalid signature"; status := 400 |}
      | Some evt =>
          match evt with
          | user_created id =>
              let! existing := query (findFirst id) in
              match existing with
              | None =>
                  interleave concurrent ;>
                  execute (insert_users id) ;>
                  emit (LoggerInfo "Created user from webhook" id)
              | Some _ =>
                  emit (LoggerDebug "User already exists, skipping" id)
              end
          | user_deleted id =>
              if truthy id then
                execute (delete_users (default "" id)) ;>
                emit (LoggerInfo "Deleted user from webhook" (default "" id))
              else ret tt
          | other type => emit (LoggerDebug "Unhandled webhook event" type)
          end ;>
          ret {| body := "Webhook processed"; status := 200 |}
      end.

End WithSvix.

End ClerkWebhook.

(** ** The helpers of authentication (Auth.ts) *)

Module Auth.

Import Eff Schema.

Section WithSession.

Context {line : Type}.

(** The [userId] of [await auth()]: [None] when nobody is signed in. *)
Variable userId : option string.

Definition getCurrentUser : M (World line) thrown (option User) :=
  if negb (truthy userId) then ret None
  else query (findFirst (default "" userId)).

Definition requireUser : M (World line) thrown User :=
  let! user := getCurrentUser in
  match user with
  | None =>
      throw (Error "User not found in database. Webhook may not have synced yet.")
  | Some user => ret user
  end.

Definition getClerkUserId : M (World line) thrown (option string) :=
  ret userId.

Definition requireAuth : M (World line) thrown string :=
  let! userId := getClerkUserId in
  if negb (truthy userId) then throw (Error "Authentication required")
  else ret (default "" userId).

End WithSession.

End Auth.

(** ** The script that copies the users of Clerk (sync-users.ts) *)

Module SyncUsers.

Import Eff Schema.

Record ClerkUser := { user_id : string; createdAt : Z }.

(** What the script prints and calls, in order.  The texts are those of the
    source, with its escapes as they are written there. *)
Inductive line :=
| ConsoleLog (text : string)
| ConsoleError (text : string) (err : option thrown)
| GetUserList (limit offset : Z)
| PoolEnd.

Definition limit : Z := 100.

Section WithClerk.

(** [clerk.users.getUserList({ limit, offset })], its [data]. *)
Variable getUserList : Z -> Z -> thrown + list ClerkUser.

(** What other requests and scripts write before the [k]-th awaited
    statement of the loop over the users, which runs outside any
    transaction.  The turn [i] awaits the statement [2 i], its select, and,
    for a user it did not find, the statement [2 i + 1], its insert. *)
Variable concurrent : Z -> Tables -> Tables.

Definition call_getUserList (limit offset : Z)
  : M (World line) thrown (list ClerkUser) :=
  fun w =>
    let h := w.2 ++ [GetUserList limit offset] in
    match getUserList limit offset with
    | inr data => (Returned data, (w.1, h))
    | inl err => (Threw err, (w.1, h))
    end.

(** The loop [while (true)] that reads the pages. *)
Fixpoint fetch_loop (fuel : nat) (offset : Z) (allUsers : list ClerkUser)
  : M (World line) thrown (list ClerkUser) :=
  match fuel with
  | O => fun w => (OutOfFuel, w)
  | S fuel =>
      let! data := call_getUserList limit offset in
      let allUsers :=
        allUsers ++ map (fun u => {| user_id := user_id u;
                                     createdAt := createdAt u |}) data in
      if len data <? limit then ret allUsers
      else fetch_loop fuel (offset + limit) allUsers
  end.

(** One turn of the loop [for (const clerkUser of allUsers)]; the turns
    done so far are [created + skipped]. *)
Definition sync_turn (clerkUser : ClerkUser) (counters : Z * Z)
  : M (World line) thrown (Z * Z) :=
  let created := counters.1 in
  let skipped := counters.2 in
  let turn := created + skipped in
  interleave (concurrent (2 * turn)) ;>
  let! existing :=
    query (fun t => take 1 (select_users (user_id clerkUser) t)) in
  if 0 <? len existing then
    emit (ConsoleLog ("  ⏭ User " +:+ user_id clerkUser
                      +:+ " already exists, skipping")) ;>
    ret (created, skipped + 1)
  else
    interleave (concurrent (2 * turn + 1)) ;>
    execute (insert_users (user_id clerkUser)) ;>
    emit (ConsoleLog ("  ✓ Created user " +:+ user_id clerkUser)) ;>
    ret (created + 1, skipped).

(** The loop with its two counters [created] and [skipped]. *)
Definition sync_loop (allUsers : list ClerkUser)
  : M (World line) thrown (Z * Z) :=
  for_of allUsers sync_turn (0, 0).

(** [try { body } catch (err) { handler err } finally { last }], where
    [process.exit] in the handler ends the process before [last]. *)
Definition try_catch_finally {A} (body : M (World line) thrown A)
  (handler : thrown -> M (World line) thrown A)
  (last : M (World line) thrown unit) : M (World line) thrown A :=
  fun w =>
    match try_catch body handler w with
    | (Returned a, w') => (last ;> ret a) w'
    | (Threw (ProcessExit code), w') => (Threw (ProcessExit code), w')
    | (Threw err, w') => (last ;> throw err) w'
    | (OutOfFuel, w') => (OutOfFuel, w')
    end.

(** The block under [try] in [main]. *)
Definition attempt (fuel : nat) : M (World line) thrown unit :=
  emit (ConsoleLog "Fetching users from Clerk...") ;>
  let! allUsers := fetch_loop fuel 0 [] in
  emit (ConsoleLog ("Found " +:+ pretty (len allUsers)
                    +:+ " users in Clerk\n")) ;>
  if len allUsers =? 0 then
    emit (ConsoleLog "No users to sync.")
  else
    let! counters := sync_loop allUsers in
    emit (ConsoleLog "\n=== Sync Complete ===") ;>
    emit (ConsoleLog ("Created: " +:+ pretty counters.1)) ;>
    emit (ConsoleLog ("Skipped: " +:+ pretty counters.2)) ;>
    emit (ConsoleLog ("Total: " +:+ pretty (len allUsers))).

(** [main], with [process.env] as its arguments and [process.exit(code)] as
    the throw of [ProcessExit code]. *)
Definition main (CLERK_SECRET_KEY DATABASE_URL : option string) (fuel : nat)
  : M (World line) thrown unit :=
  emit (ConsoleLog "=== Syncing Clerk Users to Database ===\n") ;>
  if negb (truthy CLERK_SECRET_KEY) then
    emit (ConsoleError "Error: CLERK_SECRET_KEY not configured" None) ;>
    throw (ProcessExit 1)
  else if negb (truthy DATABASE_URL) then
    emit (ConsoleError "Error: DATABASE_URL not configured" None) ;>
    throw (ProcessExit 1)
  else
    try_catch_finally
      (attempt fuel)
      (fun err =>
         emit (ConsoleError "Sync failed:" (Some err)) ;>
         throw (ProcessExit 1))
      (emit PoolEnd).

End WithClerk.

(** The requests for pages among the lines, as [(limit, offset)]. *)
Definition page_requests (h : list line) : list (Z * Z) :=
  omap (fun l => match l with
                 | GetUserList limit offset => Some (limit, offset)
                 | _ => None
                 end) h.

(** A Clerk that holds the users [all] and answers a request with the page
    asked for. *)
Definition paging (all : list ClerkUser) (limit offset : Z)
  : thrown + list ClerkUser :=
  inr (take (Z.to_nat limit) (drop (Z.to_nat offset) all)).

End SyncUsers.

(** ** Sample data for the webhook and the sync script *)

Module Fixtures.

Import Schema ClerkWebhook SyncUsers.

Definition sample_secret : option string := Some "whsec_sample".

(** A [Webhook] that is built for the secrets that start with [whsec_],
    accepts the signature [secret:body] and reads the event off the body. *)
Definition sample_Webhook (secret : string)
  : thrown + (string -> string * string * string -> option WebhookEvent) :=
  if String.prefix "whsec_" secret then
    inr (fun b headers =>
           if String.eqb headers.2 (secret +:+ ":" +:+ b) then
             if String.eqb b "created" then Some (user_created "user_1")
             else if String.eqb b "deleted"
                  then Some (user_deleted (Some "user_1"))
                  else Some (other b)
           else None)
  else inl (Error "Base64Coder: incorrect characters for decoding").

(** Running alone: nobody else writes. *)
Definition alone : Tables -> Tables := fun t => t.

(** Another delivery of the same event: it stores the user [user_1] when
    the table does not hold it. *)
Definition other_delivery (t : Tables) : Tables :=
  match insert_users "user_1" t with
  | inr t' => t'
  | inl _ => t
  end.

(** Another script that stores [user_1] between the select and the insert
    of the first turn of the loop, the statement 1, and is quiet otherwise. *)
Definition racing (k : Z) (t : Tables) : Tables :=
  if k =? 1 then other_delivery t else t.

(** A request with the body [b] under the signature of the sample secret. *)
Definition signed (b : string) : Request :=
  {| svix_id := Some "msg_1";
     svix_timestamp := Some "1700000000";
     svix_signature := Some ("whsec_sample:" +:+ b);
     json := Some b |}.

Definition no_tables : Tables :=
  {| users := [];
     documents_user_id := [];
     exercises_user_id := [];
     responses_user_id := [] |}.

(** One user, who owns a document. *)
Definition owner_tables : Tables :=
  {| users := [{| id := 1; clerkId := "user_1" |}];
     documents_user_id := [1];
     exercises_user_id := [];
     responses_user_id := [] |}.

Definition two_users : list ClerkUser :=
  [{| user_id := "user_1"; createdAt := 1700000000 |};
   {| user_id := "user_2"; createdAt := 1700000001 |}].

End Fixtures.
(** * Properties *)

(** ** Sanitizer *)

Section SanitizerFacts.

Import Sanitizer.

(** *** Trimming *)

Lemma trimStart_suffix (s : jsstring) : exists pre, s = pre ++ trimStart s.
Proof.
  induction s as [|c t [pre IH]]; simpl.
  - by exists [].
  - destruct (is_white_space c).
    + exists (c :: pre). simpl. by f_equal.
    + by exists [].
Qed.

Lemma trimStart_head (s : jsstring) c r :
  trimStart s = c :: r -> is_white_space c = false.
Proof.
  induction s as [|d t IH]; simpl; [done|].
  destruct (is_white_space d) eqn:E; [done|].
  by intros [= <- _].
Qed.

Lemma trimStart_id (s : jsstring) :
  (forall c r, s = c :: r -> is_white_space c = false) -> trimStart s = s.
Proof.
  destruct s as [|c r]; [done|]. intros H. simpl. by rewrite (H c r).
Qed.

Lemma trimEnd_prefix (s : jsstring) : exists post, s = trimEnd s ++ post.
Proof.
  unfold trimEnd. destruct (trimStart_suffix (rev s)) as [pre H].
  exists (rev pre). rewrite <- rev_app_distr, <- H. by rewrite rev_involutive.
Qed.

Lemma trimEnd_last (s front : jsstring) c :
  trimEnd s = front ++ [c] -> is_white_space c = false.
Proof.
  unfold trimEnd. intros H.
  apply (f_equal (@rev Z)) in H.
  rewrite rev_involutive, rev_app_distr in H. simpl in H.
  by apply trimStart_head in H.
Qed.

Lemma trimEnd_id (s : jsstring) :
  (forall front c, s = front ++ [c] -> is_white_space c = false) ->
  trimEnd s = s.
Proof.
  intros H. unfold trimEnd. rewrite trimStart_id; [apply rev_involutive|].
  intros c r E. apply (H (rev r) c).
  rewrite <- (rev_involutive s), E. done.
Qed.

Lemma trim_infix (s : jsstring) : exists a b, s = a ++ trim s ++ b.
Proof.
  unfold trim. destruct (trimStart_suffix s) as [a Ha].
  destruct (trimEnd_prefix (trimStart s)) as [b Hb].
  exists a, b. by rewrite <- Hb.
Qed.

Lemma trim_elem_of (s : jsstring) c : c ∈ trim s -> c ∈ s.
Proof.
  destruct (trim_infix s) as (a & b & E). intros H.
  rewrite E, !elem_of_app. auto.
Qed.

Lemma trim_head (s : jsstring) c r :
  trim s = c :: r -> is_white_space c = false.
Proof.
  unfold trim. intros H.
  destruct (trimEnd_prefix (trimStart s)) as [post E].
  rewrite H in E. simpl in E. by apply trimStart_head in E.
Qed.

Lemma trim_last (s front : jsstring) c :
  trim s = front ++ [c] -> is_white_space c = false.
Proof. apply trimEnd_last. Qed.

(** *** Replacements only delete, or write newlines *)

Lemma remove_all_elem_of class (s : jsstring) c :
  c ∈ remove_all class s <-> class c = false /\ c ∈ s.
Proof. unfold remove_all. by rewrite list_elem_of_filter. Qed.

Lemma remove_all_id class (s : jsstring) :
  (forall c, c ∈ s -> class c = false) -> remove_all class s = s.
Proof.
  unfold remove_all. induction s as [|c t IH]; intros H; [done|].
  rewrite filter_cons_True by (apply H; left).
  f_equal. apply IH. intros d Hd. apply H. by right.
Qed.

Lemma replace_CRLF_elem_of (s : jsstring) c :
  c ∈ replace_CRLF s -> c ∈ s.
Proof.
  remember (length s) as n eqn:Hn.
  assert (length s <= n)%nat as Hle by lia. clear Hn.
  revert s c Hle. induction n as [|n IH]; intros s c Hle.
  { destruct s; [done|simpl in Hle; lia]. }
  destruct s as [|a [|b t]]; simpl in *; [done..|].
  destruct ((a =? CR) && (b =? LF)) eqn:E.
  - apply andb_true_iff in E as [_ Eb%Z.eqb_eq]. subst b.
    rewrite elem_of_cons. intros [->|H].
    + right; left.
    + right; right. apply IH; [lia|done].
  - rewrite elem_of_cons. intros [->|H]; [left|].
    right. apply (IH (b :: t)); [simpl; lia|done].
Qed.

Lemma replace_CRLF_id (s : jsstring) : CR ∉ s -> replace_CRLF s = s.
Proof.
  induction s as [|a t IH]; [done|]. intros H.
  assert (a <> CR) as Ha by (intros ->; apply H; left).
  assert (CR ∉ t) as Ht by (intros ?; apply H; by right).
  specialize (IH Ht).
  destruct t as [|b t']; [done|].
  change (replace_CRLF (a :: b :: t')) with
    (if (a =? CR) && (b =? LF) then LF :: replace_CRLF t'
     else a :: replace_CRLF (b :: t')).
  apply Z.eqb_neq in Ha. rewrite Ha. simpl andb. cbv iota. by rewrite IH.
Qed.

Lemma replace_CR_elem_of (s : jsstring) c :
  c ∈ replace_CR s -> c <> CR /\ (c ∈ s \/ c = LF).
Proof.
  unfold replace_CR. rewrite list_elem_of_fmap. intros (d & -> & Hd).
  destruct (d =? CR) eqn:E.
  - split; [done|]. by right.
  - apply Z.eqb_neq in E. split; [done|]. by left.
Qed.

Lemma replace_CR_id (s : jsstring) : CR ∉ s -> replace_CR s = s.
Proof.
  unfold replace_CR. induction s as [|a t IH]; [done|]. intros H.
  assert (a <> CR) as Ha by (intros ->; apply H; left).
  assert (CR ∉ t) as Ht by (intros ?; apply H; by right).
  simpl. apply Z.eqb_neq in Ha. rewrite Ha. f_equal. by apply IH.
Qed.

Lemma squeeze_elem_of ch keep seen (s : jsstring) c :
  c ∈ squeeze ch keep seen s -> c ∈ s.
Proof.
  revert seen. induction s as [|a t IH]; intros seen; simpl; [done|].
  destruct (a =? ch); [destruct (seen <? keep)%nat|].
  - rewrite !elem_of_cons. intros [->|H]; [by left|right; eauto].
  - rewrite elem_of_cons. intros H. right; eauto.
  - rewrite !elem_of_cons. intros [->|H]; [by left|right; eauto].
Qed.

End SanitizerFacts.

Section SanitizerRuns.

Import Sanitizer SanitizerSpec.

(** *** Runs of one character *)

Lemma squeeze_runs_le ch keep seen (s : jsstring) :
  (seen <= keep)%nat -> runs_le ch keep seen (squeeze ch keep seen s) = true.
Proof.
  revert seen. induction s as [|a t IH]; intros seen Hle; simpl; [done|].
  destruct (a =? ch) eqn:Ea.
  - destruct (seen <? keep)%nat eqn:El.
    + simpl. rewrite Ea, El. simpl. apply IH. apply Nat.ltb_lt in El. lia.
    + by apply IH.
  - simpl. rewrite Ea. apply IH. lia.
Qed.

Lemma runs_le_same ch k seen (t : jsstring) :
  runs_le ch k seen (ch :: t) = (seen <? k)%nat && runs_le ch k (S seen) t.
Proof. simpl. by rewrite Z.eqb_refl. Qed.

Lemma runs_le_replicate ch k seen n (post : jsstring) :
  runs_le ch k seen (replicate (S n) ch ++ post) = true -> (seen + S n <= k)%nat.
Proof.
  revert seen. induction n as [|n IH]; intros seen;
    change (replicate (S ?m) ch ++ post) with (ch :: (replicate m ch ++ post));
    rewrite runs_le_same, andb_true_iff, Nat.ltb_lt.
  - lia.
  - intros [? H]. apply IH in H. lia.
Qed.

Lemma runs_le_sound ch k seen (s : jsstring) :
  runs_le ch k seen s = true ->
  forall pre post, s <> pre ++ replicate (S k) ch ++ post.
Proof.
  intros H pre. revert seen s H.
  induction pre as [|a pre IH]; intros seen s H post ->.
  - apply runs_le_replicate in H. lia.
  - simpl in H. destruct (a =? ch).
    + apply andb_true_iff in H as [_ H]. by eapply IH.
    + by eapply IH.
Qed.

Lemma runs_le_weaken ch k seen seen' (s : jsstring) :
  (seen' <= seen)%nat -> runs_le ch k seen s = true ->
  runs_le ch k seen' s = true.
Proof.
  revert seen seen'. induction s as [|a t IH]; intros seen seen' Hle; simpl;
    [done|].
  destruct (a =? ch); [|done].
  rewrite !andb_true_iff, !Nat.ltb_lt. intros [? H]. split; [lia|].
  apply (IH (S seen)); [lia|done].
Qed.

Lemma runs_le_app_r ch k seen (a m : jsstring) :
  runs_le ch k seen (a ++ m) = true -> runs_le ch k 0 m = true.
Proof.
  revert seen. induction a as [|c a IH]; intros seen; simpl.
  - apply runs_le_weaken. lia.
  - destruct (c =? ch); [|by apply IH].
    rewrite andb_true_iff. intros [_ H]. by eapply IH.
Qed.

Lemma runs_le_app_l ch k seen (m b : jsstring) :
  runs_le ch k seen (m ++ b) = true -> runs_le ch k seen m = true.
Proof.
  revert seen. induction m as [|c m IH]; intros seen; simpl; [done|].
  destruct (c =? ch); [|by apply IH].
  rewrite !andb_true_iff. intros [? H]. split; [done|]. by apply IH.
Qed.

Lemma runs_le_trim ch k (s : jsstring) :
  runs_le ch k 0 s = true -> runs_le ch k 0 (trim s) = true.
Proof.
  destruct (trim_infix s) as (a & b & E). rewrite E at 1. intros H.
  apply runs_le_app_r in H. by apply runs_le_app_l in H.
Qed.

(** Squeezing the runs of [ch] keeps the runs of another character as short
    as they were: what is deleted stands between two copies of [ch]. *)
Lemma squeeze_runs_le_other ch keep seen ch' k seen' (s : jsstring) :
  ch <> ch' -> (0 < keep)%nat -> (0 < seen -> seen' = 0)%nat ->
  runs_le ch' k seen' s = true ->
  runs_le ch' k seen' (squeeze ch keep seen s) = true.
Proof.
  intros Hne Hkeep. revert seen seen'.
  induction s as [|a t IH]; intros seen seen' Hinv; simpl; [done|].
  destruct (a =? ch) eqn:Ea.
  - apply Z.eqb_eq in Ea. subst a.
    assert ((ch =? ch') = false) as E by (by apply Z.eqb_neq).
    rewrite E. intros H.
    destruct (seen <? keep)%nat eqn:El.
    + simpl. rewrite E. apply IH; [lia|done].
    + apply Nat.ltb_ge in El. rewrite Hinv by lia. apply IH; [lia|done].
  - simpl. destruct (a =? ch').
    + rewrite !andb_true_iff. intros [? H]. split; [done|]. apply IH; [lia|done].
    + apply IH. lia.
Qed.

Lemma squeeze_id ch keep seen (s : jsstring) :
  runs_le ch keep seen s = true -> squeeze ch keep seen s = s.
Proof.
  revert seen. induction s as [|a t IH]; intros seen; simpl; [done|].
  destruct (a =? ch).
  - rewrite andb_true_iff. intros [-> H]. f_equal. by apply IH.
  - intros H. f_equal. by apply IH.
Qed.

(** The scanner agrees with the greedy match: a maximal run of [n] copies
    of [ch] is replaced by [min n keep] copies.  For [/ +/g] a run of
    spaces leaves one space; for [/\n{3,}/g] a run of one or two newlines
    is kept and a longer run leaves two. *)
Lemma squeeze_restart ch keep seen (rest : jsstring) :
  head rest <> Some ch ->
  squeeze ch keep seen rest = squeeze ch keep 0 rest.
Proof.
  destruct rest as [|c t]; simpl; [done|]. intros H.
  destruct (Z.eqb_spec c ch) as [->|_]; [done|done].
Qed.

Lemma squeeze_run ch keep seen n (rest : jsstring) :
  head rest <> Some ch ->
  squeeze ch keep seen (replicate n ch ++ rest)
  = replicate (n `min` (keep - seen)) ch ++ squeeze ch keep 0 rest.
Proof.
  intros Hrest. revert seen. induction n as [|n IH]; intros seen.
  - simpl. by apply squeeze_restart.
  - change (replicate (S n) ch ++ rest) with (ch :: (replicate n ch ++ rest)).
    cbn [squeeze]. rewrite Z.eqb_refl.
    destruct (seen <? keep)%nat eqn:E.
    + apply Nat.ltb_lt in E. rewrite IH.
      replace (S n `min` (keep - seen))%nat
        with (S (n `min` (keep - S seen)))%nat by lia.
      done.
    + apply Nat.ltb_ge in E. rewrite IH.
      replace (keep - seen)%nat with 0%nat by lia.
      by rewrite !Nat.min_0_r.
Qed.

End SanitizerRuns.

Section SanitizerTheorems.

Import Sanitizer SanitizerSpec.

Variable normalize : jsstring -> jsstring.

Ltac bool_to_Z H :=
  unfold CONTROL_CHAR, ZERO_WIDTH, BIDI_CONTROL, is_control, in_range in H;
  repeat first
    [ rewrite orb_false_iff in H | rewrite andb_false_iff in H
    | rewrite orb_true_iff in H | rewrite andb_true_iff in H
    | rewrite Z.leb_le in H | rewrite Z.leb_gt in H
    | rewrite Z.eqb_eq in H | rewrite Z.eqb_neq in H ].

(** What the replacement steps leave in the text, in the form the steps
    themselves test it. *)
Lemma sanitizeText_chars (text : jsstring) c :
  c ∈ sanitizeText normalize text ->
  CONTROL_CHAR c = false /\ ZERO_WIDTH c = false /\ BIDI_CONTROL c = false
  /\ c <> CR.
Proof.
  unfold sanitizeText, replace_MULTI_NEWLINE, replace_MULTI_SPACE.
  intros H. apply trim_elem_of in H.
  do 2 apply squeeze_elem_of in H.
  apply replace_CR_elem_of in H as [Hcr [H| ->]]; [|done].
  apply replace_CRLF_elem_of in H.
  apply remove_all_elem_of in H as [Hb H].
  apply remove_all_elem_of in H as [Hz H].
  apply remove_all_elem_of in H as [Hc H].
  done.
Qed.

Lemma sanitizeText_runs (text : jsstring) :
  let out := sanitizeText normalize text in
  runs_le SP 1 0 out = true /\ runs_le LF 2 0 out = true.
Proof.
  unfold sanitizeText, replace_MULTI_NEWLINE, replace_MULTI_SPACE.
  split; apply runs_le_trim.
  - apply squeeze_runs_le_other; [done|lia|lia|].
    apply squeeze_runs_le. lia.
  - apply squeeze_runs_le. lia.
Qed.

(** C3: the sanitized text has no control character but tab and newline, no
    zero-width character and no soft hyphen, no bidirectional override or
    isolate, no carriage return, no two spaces in a row, no three newlines in
    a row, and neither starts nor ends with white space. *)
Theorem sanitizeText_output_clean (text : jsstring) :
  let out := sanitizeText normalize text in
  (forall c, c ∈ out -> is_control c = true -> c = TAB \/ c = LF)
  /\ (forall c, c ∈ out -> c ∉ [0x200B; 0x200C; 0x200D; 0xFEFF; 0x00AD])
  /\ (forall c, c ∈ out ->
        ~ (0x202A <= c <= 0x202E) /\ ~ (0x2066 <= c <= 0x2069))
  /\ (CR ∉ out)
  /\ (forall pre post, out <> pre ++ [SP; SP] ++ post)
  /\ (forall pre post, out <> pre ++ [LF; LF; LF] ++ post)
  /\ (forall c rest, out = c :: rest -> is_white_space c = false)
  /\ (forall front c, out = front ++ [c] -> is_white_space c = false).
Proof.
  intros out. subst out.
  destruct (sanitizeText_runs text) as [Hsp Hlf].
  repeat split.
  - intros c Hc Hctl. apply sanitizeText_chars in Hc as (H1 & _ & _ & H4).
    bool_to_Z H1. bool_to_Z Hctl. unfold TAB, LF, CR in *. lia.
  - intros c Hc. apply sanitizeText_chars in Hc as (_ & H2 & _ & _).
    bool_to_Z H2. rewrite !not_elem_of_cons. repeat split; try lia.
    apply not_elem_of_nil.
  - apply sanitizeText_chars in H as (_ & _ & H3 & _). bool_to_Z H3. lia.
  - apply sanitizeText_chars in H as (_ & _ & H3 & _). bool_to_Z H3. lia.
  - intros Hc. by apply sanitizeText_chars in Hc as (_ & _ & _ & H4).
  - intros pre post. apply (runs_le_sound SP 1 0 _ Hsp pre post).
  - intros pre post. apply (runs_le_sound LF 2 0 _ Hlf pre post).
  - intros c rest. apply trim_head.
  - intros front c. apply trim_last.
Qed.

(** A sanitized text that normalisation leaves alone is a fixed point of
    the sanitizer: every step after the normalisation finds nothing left to
    do. *)
Lemma sanitizeText_fixed_point (text : jsstring) :
  let out := sanitizeText normalize text in
  normalize out = out -> sanitizeText normalize out = out.
Proof.
  intros out Hn.
  destruct (sanitizeText_runs text) as [Hsp Hlf]. fold out in Hsp, Hlf.
  assert (forall c, c ∈ out -> CONTROL_CHAR c = false /\ ZERO_WIDTH c = false
                    /\ BIDI_CONTROL c = false /\ c <> CR) as Hch
    by (intros c; apply sanitizeText_chars).
  assert (CR ∉ out) as Hcr by (intros H; by apply Hch in H as (_ & _ & _ & ?)).
  unfold sanitizeText at 1. rewrite Hn.
  rewrite (remove_all_id CONTROL_CHAR), (remove_all_id ZERO_WIDTH),
    (remove_all_id BIDI_CONTROL)
    by (intros c Hc; by apply Hch in Hc as (? & ? & ? & _)).
  rewrite replace_CRLF_id, replace_CR_id by done.
  unfold replace_MULTI_NEWLINE, replace_MULTI_SPACE.
  rewrite (squeeze_id SP), (squeeze_id LF) by done.
  unfold trim. rewrite trimStart_id.
  - apply trimEnd_id. intros front c. apply trim_last.
  - intros c r. apply trim_head.
Qed.

(** C2: a zero-width space between a letter and a combining accent keeps
    the normalisation of the first pass from composing them; the pass
    deletes the zero-width space, and a second pass composes the pair.
    U+0065 U+200B U+0301 is in normal form, and the normal form of
    U+0065 U+0301 is U+00E9. *)
Theorem sanitizeText_second_pass_differs :
  normalize [0x65; 0x200B; 0x301] = [0x65; 0x200B; 0x301] ->
  normalize [0x65; 0x301] = [0xE9] ->
  let x := [0x65; 0x200B; 0x301] in
  sanitizeText normalize x = [0x65; 0x301]
  /\ sanitizeText normalize (sanitizeText normalize x) = [0xE9]
  /\ sanitizeText normalize (sanitizeText normalize x)
     <> sanitizeText normalize x.
Proof.
  intros H1 H2 x. subst x.
  assert (sanitizeText normalize [0x65; 0x200B; 0x301] = [0x65; 0x301]) as E
    by (unfold sanitizeText; rewrite H1; reflexivity).
  assert (sanitizeText normalize [0x65; 0x301] = [0xE9]) as E'
    by (unfold sanitizeText; rewrite H2; reflexivity).
  rewrite E, E'. by repeat split.
Qed.


End SanitizerTheorems.

(** ** TokenCounter *)

Section TokenCounterTheorems.

Import TokenCounter.

(** [Math.ceil(a / b)] is the least integer [k] with [a <= k * b]. *)
Lemma Math_ceil_div_spec (a : Z) (b : positive) :
  let k := Math_ceil_div a b in
  a <= k * Z.pos b < a + Z.pos b.
Proof.
  unfold Math_ceil_div, Qceiling, Qfloor, Qdiv, Qmult, Qinv, Qopp, inject_Z.
  simpl. rewrite Z.mul_1_r, Pos.mul_1_l.
  pose proof (Z.div_mod (- a) (Z.pos b) ltac:(lia)) as E.
  pose proof (Z.mod_pos_bound (- a) (Z.pos b) ltac:(lia)) as B.
  lia.
Qed.

Lemma Math_ceil_div_0 (b : positive) : Math_ceil_div 0 b = 0.
Proof.
  pose proof (Math_ceil_div_spec 0 b) as H. simpl in H. nia.
Qed.

Lemma slice_0_prefix {A} (s : list A) (e : Z) : slice s 0 e `prefix_of` s.
Proof.
  unfold slice. simpl. replace (relative_index (len s) 0) with 0.
  - simpl. rewrite drop_0. apply prefix_take.
  - unfold relative_index, len. simpl. lia.
Qed.


(** C8: without a tokenizer, [countTokens] and [countTokensEstimate] both
    give the length divided by four and rounded up, and 0 for the empty
    string.  Once the import has failed the fallback stays, whatever a
    later import would give. *)
Theorem countTokens_fallback_estimate
  (importTokenizer : option Tokenizer) (text : jsstring) :
  let k := countTokensEstimate text in
  len text <= 4 * k < len text + 4
  /\ countTokens None text None = (k, Some None)
  /\ countTokens importTokenizer text (Some None) = (k, Some None)
  /\ countTokensEstimate [] = 0
  /\ countTokens None [] None = (0, Some None)
  /\ countTokens importTokenizer [] (Some None) = (0, Some None).
Proof.
  intros k. subst k. unfold countTokensEstimate, countTokens. simpl.
  pose proof (Math_ceil_div_spec (len text) CHARS_PER_TOKEN) as H.
  simpl in H. unfold CHARS_PER_TOKEN in *.
  change (len (@nil Z)) with 0. rewrite Math_ceil_div_0.
  repeat split; lia.
Qed.


(** Two parts of the above need no assumption: whatever the limit and the
    tokenizer, a text within the limit comes back unchanged, and without a
    tokenizer the result is a prefix of the text and the empty string comes
    back empty. *)
Lemma truncateToTokenLimit_any_limit
  (importTokenizer : option Tokenizer) (st : TokenizerPromise)
  (text : jsstring) (maxTokens : Z) :
  let truncate t := (truncateToTokenLimit importTokenizer t maxTokens st).1 in
  ((countTokens importTokenizer text st).1 <= maxTokens ->
   truncate text = text)
  /\ ((getTokenizer importTokenizer st).1 = None ->
      truncate text `prefix_of` text /\ truncate [] = []).
Proof.
  unfold truncateToTokenLimit, countTokens. simpl.
  destruct (getTokenizer importTokenizer st) as [[tok|] st'] eqn:G; simpl.
  - split; [|done]. intros H. apply Z.leb_le in H. by rewrite H.
  - pose proof (Math_ceil_div_spec (len text) CHARS_PER_TOKEN) as Hk.
    unfold CHARS_PER_TOKEN in *. simpl in Hk.
    split; [|intros _; split].
    + intros H. destruct (len text <=? maxTokens * 4) eqn:E; [done|].
      apply Z.leb_gt in E. lia.
    + destruct (len text <=? maxTokens * 4); simpl; [done|].
      apply slice_0_prefix.
    + destruct (len (@nil Z) <=? maxTokens * 4); simpl; [done|].
      by apply prefix_nil_inv, slice_0_prefix.
Qed.

End TokenCounterTheorems.

(** ** Mistral: the single request *)

Section MistralTheorems.

Import Mistral EmbeddingBatcher.

Context {vector : Type}.

Lemma provider_calls_app (h1 h2 : list event) :
  provider_calls (h1 ++ h2) = provider_calls h1 ++ provider_calls h2.
Proof. unfold provider_calls. apply omap_app. Qed.

(** With a client and 1 to 16 texts the request is sent; whatever the
    provider answers, the events of the call are the request and, for a
    validation error, one line of the error log. *)
Lemma createEmbeddings_sends (client : Client vector) (texts : list jsstring)
  (h : list event) :
  1 <= len texts <= MAX_BATCH_SIZE ->
  exists logged,
    (createEmbeddings (Some client) texts h).2
    = h ++ EmbeddingsCreate MISTRAL_EMBED_MODEL texts :: logged
    /\ provider_calls logged = [].
Proof.
  unfold MAX_BATCH_SIZE. intros Hlen. unfold createEmbeddings, MAX_BATCH_SIZE.
  destruct (16 <? len texts) eqn:E1; [apply Z.ltb_lt in E1; lia|].
  destruct (len texts =? 0) eqn:E2; [apply Z.eqb_eq in E2; lia|].
  unfold try_catch, bind, call_embeddings_create, ret, throw, emit.
  destruct (embeddings_create client h MISTRAL_EMBED_MODEL texts)
    as [[msg|msg|msg|msg]|response]; simpl;
    rewrite <- ?app_assoc; simpl; eauto.
Qed.

Lemma createEmbeddings_answering (embed : list jsstring -> list vector)
  (texts : list jsstring) (h : list event) :
  1 <= len texts <= MAX_BATCH_SIZE ->
  createEmbeddings (Some (answering embed)) texts h
  = (Returned {| embeddings := embed texts;
                 usage := {| promptTokens := 0; totalTokens := 0 |} |},
     h ++ [EmbeddingsCreate MISTRAL_EMBED_MODEL texts]).
Proof.
  unfold MAX_BATCH_SIZE. intros Hlen. unfold createEmbeddings, MAX_BATCH_SIZE.
  destruct (16 <? len texts) eqn:E1; [apply Z.ltb_lt in E1; lia|].
  destruct (len texts =? 0) eqn:E2; [apply Z.eqb_eq in E2; lia|].
  reflexivity.
Qed.

(** C5, as the code has it: more than 16 texts, no text, or no client make
    the call throw before anything is sent; with a client, 1 to 16 texts
    are sent to the provider, once. *)
Theorem createEmbeddings_guards (mistral : option (Client vector))
  (texts : list jsstring) (h : list event) :
  let r := createEmbeddings mistral texts h in
  (MAX_BATCH_SIZE < len texts \/ texts = [] -> exists e, r = (Threw e, h))
  /\ (mistral = None -> exists e, r = (Threw e, h))
  /\ (forall client, mistral = Some client ->
      1 <= len texts <= MAX_BATCH_SIZE ->
      provider_calls r.2 = provider_calls h ++ [texts]).
Proof.
  intros r. subst r. repeat split.
  - unfold createEmbeddings, throw. destruct mistral as [client|]; [|eauto].
    intros [H| ->].
    + apply Z.ltb_lt in H. rewrite H. eauto.
    + simpl. eauto.
  - intros ->. unfold createEmbeddings, throw. eauto.
  - intros client -> Hlen.
    destruct (createEmbeddings_sends client texts h Hlen) as (logged & -> & Hl).
    rewrite provider_calls_app. simpl. by rewrite Hl.
Qed.

(** C10: on the empty list the batched call returns the empty list and
    does nothing, while the single call throws. *)
Theorem createEmbeddingsBatched_empty (mistral : option (Client vector))
  (onProgress : bool) (h : list event) :
  createEmbeddingsBatched mistral [] onProgress h = (Returned [], h)
  /\ createEmbeddings mistral [] h
     = (Threw (Error (match mistral with
                      | Some _ => "At least one text is required"
                      | None => "Mistral client not initialized. Check MISTRAL_API_KEY."
                      end)), h).
Proof.
  split; [reflexivity|]. unfold createEmbeddings. by destruct mistral.
Qed.

End MistralTheorems.

(** ** Mistral: the batched call *)

Section BatchedTheorems.

Import Mistral EmbeddingBatcher.

Context {vector : Type}.

(** *** The partition *)

Lemma pieces_nil {A} (fuel size : nat) : pieces fuel size (@nil A) = [].
Proof. by destruct fuel. Qed.

Lemma pieces_cons {A} (fuel size : nat) (l : list A) :
  l <> [] ->
  pieces (S fuel) size l = take size l :: pieces fuel size (drop size l).
Proof. by destruct l. Qed.

Lemma pieces_concat {A} (fuel size : nat) (l : list A) :
  (0 < size)%nat -> (length l <= fuel)%nat -> concat (pieces fuel size l) = l.
Proof.
  intros Hsize. revert l. induction fuel as [|fuel IH]; intros l Hlen.
  - destruct l; [done|simpl in Hlen; lia].
  - destruct l as [|a l]; [done|].
    rewrite pieces_cons by done. simpl concat.
    rewrite IH; [apply take_drop|].
    rewrite length_drop. simpl in *. lia.
Qed.

Lemma pieces_sizes {A} (fuel size : nat) (l : list A) :
  (0 < size)%nat ->
  Forall (fun b => 0 < length b <= size)%nat (pieces fuel size l).
Proof.
  intros Hsize. revert l. induction fuel as [|fuel IH]; intros l; [done|].
  destruct l as [|a l]; [done|].
  rewrite pieces_cons by done. constructor; [|apply IH].
  rewrite length_take. simpl. lia.
Qed.

(** Every batch that is followed by another one is full. *)
Lemma pieces_full {A} (fuel size : nat) (l : list A) (j : nat) (b b' : list A) :
  pieces fuel size l !! j = Some b ->
  pieces fuel size l !! S j = Some b' ->
  length b = size.
Proof.
  revert l j. induction fuel as [|fuel IH]; intros l j; [done|].
  destruct l as [|a l]; [done|].
  rewrite pieces_cons by done.
  destruct j as [|j]; simpl.
  - intros [= <-] H.
    destruct (decide (length (a :: l) <= size)%nat) as [Hle|Hgt].
    + rewrite (drop_ge (a :: l)) in H by done.
      by rewrite pieces_nil in H.
    + rewrite length_take. lia.
  - apply IH.
Qed.

Lemma pieces_rest_nil {A} (fuel size : nat) (l : list A) :
  (length l <= size)%nat -> pieces fuel size (drop size l) = [].
Proof. intros H. rewrite drop_ge by done. apply pieces_nil. Qed.

Lemma pieces_rest_cons {A} (fuel size : nat) (l : list A) :
  (size < length l)%nat -> (length l <= S fuel)%nat -> (0 < size)%nat ->
  exists b rest, pieces fuel size (drop size l) = b :: rest.
Proof.
  intros H Hf Hs.
  destruct fuel as [|fuel]; [lia|].
  destruct (drop size l) as [|a d] eqn:E.
  - apply (f_equal length) in E. rewrite length_drop in E. simpl in E. lia.
  - rewrite pieces_cons by done. eauto.
Qed.

(** *** Laws of the computations *)

Lemma bind_assoc {A B C} (m : M A) (k : A -> M B) (g : B -> M C) h :
  bind (bind m k) g h = bind m (fun x => bind (k x) g) h.
Proof. unfold bind. by destruct (m h) as [[a| |] h']. Qed.

Lemma bind_ext {A B} (m : M A) (k1 k2 : A -> M B) h :
  (forall a h', k1 a h' = k2 a h') -> bind m k1 h = bind m k2 h.
Proof. intros H. unfold bind. destruct (m h) as [[a| |] h']; auto. Qed.

Lemma bind_ret_l {A B} (a : A) (k : A -> M B) h : bind (ret a) k h = k a h.
Proof. done. Qed.

(** *** The loop *)

Variable mistral : option (Client vector).
Variable texts : list jsstring.
Variable onProgress : bool.

Lemma slice_batch (i : Z) :
  0 <= i ->
  slice texts i (i + MAX_BATCH_SIZE)
  = take (Z.to_nat MAX_BATCH_SIZE) (drop (Z.to_nat i) texts).
Proof.
  intros Hi. unfold slice, relative_index, MAX_BATCH_SIZE, len.
  destruct (i <? 0) eqn:E1; [apply Z.ltb_lt in E1; lia|].
  destruct (i + 16 <? 0) eqn:E2; [apply Z.ltb_lt in E2; lia|].
  destruct (decide (i <= Z.of_nat (length texts))) as [Hle|Hgt].
  - rewrite (Z.min_l i) by done.
    destruct (decide (i + 16 <= Z.of_nat (length texts))).
    + rewrite Z.min_l by done. f_equal. lia.
    + rewrite Z.min_r by lia.
      rewrite !take_ge; [done|rewrite length_drop; lia..].
  - rewrite !Z.min_r by lia. rewrite !drop_ge by lia. by rewrite !take_nil.
Qed.

(** The loop from index [i] does what [embedAll] does on the batches of the
    texts from [i] on, and adds the vectors to those it already has. *)
Lemma loop_refines (fuel : nat) :
  forall (i : Z) (acc : list vector) (h : list event),
    0 <= i ->
    (length (drop (Z.to_nat i) texts) <= fuel)%nat ->
    createEmbeddingsBatched_loop mistral texts onProgress fuel i acc h
    = (let* vectors := embedAll mistral onProgress (len texts) i
                         (pieces fuel (Z.to_nat MAX_BATCH_SIZE)
                            (drop (Z.to_nat i) texts)) in
       ret (acc ++ vectors)) h.
Proof.
  induction fuel as [|fuel IH]; intros i acc h Hi Hfuel.
  - rewrite length_drop in Hfuel.
    assert ((i <? len texts) = false) as E
      by (apply Z.ltb_ge; unfold len; lia).
    simpl. rewrite E. unfold bind, ret. by rewrite app_nil_r.
  - destruct (drop (Z.to_nat i) texts) as [|a r] eqn:Er.
    { apply (f_equal length) in Er. rewrite length_drop in Er. simpl in Er.
      assert ((i <? len texts) = false) as E
        by (apply Z.ltb_ge; unfold len; lia).
      simpl. rewrite E. unfold bind, ret. by rewrite app_nil_r. }
    assert (Z.of_nat (length (a :: r)) = len texts - i) as Hr.
    { rewrite <- Er, length_drop. unfold len.
      apply (f_equal length) in Er. rewrite length_drop in Er.
      simpl in Er. lia. }
    assert ((i <? len texts) = true) as E
      by (apply Z.ltb_lt; simpl in Hr; lia).
    rewrite pieces_cons by done.
    cbn [createEmbeddingsBatched_loop embedAll]. rewrite E.
    rewrite slice_batch, Er by done.
    rewrite bind_assoc. apply bind_ext. intros result h1.
    assert (len (take (Z.to_nat MAX_BATCH_SIZE) (a :: r))
            = Z.min MAX_BATCH_SIZE (len texts - i)) as Hb.
    { unfold len in *. rewrite length_take.
      change (Z.to_nat MAX_BATCH_SIZE) with 16%nat. unfold MAX_BATCH_SIZE.
      lia. }
    assert (Z.min (i + MAX_BATCH_SIZE) (len texts)
            = i + len (take (Z.to_nat MAX_BATCH_SIZE) (a :: r))) as Hc
      by (rewrite Hb; lia).
    rewrite Hc. fold (report_progress onProgress
      (i + len (take (Z.to_nat MAX_BATCH_SIZE) (a :: r))) (len texts)).
    rewrite bind_assoc. apply bind_ext. intros _ h2.
    rewrite bind_assoc.
    assert (drop (Z.to_nat (i + MAX_BATCH_SIZE)) texts
            = drop (Z.to_nat MAX_BATCH_SIZE) (a :: r)) as Hd.
    { rewrite <- Er, drop_drop. f_equal. unfold MAX_BATCH_SIZE. lia. }
    destruct (decide (length (a :: r) <= Z.to_nat MAX_BATCH_SIZE)%nat)
      as [Hlast|Hmore].
    + (* the last batch *)
      assert ((i + MAX_BATCH_SIZE <? len texts) = false) as E2
        by (apply Z.ltb_ge; unfold MAX_BATCH_SIZE in *; lia).
      rewrite E2, pieces_rest_nil by done.
      rewrite !bind_ret_l.
      rewrite IH; [|unfold MAX_BATCH_SIZE; lia|].
      * rewrite Hd, pieces_rest_nil by done. simpl.
        unfold bind, ret. by rewrite !app_nil_r.
      * rewrite Hd, drop_ge by done. simpl. lia.
    + (* another batch follows *)
      assert ((i + MAX_BATCH_SIZE <? len texts) = true) as E2
        by (apply Z.ltb_lt; unfold MAX_BATCH_SIZE in *; lia).
      rewrite E2.
      destruct (pieces_rest_cons fuel (Z.to_nat MAX_BATCH_SIZE) (a :: r))
        as (b & rest & Hp); [lia|done|unfold MAX_BATCH_SIZE; lia|].
      rewrite Hp. fold inter_batch_delay.
      apply bind_ext. intros _ h3.
      rewrite IH; [|unfold MAX_BATCH_SIZE; lia|].
      * rewrite Hd, Hp.
        assert (i + len (take (Z.to_nat MAX_BATCH_SIZE) (a :: r))
                = i + MAX_BATCH_SIZE) as ->
          by (rewrite Hb; unfold MAX_BATCH_SIZE in *; lia).
        rewrite bind_assoc. apply bind_ext. intros vs h4.
        rewrite bind_ret_l. unfold ret. by rewrite app_assoc.
      * rewrite Hd, length_drop. unfold MAX_BATCH_SIZE. lia.
Qed.

(** When every request is answered, [embedAll] returns the vectors of the
    batches in order and leaves the events [batched_events] lists. *)
Lemma embedAll_answering (embed : list jsstring -> list vector)
  (total : Z) (bs : list (list jsstring)) :
  Forall (fun b => 1 <= len b <= MAX_BATCH_SIZE) bs ->
  forall (completed : Z) (h : list event),
    embedAll (Some (answering embed)) onProgress total completed bs h
    = (Returned (concat (map embed bs)),
       h ++ batched_events onProgress total completed bs).
Proof.
  induction 1 as [|b rest Hb Hrest IH]; intros completed h.
  - simpl. unfold ret. by rewrite app_nil_r.
  - cbn [embedAll batched_events map concat].
    unfold bind at 1. rewrite createEmbeddings_answering by done.
    unfold bind at 1, report_progress.
    replace ((if onProgress
              then emit (OnProgress (completed + len b) total)
              else ret ()) (h ++ [EmbeddingsCreate MISTRAL_EMBED_MODEL b]))
      with (Returned (),
            h ++ [EmbeddingsCreate MISTRAL_EMBED_MODEL b]
              ++ (if onProgress
                  then [OnProgress (completed + len b) total] else []))
      by (destruct onProgress; unfold emit, ret;
          by rewrite <- ?app_assoc, ?app_nil_r).
    unfold bind at 1.
    destruct rest as [|b' rest'].
    + simpl. unfold ret, bind. by rewrite !app_nil_r.
    + unfold ret at 1, inter_batch_delay, bind at 1 2, emit.
      rewrite IH. simpl embeddings. unfold ret.
      f_equal. rewrite <- !app_assoc. done.
Qed.

End BatchedTheorems.

Section BatchedSpec.

Import Mistral EmbeddingBatcher.

Context {vector : Type}.

Lemma createEmbeddingsBatched_refines (mistral : option (Client vector))
  (texts : list jsstring) (onProgress : bool) (h : list event) :
  createEmbeddingsBatched mistral texts onProgress h
  = embedAll mistral onProgress (len texts) 0 (batches texts) h.
Proof.
  unfold createEmbeddingsBatched, batches.
  rewrite loop_refines; [|lia|by rewrite drop_0].
  simpl. rewrite drop_0. unfold bind.
  by destruct (embedAll mistral onProgress (len texts) 0 _ h)
    as [[vs| |] h'].
Qed.

Lemma batches_sizes (texts : list jsstring) :
  Forall (fun b => 1 <= len b <= MAX_BATCH_SIZE) (batches texts).
Proof.
  eapply Forall_impl;
    [apply (pieces_sizes _ (Z.to_nat MAX_BATCH_SIZE));
     unfold MAX_BATCH_SIZE; lia|].
  intros b Hb. unfold len, MAX_BATCH_SIZE in *. simpl in Hb. lia.
Qed.


Lemma createEmbeddings_halts (mistral : option (Client vector))
  (texts : list jsstring) (h : list event) :
  (createEmbeddings mistral texts h).1 <> OutOfFuel.
Proof.
  unfold createEmbeddings. destruct mistral as [client|]; [|done].
  destruct (MAX_BATCH_SIZE <? len texts); [done|].
  destruct (len texts =? 0); [done|].
  unfold try_catch, bind, call_embeddings_create, ret, throw, emit.
  by destruct (embeddings_create client h MISTRAL_EMBED_MODEL texts)
    as [[msg|msg|msg|msg]|response].
Qed.

Lemma bind_halts {A B} (m : M A) (k : A -> M B) (h : list event) :
  (forall h', (m h').1 <> OutOfFuel) ->
  (forall a h', (k a h').1 <> OutOfFuel) ->
  (bind m k h).1 <> OutOfFuel.
Proof.
  intros Hm Hk. unfold bind. specialize (Hm h).
  destruct (m h) as [[a| |] h']; [apply Hk|done..].
Qed.

Lemma embedAll_halts (mistral : option (Client vector)) (onProgress : bool)
  (total : Z) (bs : list (list jsstring)) :
  forall (completed : Z) (h : list event),
    (embedAll mistral onProgress total completed bs h).1 <> OutOfFuel.
Proof.
  induction bs as [|b rest IH]; intros completed h; [done|].
  cbn [embedAll].
  apply bind_halts; [apply createEmbeddings_halts|]. intros result h1.
  apply bind_halts; [by destruct onProgress|]. intros _ h2.
  apply bind_halts; [by destruct rest|]. intros _ h3.
  apply bind_halts; [apply IH|done].
Qed.

(** C6: the texts are cut in order into batches of at most 16, all full but
    possibly the last; the batched call embeds the batches one after the
    other, reports the cumulative count after each, pauses only when
    another batch follows, and returns the vectors in the order of the
    texts; the bound on the iterations of the loop is never reached. *)
Theorem createEmbeddingsBatched_spec (mistral : option (Client vector))
  (texts : list jsstring) (onProgress : bool) (h : list event) :
  let bs := batches texts in
  concat bs = texts
  /\ Forall (fun b => 1 <= len b <= MAX_BATCH_SIZE) bs
  /\ (forall j b b', bs !! j = Some b -> bs !! S j = Some b' ->
        len b = MAX_BATCH_SIZE)
  /\ createEmbeddingsBatched mistral texts onProgress h
     = embedAll mistral onProgress (len texts) 0 bs h
  /\ (createEmbeddingsBatched mistral texts onProgress h).1 <> OutOfFuel
  /\ (forall embed : list jsstring -> list vector,
        createEmbeddingsBatched (Some (answering embed)) texts onProgress h
        = (Returned (concat (map embed bs)),
           h ++ batched_events onProgress (len texts) 0 bs)).
Proof.
  intros bs. subst bs.
  split; [apply pieces_concat; [unfold MAX_BATCH_SIZE; lia|done]|].
  split; [apply batches_sizes|].
  split.
  { intros j b b' Hj Hj'. unfold len.
    rewrite (pieces_full _ _ _ _ _ _ Hj Hj'). unfold MAX_BATCH_SIZE. lia. }
  split; [apply createEmbeddingsBatched_refines|].
  split; [rewrite createEmbeddingsBatched_refines; apply embedAll_halts|].
  intros embed. rewrite createEmbeddingsBatched_refines.
  apply embedAll_answering, batches_sizes.
Qed.

End BatchedSpec.

(** ** Upload validation and secure fetch *)

Section ValidationTheorems.

Import Validation SecureFetcher.

Lemma startsWith_app (s p : jsstring) :
  startsWith s p = true -> exists rest, s = p ++ rest.
Proof.
  revert s. induction p as [|a p IH]; intros s; simpl.
  - by exists s.
  - destruct s as [|b s]; simpl; [done|].
    rewrite andb_true_iff, Z.eqb_eq. intros [-> H].
    destruct (IH s H) as [rest ->]. by exists rest.
Qed.

(** What the schema lets through has the scheme [https], once trimmed as
    the [.url()] check trims it. *)
Lemma UrlUploadSchema_https zod_url (x : Submission) :
  UrlUploadSchema zod_url x = true ->
  scheme_of (checked_url x) = Some (lit "https").
Proof.
  unfold UrlUploadSchema. rewrite !andb_true_iff.
  intros [[[_ _] H] _]. apply startsWith_app in H as [rest ->].
  reflexivity.
Qed.

(** An address between the first and the last address of a block is in
    the block. *)
Lemma in_cidr_bounds (width base prefix a : Z) :
  0 <= prefix <= width ->
  Z.shiftr base (width - prefix) * 2 ^ (width - prefix) <= a
  < (Z.shiftr base (width - prefix) + 1) * 2 ^ (width - prefix) ->
  in_cidr width base prefix a = true.
Proof.
  intros Hp Ha. unfold in_cidr. apply Z.eqb_eq.
  rewrite (Z.shiftr_div_pow2 a) by lia.
  assert (0 < 2 ^ (width - prefix)) by (apply Z.pow_pos_nonneg; lia).
  symmetry. apply Z.div_unique with (r := a - Z.shiftr base (width - prefix)
                                              * 2 ^ (width - prefix)); lia.
Qed.

Lemma is_blocked_v4_block (base prefix a : Z) :
  In (base, prefix) blocked_v4 ->
  in_cidr 32 base prefix a = true ->
  is_blocked_v4 a = true.
Proof.
  intros Hin Ha. unfold is_blocked_v4. apply orb_true_iff. right.
  apply existsb_exists. by exists (base, prefix).
Qed.

Lemma is_blocked_v6_block (base prefix a : Z) :
  In (base, prefix) blocked_v6 ->
  in_cidr 128 base prefix a = true ->
  is_blocked (IPv6 a) = true.
Proof.
  intros Hin Ha. unfold is_blocked. apply orb_true_iff. left.
  apply existsb_exists. by exists (base, prefix).
Qed.

(** An address that is blocked is blocked in its IPv4-mapped form
    [::ffff:a.b.c.d] as well. *)
Lemma is_blocked_mapped (a : Z) :
  0 <= a < 2 ^ 32 ->
  is_blocked_v4 a = true ->
  is_blocked (IPv6 (0xFFFF00000000 + a)) = true.
Proof.
  intros Ha Hb. unfold is_blocked. apply orb_true_iff. right.
  apply existsb_exists. exists a. split; [|done].
  unfold embedded_v4, embedding_v6.
  assert (in_cidr 128 0x00000000000000000000FFFF00000000 96
            (0xFFFF00000000 + a) = true) as Hin.
  { apply in_cidr_bounds; [lia|]. change (128 - 96) with 32.
    change (Z.shiftr 0x00000000000000000000FFFF00000000 32) with 0xFFFF.
    change (2 ^ 32) with 4294967296 in *. lia. }
  assert (Z.land (Z.shiftr (0xFFFF00000000 + a) 0) 0xFFFFFFFF = a) as Hland.
  { rewrite Z.shiftr_0_r. change 0xFFFFFFFF with (Z.ones 32).
    rewrite Z.land_ones by lia.
    change 0xFFFF00000000 with (0xFFFF * 2 ^ 32).
    rewrite Z.add_comm, Z.mod_add by lia. apply Z.mod_small. lia. }
  cbn [omap list_omap fst snd]. rewrite Hin, Hland. by left.
Qed.

Lemma existsb_Exists {A} (f : A -> bool) (l : list A) :
  existsb f l = true <-> Exists (fun a => f a = true) l.
Proof.
  rewrite existsb_exists, Exists_exists.
  split; intros (a & H1 & H2); exists a.
  - by rewrite list_elem_of_In.
  - by rewrite <- list_elem_of_In.
Qed.

(** A target that is not disallowed is fetched: the guard does not block
    everything. *)
Lemma fetchText_allowed parse resolve fetch_and_extract (u : jsstring) p :
  parse u = Some p -> ~ disallowed_target resolve p ->
  HttpGet u ∈ (fetchText parse resolve fetch_and_extract u).2.
Proof.
  intros Hp Hok. unfold fetchText. rewrite Hp.
  destruct (bool_decide (protocol p = lit "https:")) eqn:Hs; simpl.
  2:{ apply bool_decide_eq_false in Hs. destruct Hok. by left. }
  destruct (resolve (hostname p)) as [addresses|] eqn:Hr.
  2:{ destruct Hok. right. by left. }
  destruct (existsb is_blocked addresses) eqn:Hb.
  { apply existsb_Exists in Hb. destruct Hok. right. right. eauto. }
  destruct (fetch_and_extract u); simpl; rewrite !elem_of_cons; auto.
Qed.

(** A URL that does not parse is refused as invalid, without any call. *)
Lemma fetchText_unparsable parse resolve fetch_and_extract (u : jsstring) :
  parse u = None ->
  fetchText parse resolve fetch_and_extract u = (inl InvalidUrl, []).
Proof. intros H. unfold fetchText. by rewrite H. Qed.

(** The first and the last address of each range of section 4.3, step 3,
    among the 32-bit addresses. *)
Local Abbreviation ranges_v4 :=
  [ (0x0A000000, 0x0AFFFFFF);   (* 10.0.0.0 to 10.255.255.255, private *)
    (0x64400000, 0x647FFFFF);   (* 100.64.0.0 to 100.127.255.255, private *)
    (0xAC100000, 0xAC1FFFFF);   (* 172.16.0.0 to 172.31.255.255, private *)
    (0xC0A80000, 0xC0A8FFFF);   (* 192.168.0.0 to 192.168.255.255, private *)
    (0x7F000000, 0x7FFFFFFF);   (* 127.0.0.0 to 127.255.255.255, loopback *)
    (0xA9FE0000, 0xA9FEFFFF);   (* 169.254.0.0 to 169.254.255.255, link-local *)
    (0xE0000000, 0xEFFFFFFF);   (* 224.0.0.0 to 239.255.255.255, multicast *)
    (0x00000000, 0x00FFFFFF);   (* 0.0.0.0 to 0.255.255.255, reserved *)
    (0xC0000000, 0xC00000FF);   (* 192.0.0.0 to 192.0.0.255, reserved *)
    (0xC0000200, 0xC00002FF);   (* 192.0.2.0 to 192.0.2.255, reserved *)
    (0xC0586300, 0xC05863FF);   (* 192.88.99.0 to 192.88.99.255, reserved *)
    (0xC6120000, 0xC613FFFF);   (* 198.18.0.0 to 198.19.255.255, reserved *)
    (0xC6336400, 0xC63364FF);   (* 198.51.100.0 to 198.51.100.255, reserved *)
    (0xCB007100, 0xCB0071FF);   (* 203.0.113.0 to 203.0.113.255, reserved *)
    (0xF0000000, 0xFFFFFFFF) ].   (* 240.0.0.0 to 255.255.255.255, reserved *)

(** The same among the 128-bit addresses. *)
Local Abbreviation ranges_v6 :=
  [ (0x00000000000000000000000000000000,
     0x000000000000000000000000FFFFFFFF);   (* ::/96, with :: and ::1 *)
    (0xFE800000000000000000000000000000,
     0xFEBFFFFFFFFFFFFFFFFFFFFFFFFFFFFF);   (* fe80::/10, link-local *)
    (0xFC000000000000000000000000000000,
     0xFDFFFFFFFFFFFFFFFFFFFFFFFFFFFFFF);   (* fc00::/7, unique-local *)
    (0xFF000000000000000000000000000000,
     0xFFFFFFFFFFFFFFFFFFFFFFFFFFFFFFFF);   (* ff00::/8, multicast *)
    (0x20010000000000000000000000000000,
     0x200101FFFFFFFFFFFFFFFFFFFFFFFFFF);   (* 2001::/23, reserved *)
    (0x20010DB8000000000000000000000000,
     0x20010DB8FFFFFFFFFFFFFFFFFFFFFFFF) ].   (* 2001:db8::/32, reserved *)

Lemma is_blocked_ranges_v4 :
  Forall (fun range : Z * Z =>
            forall a, range.1 <= a <= range.2 -> is_blocked_v4 a = true)
    ranges_v4.
Proof.
  assert (forall base prefix lo hi a,
             In (base, prefix) blocked_v4 ->
             0 <= prefix <= 32 ->
             lo = Z.shiftr base (32 - prefix) * 2 ^ (32 - prefix) ->
             hi = (Z.shiftr base (32 - prefix) + 1) * 2 ^ (32 - prefix) - 1 ->
             lo <= a <= hi -> is_blocked_v4 a = true) as Hblock.
  { intros base prefix lo hi a Hin Hp -> -> Ha.
    apply (is_blocked_v4_block base prefix); [done|].
    apply in_cidr_bounds; lia. }
  repeat constructor; cbn [fst snd]; intros a Ha.
  - eapply (Hblock 0x0A000000 8); [simpl; tauto|lia| | |exact Ha];
      by vm_compute.
  - eapply (Hblock 0x64400000 10); [simpl; tauto|lia| | |exact Ha];
      by vm_compute.
  - eapply (Hblock 0xAC100000 12); [simpl; tauto|lia| | |exact Ha];
      by vm_compute.
  - eapply (Hblock 0xC0A80000 16); [simpl; tauto|lia| | |exact Ha];
      by vm_compute.
  - eapply (Hblock 0x7F000000 8); [simpl; tauto|lia| | |exact Ha];
      by vm_compute.
  - eapply (Hblock 0xA9FE0000 16); [simpl; tauto|lia| | |exact Ha];
      by vm_compute.
  - eapply (Hblock 0xE0000000 4); [simpl; tauto|lia| | |exact Ha];
      by vm_compute.
  - eapply (Hblock 0x00000000 8); [simpl; tauto|lia| | |exact Ha];
      by vm_compute.
  - eapply (Hblock 0xC0000000 24); [simpl; tauto|lia| | |exact Ha];
      by vm_compute.
  - eapply (Hblock 0xC0000200 24); [simpl; tauto|lia| | |exact Ha];
      by vm_compute.
  - eapply (Hblock 0xC0586300 24); [simpl; tauto|lia| | |exact Ha];
      by vm_compute.
  - eapply (Hblock 0xC6120000 15); [simpl; tauto|lia| | |exact Ha];
      by vm_compute.
  - eapply (Hblock 0xC6336400 24); [simpl; tauto|lia| | |exact Ha];
      by vm_compute.
  - eapply (Hblock 0xCB007100 24); [simpl; tauto|lia| | |exact Ha];
      by vm_compute.
  - eapply (Hblock 0xF0000000 4); [simpl; tauto|lia| | |exact Ha];
      by vm_compute.
Qed.

Lemma is_blocked_ranges_v6 :
  Forall (fun range : Z * Z =>
            forall a, range.1 <= a <= range.2 -> is_blocked (IPv6 a) = true)
    ranges_v6.
Proof.
  assert (forall base prefix lo hi a,
             In (base, prefix) blocked_v6 ->
             0 <= prefix <= 128 ->
             lo = Z.shiftr base (128 - prefix) * 2 ^ (128 - prefix) ->
             hi = (Z.shiftr base (128 - prefix) + 1) * 2 ^ (128 - prefix) - 1 ->
             lo <= a <= hi -> is_blocked (IPv6 a) = true) as Hblock.
  { intros base prefix lo hi a Hin Hp -> -> Ha.
    apply (is_blocked_v6_block base prefix); [done|].
    apply in_cidr_bounds; lia. }
  repeat constructor; cbn [fst snd]; intros a Ha.
  - eapply (Hblock 0x00000000000000000000000000000000 96);
      [simpl; tauto|lia| | |exact Ha]; by vm_compute.
  - eapply (Hblock 0xFE800000000000000000000000000000 10);
      [simpl; tauto|lia| | |exact Ha]; by vm_compute.
  - eapply (Hblock 0xFC000000000000000000000000000000 7);
      [simpl; tauto|lia| | |exact Ha]; by vm_compute.
  - eapply (Hblock 0xFF000000000000000000000000000000 8);
      [simpl; tauto|lia| | |exact Ha]; by vm_compute.
  - eapply (Hblock 0x20010000000000000000000000000000 23);
      [simpl; tauto|lia| | |exact Ha]; by vm_compute.
  - eapply (Hblock 0x20010DB8000000000000000000000000 32);
      [simpl; tauto|lia| | |exact Ha]; by vm_compute.
Qed.

(** C7: a submission whose URL, trimmed as the [.url()] check trims it, has
    another scheme than [https] does not pass the schema, and [fetchText]
    answers [SecurityBlocked] for a disallowed target without any request
    to it.  A target is disallowed in particular when it resolves to the
    metadata address or to an address of a private, loopback, link-local,
    unique-local, multicast or reserved range, also in the IPv4-mapped
    form of a 32-bit address. *)
Theorem non_https_rejected_and_disallowed_blocked :
  (forall zod_url (x : Submission),
      scheme_of (checked_url x) <> Some (lit "https") ->
      UrlUploadSchema zod_url x = false)
  /\ (forall parse resolve fetch_and_extract (u : jsstring) p,
        parse u = Some p ->
        disallowed_target resolve p ->
        let r := fetchText parse resolve fetch_and_extract u in
        r.1 = inl SecurityBlocked
        /\ Forall (fun ev => is_HttpGet ev = false) r.2)
  /\ (forall a : Z,
        a = METADATA_ADDRESS
        \/ Exists (fun range : Z * Z => range.1 <= a <= range.2) ranges_v4 ->
        is_blocked (IPv4 a) = true
        /\ is_blocked (IPv6 (0xFFFF00000000 + a)) = true)
  /\ (forall a : Z,
        Exists (fun range : Z * Z => range.1 <= a <= range.2) ranges_v6 ->
        is_blocked (IPv6 a) = true).
Proof.
  split; [|split; [|split]].
  - intros zod_url x H.
    destruct (UrlUploadSchema zod_url x) eqn:E; [|done].
    by apply UrlUploadSchema_https in E.
  - intros parse resolve fetch_and_extract u p Hp Hbad. unfold fetchText.
    rewrite Hp.
    destruct (bool_decide (protocol p = lit "https:")) eqn:Hs; simpl;
      [|by split].
    apply bool_decide_eq_true in Hs.
    destruct (resolve (hostname p)) as [addresses|] eqn:Hr;
      [|split; [done|by repeat constructor]].
    destruct (existsb is_blocked addresses) eqn:Hb;
      [split; [done|by repeat constructor]|].
    exfalso. destruct Hbad as [H|[H|(addresses' & E & H)]];
      [done|congruence|].
    rewrite Hr in E. injection E as <-.
    apply existsb_Exists in H. congruence.
  - intros a Ha.
    assert (0 <= a < 2 ^ 32 /\ is_blocked_v4 a = true) as [Hrange Hb].
    { destruct Ha as [->|Ha]; [by vm_compute|].
      apply Exists_exists in Ha as (range & Hin & Ha).
      pose proof is_blocked_ranges_v4 as Hall.
      rewrite Forall_forall in Hall. split; [|by apply (Hall range)].
      clear Hall. change (2 ^ 32) with 4294967296.
      repeat (apply elem_of_cons in Hin as [->|Hin];
              [cbn [fst snd] in Ha; lia|]).
      by apply elem_of_nil in Hin. }
    split; [done|by apply is_blocked_mapped].
  - intros a Ha. apply Exists_exists in Ha as (range & Hin & Ha).
    pose proof is_blocked_ranges_v6 as Hall.
    rewrite Forall_forall in Hall. by apply (Hall range).
Qed.

End ValidationTheorems.

(** ** Vector keys *)

Section IngestionTheorems.

Import ContentIngestion.

Context {vector : Type}.

Lemma vectorKey_inj (documentId : string) : Inj (=) (=) (vectorKey documentId).
Proof.
  intros i j H. unfold vectorKey in H.
  apply String.app_inj in H. apply (String.app_inj "_chunk_") in H.
  by apply (inj pretty) in H.
Qed.

Lemma chunkRows_keys (d : Document) (a : Attempt vector)
  (chunks : list jsstring) :
  pineconeId <$> chunkRows d a chunks
  = vectorKey (id d) <$> seq 0 (length chunks).
Proof.
  unfold chunkRows. rewrite fmap_imap, <- imap_seq_0. by apply imap_ext.
Qed.

Lemma vectorRecords_keys (d : Document) (a : Attempt vector)
  (chunks : list jsstring) :
  (vectorRecords d a chunks).*1 = vectorKey (id d) <$> seq 0 (length chunks).
Proof.
  unfold vectorRecords. rewrite fmap_imap, <- imap_seq_0. by apply imap_ext.
Qed.

Lemma upsert_cons k v (rs : list (string * VectorRecord vector)) index :
  upsert ((k, v) :: rs) index = upsert rs (<[k:=v]> index).
Proof. done. Qed.

Lemma upsert_lookup_other (rs : list (string * VectorRecord vector)) index k :
  k ∉ rs.*1 -> upsert rs index !! k = index !! k.
Proof.
  revert index. induction rs as [|[k' v] rs IH]; intros index; [done|].
  rewrite fmap_cons, not_elem_of_cons, upsert_cons. simpl. intros [Hne Hk].
  rewrite IH by done. by rewrite lookup_insert_ne.
Qed.

Lemma upsert_lookup_written (rs : list (string * VectorRecord vector))
  index index' k :
  k ∈ rs.*1 -> upsert rs index !! k = upsert rs index' !! k.
Proof.
  revert index index'. induction rs as [|[k' v] rs IH]; intros index index'.
  - by intros ?%elem_of_nil.
  - rewrite !upsert_cons. intros Hk.
    destruct (decide (k ∈ rs.*1)) as [Hin|Hout]; [by apply IH|].
    rewrite !upsert_lookup_other by done.
    rewrite fmap_cons, elem_of_cons in Hk. destruct Hk as [->|?]; [|done].
    simpl. by rewrite !lookup_insert_eq.
Qed.

Lemma upsert_overwrites (rs1 rs2 : list (string * VectorRecord vector)) index :
  rs1.*1 = rs2.*1 -> upsert rs2 (upsert rs1 index) = upsert rs2 index.
Proof.
  intros Hkeys. apply map_eq. intros k.
  destruct (decide (k ∈ rs2.*1)) as [Hin|Hout].
  - by apply upsert_lookup_written.
  - rewrite (upsert_lookup_other rs2), (upsert_lookup_other rs1),
      (upsert_lookup_other rs2) by (by rewrite ?Hkeys). done.
Qed.

Lemma upsert_dom (rs : list (string * VectorRecord vector)) index :
  dom (upsert rs index) = list_to_set rs.*1 ∪ dom index.
Proof.
  revert index. induction rs as [|[k v] rs IH]; intros index.
  - simpl. by rewrite (left_id_L ∅ (∪)).
  - rewrite upsert_cons, IH, dom_insert_L. simpl.
    by rewrite (assoc_L (∪)), (comm_L (∪) _ {[k]}).
Qed.

(** C1: the key of a chunk is given by the document identifier and the
    position alone; two ingestions of a document write the same keys, the
    keys of different positions differ, and the second ingestion replaces
    the vector entries of the first and adds none. *)
Theorem vectorKey_reingestion (d : Document) (a1 a2 : Attempt vector)
  (chunks : list jsstring) (index : gmap string (VectorRecord vector)) :
  let keys := vectorKey (id d) <$> seq 0 (length chunks) in
  pineconeId <$> chunkRows d a1 chunks = keys
  /\ pineconeId <$> chunkRows d a2 chunks = keys
  /\ (vectorRecords d a1 chunks).*1 = keys
  /\ (vectorRecords d a2 chunks).*1 = keys
  /\ NoDup keys
  /\ ingestVectors d a2 chunks (ingestVectors d a1 chunks index)
     = ingestVectors d a2 chunks index
  /\ dom (ingestVectors d a2 chunks (ingestVectors d a1 chunks index))
     = dom (ingestVectors d a1 chunks index)
  /\ size (ingestVectors d a2 chunks (ingestVectors d a1 chunks index))
     = size (ingestVectors d a1 chunks index).
Proof.
  intros keys. subst keys.
  assert (dom (ingestVectors d a2 chunks (ingestVectors d a1 chunks index))
          = dom (ingestVectors d a1 chunks index)) as Hdom.
  { unfold ingestVectors. rewrite !upsert_dom, !vectorRecords_keys.
    by rewrite (assoc_L (∪)), (idemp_L (∪)). }
  repeat split; try apply chunkRows_keys; try apply vectorRecords_keys.
  - apply (NoDup_fmap_2 _), NoDup_seq.
  - unfold ingestVectors. apply upsert_overwrites.
    by rewrite !vectorRecords_keys.
  - done.
  - by rewrite <- !size_dom, Hdom.
Qed.

End IngestionTheorems.

(** ** The properties at work on sample inputs *)

Section Witnesses.

Import Sanitizer TokenCounter Mistral EmbeddingBatcher Validation
  SecureFetcher Samples.

(** The cases of the sanitizer's test-suite. *)
Example sanitizeText_combined :
  sanitizeText nfc_excerpt
    (lit "  " ++ [0xFEFF; 0x00] ++ lit "Hello" ++ [0x200B] ++ lit "   World"
     ++ [CR; LF; LF; LF; LF] ++ lit "Test" ++ [0x1F] ++ lit "  ")
  = lit "Hello World" ++ [LF; LF] ++ lit "Test".
Proof. reflexivity. Qed.

Example sanitizeText_composes :
  sanitizeText nfc_excerpt (lit "cafe" ++ [0x301]) = lit "caf" ++ [0xE9].
Proof. reflexivity. Qed.

Example isEmptyText_cases :
  isEmptyText nfc_excerpt [] = true
  /\ isEmptyText nfc_excerpt (lit "   ") = true
  /\ isEmptyText nfc_excerpt [LF; LF; TAB] = true
  /\ isEmptyText nfc_excerpt [0x200B; 0x200C; 0x200D] = true
  /\ isEmptyText nfc_excerpt (lit "hello") = false.
Proof. by vm_compute. Qed.

Example sanitizeAndValidate_after_removal :
  let r := sanitizeAndValidate nfc_excerpt
             (replicate 95 0x78 ++ replicate 10 0x200B) (Some 100) in
  valid r = false /\ length_ r = 95.
Proof. by vm_compute. Qed.

Lemma sanitizeText_second_pass_differs_witness :
  sanitizeText nfc_excerpt [0x65; 0x200B; 0x301] = [0x65; 0x301]
  /\ sanitizeText nfc_excerpt (sanitizeText nfc_excerpt [0x65; 0x200B; 0x301])
     = [0xE9]
  /\ sanitizeText nfc_excerpt (sanitizeText nfc_excerpt [0x65; 0x200B; 0x301])
     <> sanitizeText nfc_excerpt [0x65; 0x200B; 0x301].
Proof.
  apply (sanitizeText_second_pass_differs nfc_excerpt); reflexivity.
Defined.


(** The cases of the token counter's test-suite, in fallback. *)
Example countTokensEstimate_cases :
  countTokensEstimate (lit "Hello world!") = 3
  /\ countTokensEstimate (lit "Hello") = 2
  /\ countTokensEstimate [] = 0.
Proof. by vm_compute. Qed.

(** A negative limit is outside what a limit means; there the fallback
    cuts from the end, as [slice] does with a negative index. *)
Example truncateToTokenLimit_negative_limit :
  truncateToTokenLimit None (lit "abcdefgh") (-1) None
  = (lit "abcd", Some None).
Proof. reflexivity. Qed.



(** C5 as the specification words it fails without a client: one text is
    within 1 to 16, the call throws, and the provider is not called. *)
Lemma createEmbeddings_without_client :
  let texts := [lit "test"] in
  let r := createEmbeddings (vector := list Z) None texts [] in
  (1 <= len texts <= MAX_BATCH_SIZE)
  /\ r.1 = Threw (Error "Mistral client not initialized. Check MISTRAL_API_KEY.")
  /\ provider_calls r.2 = [].
Proof. by vm_compute. Qed.

Lemma createEmbeddings_guards_witness :
  (exists e, createEmbeddings (Some sample_client) (sample_texts 17) []
             = (Threw e, []))
  /\ (exists e, createEmbeddings (Some sample_client) [] [] = (Threw e, []))
  /\ (exists e, createEmbeddings (vector := list Z) None (sample_texts 1) []
                = (Threw e, []))
  /\ provider_calls (createEmbeddings (Some sample_client) (sample_texts 16) []).2
     = [sample_texts 16].
Proof.
  split; [|split; [|split]].
  - apply (proj1 (createEmbeddings_guards
                    (Some sample_client) (sample_texts 17) [])).
    left. by vm_compute.
  - apply (proj1 (createEmbeddings_guards (Some sample_client) [] [])).
    by right.
  - apply (proj1 (proj2 (createEmbeddings_guards None (sample_texts 1) []))).
    reflexivity.
  - apply (proj2 (proj2 (createEmbeddings_guards
                           (Some sample_client) (sample_texts 16) []))
             sample_client).
    + reflexivity.
    + by vm_compute.
Defined.

(** Seventeen texts: two requests, a pause between them and none at the
    end. *)
Example createEmbeddingsBatched_17 :
  createEmbeddingsBatched (Some sample_client) (sample_texts 17) true []
  = (Returned (length_embedder (sample_texts 17)),
     [ EmbeddingsCreate "mistral-embed" (sample_texts 16);
       OnProgress 16 17;
       LoggerDebug "Rate limiting: waiting 31s before next batch";
       SetTimeout 31000;
       EmbeddingsCreate "mistral-embed" (drop 16 (sample_texts 17));
       OnProgress 17 17 ]).
Proof. by vm_compute. Qed.

(** A provider that fails: the error leaves the batched call at once. *)
Example createEmbeddingsBatched_provider_error :
  createEmbeddingsBatched
    (Some {| embeddings_create := fun _ _ _ =>
               inl (HTTPValidationError "bad input") :
                 thrown + EmbeddingResponse (list Z) |})
    (sample_texts 17) true []
  = (Threw (Error "Mistral API validation failed: bad input"),
     [ EmbeddingsCreate "mistral-embed" (sample_texts 16);
       LoggerError "Mistral HTTP validation error" "bad input" ]).
Proof. by vm_compute. Qed.

(** The literal cases of the secure fetcher. *)
Example is_blocked_cases :
  is_blocked (IPv4 0xA9FEA9FE) = true      (* 169.254.169.254 *)
  /\ is_blocked (IPv4 0x0A000001) = true   (* 10.0.0.1 *)
  /\ is_blocked (IPv4 0x7F000001) = true   (* 127.0.0.1 *)
  /\ is_blocked (IPv4 0xAC1F0001) = true   (* 172.31.0.1 *)
  /\ is_blocked (IPv4 0xAC200001) = false  (* 172.32.0.1 *)
  /\ is_blocked (IPv4 0x5DB8D822) = false  (* 93.184.216.34 *)
  /\ is_blocked (IPv4 0x64400001) = true   (* 100.64.0.1 *)
  /\ is_blocked (IPv4 0xC0000201) = true   (* 192.0.2.1 *)
  /\ is_blocked (IPv6 1) = true            (* ::1 *)
  /\ is_blocked (IPv6 0xFD000000000000000000000000000001) = true
  /\ is_blocked (IPv6 0xFFFFA9FEA9FE) = true   (* ::ffff:169.254.169.254 *)
  /\ is_blocked (IPv6 0xFFFF7F000001) = true   (* ::ffff:127.0.0.1 *)
  /\ is_blocked (IPv6 0xFFFF5DB8D822) = false  (* ::ffff:93.184.216.34 *)
  /\ is_blocked (IPv6 0x26062800022000010248189325C81946) = false.
Proof. by vm_compute. Qed.

Example fetchText_cases :
  let fetchText := fetchText sample_parse sample_resolve sample_fetch in
  fetchText (lit "http://example.com") = (inl SecurityBlocked, [])
  /\ fetchText (lit "ftp:example") = (inl InvalidUrl, [])
  /\ (fetchText (lit "https://169.254.169.254")).1 = inl SecurityBlocked
  /\ (fetchText (lit "https://10.0.0.1")).1 = inl SecurityBlocked
  /\ (fetchText (lit "https://127.0.0.1")).1 = inl SecurityBlocked
  /\ (fetchText (lit "https://unknown.invalid")).1 = inl SecurityBlocked
  /\ fetchText (lit "https://example.com")
     = (inr (lit "Buongiorno"),
        [DnsResolve (lit "example.com"); HttpGet (lit "https://example.com")]).
Proof. by vm_compute. Qed.

Lemma non_https_rejected_and_disallowed_blocked_witness :
  UrlUploadSchema (fun _ => true) http_submission = false
  /\ ((fetchText sample_parse sample_resolve sample_fetch
         (lit "https://10.0.0.1")).1 = inl SecurityBlocked
      /\ Forall (fun ev => is_HttpGet ev = false)
           (fetchText sample_parse sample_resolve sample_fetch
              (lit "https://10.0.0.1")).2)
  /\ (is_blocked (IPv4 0x7F000001) = true
      /\ is_blocked (IPv6 (0xFFFF00000000 + 0x7F000001)) = true)
  /\ is_blocked (IPv6 0xFE800000000000000000000000000001) = true.
Proof.
  destruct non_https_rejected_and_disallowed_blocked
    as (Hschema & Hfetch & Hv4 & Hv6).
  split; [|split; [|split]].
  - apply Hschema. by vm_compute.
  - apply (Hfetch sample_parse sample_resolve sample_fetch
             (lit "https://10.0.0.1")
             {| protocol := lit "https:"; hostname := lit "10.0.0.1" |}).
    + reflexivity.
    + right. right. exists [IPv4 0x0A000001]. split; [reflexivity|].
      by constructor.
  - apply Hv4. right. do 4 apply Exists_cons_tl. apply Exists_cons_hd.
    cbn [fst snd]. lia.
  - apply Hv6. apply Exists_cons_tl, Exists_cons_hd. cbn [fst snd]. lia.
Defined.

Example UrlUploadSchema_accepts_https :
  UrlUploadSchema (fun _ => true) https_submission = true.
Proof. by vm_compute. Qed.

(** The schema sees the URL as the [.url()] check trims it: white space
    around an [https] URL does not make it fail, and does not let another
    scheme pass. *)
Example UrlUploadSchema_trims :
  UrlUploadSchema (fun _ => true)
    {| type_ := lit "url"; url := lit " https://example.com";
       title := None |} = true
  /\ UrlUploadSchema (fun _ => true)
       {| type_ := lit "url"; url := lit " http://example.com ";
          title := None |} = false.
Proof. by vm_compute. Qed.

End Witnesses.

(** * Further properties *)

(** ** Sanitizer: what is deleted and what is kept *)

Section SanitizerContent.

Import Sanitizer SanitizerSpec.

Variable normalize : jsstring -> jsstring.

Local Abbreviation vis := (fun c : Z => visible c = true).

Lemma visible_not_removed c :
  visible c = true ->
  CONTROL_CHAR c = false /\ ZERO_WIDTH c = false /\ BIDI_CONTROL c = false
  /\ is_white_space c = false.
Proof.
  unfold visible, removed.
  rewrite andb_true_iff, !negb_true_iff, !orb_false_iff. tauto.
Qed.

Lemma filter_rev {A} (P : A -> Prop) `{forall x, Decision (P x)} (l : list A) :
  filter P (rev l) = rev (filter P l).
Proof.
  induction l as [|a l IH]; [done|]. simpl.
  rewrite filter_app, IH, (filter_cons P a l), (filter_cons P a []).
  destruct (decide (P a)); simpl; [done|]. by rewrite app_nil_r.
Qed.

(** *** Each step keeps the visible code units *)

Lemma remove_all_visible cls (s : jsstring) :
  (forall c, visible c = true -> cls c = false) ->
  filter vis (remove_all cls s) = filter vis s.
Proof.
  intros H. unfold remove_all. induction s as [|a s IH]; [done|].
  rewrite (filter_cons _ a s), (filter_cons vis a s).
  destruct (decide (cls a = false)) as [Ha|Ha].
  - rewrite filter_cons. by rewrite IH.
  - rewrite IH. destruct (decide (visible a = true)) as [Hv|]; [|done].
    by apply H in Hv.
Qed.

Lemma replace_CRLF_visible (s : jsstring) :
  filter vis (replace_CRLF s) = filter vis s.
Proof.
  remember (length s) as n eqn:Hn.
  assert (length s <= n)%nat as Hle by lia. clear Hn.
  revert s Hle. induction n as [|n IH]; intros s Hle.
  { destruct s; [done|simpl in Hle; lia]. }
  destruct s as [|a [|b t]]; [done..|].
  change (replace_CRLF (a :: b :: t)) with
    (if (a =? CR) && (b =? LF) then LF :: replace_CRLF t
     else a :: replace_CRLF (b :: t)).
  simpl in Hle.
  destruct ((a =? CR) && (b =? LF)) eqn:E.
  - apply andb_true_iff in E as [->%Z.eqb_eq ->%Z.eqb_eq].
    rewrite !filter_cons. simpl. apply IH. lia.
  - rewrite !(filter_cons _ a). rewrite (IH (b :: t)) by (simpl; lia). done.
Qed.

Lemma replace_CR_visible (s : jsstring) :
  filter vis (replace_CR s) = filter vis s.
Proof.
  unfold replace_CR. induction s as [|a s IH]; [done|].
  cbn [map]. rewrite !filter_cons, IH.
  destruct (Z.eqb_spec a CR) as [->|]; done.
Qed.

Lemma squeeze_visible ch keep seen (s : jsstring) :
  visible ch = false ->
  filter vis (squeeze ch keep seen s) = filter vis s.
Proof.
  intros Hch. revert seen. induction s as [|a s IH]; intros seen; [done|].
  cbn [squeeze]. destruct (Z.eqb_spec a ch) as [->|].
  - destruct (seen <? keep)%nat; rewrite !filter_cons, IH;
      destruct (decide (visible ch = true)); congruence.
  - by rewrite !filter_cons, IH.
Qed.

Lemma trimStart_visible (s : jsstring) :
  filter vis (trimStart s) = filter vis s.
Proof.
  induction s as [|a s IH]; [done|]. simpl.
  destruct (is_white_space a) eqn:E; [|done].
  rewrite IH, filter_cons_False; [done|].
  unfold visible. rewrite E, andb_false_r. done.
Qed.

Lemma trim_visible (s : jsstring) : filter vis (trim s) = filter vis s.
Proof.
  unfold trim, trimEnd.
  rewrite filter_rev, trimStart_visible, filter_rev, rev_involutive.
  apply trimStart_visible.
Qed.

Lemma sanitizeText_visible (text : jsstring) :
  filter vis (sanitizeText normalize text) = filter vis (normalize text).
Proof.
  unfold sanitizeText, replace_MULTI_NEWLINE, replace_MULTI_SPACE.
  rewrite trim_visible, !squeeze_visible by done.
  rewrite replace_CR_visible, replace_CRLF_visible.
  rewrite !remove_all_visible; [done|..];
    intros c Hc; by apply visible_not_removed in Hc as (? & ? & ? & _).
Qed.

(** *** Each step only deletes, or writes a newline over a carriage
    return *)

Lemma replace_CRLF_sublist (s : jsstring) :
  replace_CR (replace_CRLF s) `sublist_of` replace_CR s.
Proof.
  remember (length s) as n eqn:Hn.
  assert (length s <= n)%nat as Hle by lia. clear Hn.
  revert s Hle. induction n as [|n IH]; intros s Hle.
  { destruct s; [done|simpl in Hle; lia]. }
  destruct s as [|a [|b t]]; [done..|].
  change (replace_CRLF (a :: b :: t)) with
    (if (a =? CR) && (b =? LF) then LF :: replace_CRLF t
     else a :: replace_CRLF (b :: t)).
  simpl in Hle. unfold replace_CR in *.
  destruct ((a =? CR) && (b =? LF)) eqn:E.
  - apply andb_true_iff in E as [->%Z.eqb_eq ->%Z.eqb_eq].
    cbn [map]. simpl. apply sublist_cons, sublist_skip, IH. lia.
  - cbn [map]. apply sublist_skip, (IH (b :: t)). simpl; lia.
Qed.

Lemma squeeze_sublist ch keep seen (s : jsstring) :
  squeeze ch keep seen s `sublist_of` s.
Proof.
  revert seen. induction s as [|a s IH]; intros seen; [done|].
  cbn [squeeze]. destruct (a =? ch); [destruct (seen <? keep)%nat|].
  - by apply sublist_skip.
  - by apply sublist_cons.
  - by apply sublist_skip.
Qed.

Lemma trim_sublist (s : jsstring) : trim s `sublist_of` s.
Proof.
  destruct (trim_infix s) as (a & b & E). rewrite E at 2.
  by apply sublist_inserts_l, sublist_inserts_r.
Qed.

Lemma sanitizeText_sublist (text : jsstring) :
  sanitizeText normalize text `sublist_of` replace_CR (normalize text).
Proof.
  unfold sanitizeText, replace_MULTI_NEWLINE, replace_MULTI_SPACE.
  etrans; [apply trim_sublist|].
  etrans; [apply squeeze_sublist|].
  etrans; [apply squeeze_sublist|].
  etrans; [apply replace_CRLF_sublist|].
  unfold replace_CR, remove_all.
  apply (fmap_sublist (fun c => if c =? CR then LF else c)).
  etrans; [apply sublist_filter|].
  etrans; [apply sublist_filter|].
  apply sublist_filter.
Qed.

(** X1: the sanitizer only deletes code units and turns carriage returns
    into newlines, and what it deletes is never a visible code unit: the
    result is a subsequence of the normalized text with its carriage
    returns replaced, and the visible code units of the result are those of
    the normalized text, in the same order. *)
Theorem sanitizeText_only_deletes_invisible (text : jsstring) :
  sanitizeText normalize text `sublist_of` replace_CR (normalize text)
  /\ filter (fun c => visible c = true) (sanitizeText normalize text)
     = filter (fun c => visible c = true) (normalize text).
Proof. split; [apply sanitizeText_sublist|apply sanitizeText_visible]. Qed.

(** X2: sanitizing never makes the normalized text longer, so a text that
    [sanitizeAndValidate] finds valid had at least [minLength] code units
    after normalization. *)
Theorem sanitizeAndValidate_valid_length (text : jsstring)
  (minLength : option Z) :
  let r := sanitizeAndValidate normalize text minLength in
  length_ r <= len (normalize text)
  /\ (valid r = true -> default 100 minLength <= len (normalize text)).
Proof.
  pose proof (sublist_length _ _ (sanitizeText_sublist text)) as H.
  unfold replace_CR in H. rewrite length_fmap in H.
  unfold sanitizeAndValidate, len. simpl. split; [lia|].
  intros Hv%Z.leb_le. unfold len in Hv. lia.
Qed.

(** X3: [isEmptyText] answers [true] exactly for the texts whose normalized
    form has no visible code unit, that is, holds only deleted characters
    and white space. *)
Theorem isEmptyText_iff_nothing_visible (text : jsstring) :
  isEmptyText normalize text = true
  <-> forall c, c ∈ normalize text -> visible c = false.
Proof.
  unfold isEmptyText. rewrite Z.eqb_eq.
  pose proof (sanitizeText_visible text) as Hv.
  split.
  - intros H0 c Hc.
    assert (sanitizeText normalize text = []) as E
      by (destruct (sanitizeText normalize text); [done|unfold len in H0; simpl in H0; lia]).
    rewrite E in Hv. destruct (visible c) eqn:Ec; [|done].
    exfalso.
    by apply (filter_nil_not_elem_of (fun c => visible c = true)
                (normalize text) c (eq_sym Hv) Ec).
  - intros H.
    destruct (sanitizeText normalize text) as [|c r] eqn:E; [done|].
    exfalso.
    assert (visible c = true) as Hc.
    { pose proof (trim_head _ _ _ E) as Hws.
      assert (c ∈ sanitizeText normalize text) as Hin by (rewrite E; left).
      apply sanitizeText_chars in Hin as (H1 & H2 & H3 & _).
      unfold visible, removed. by rewrite H1, H2, H3, Hws. }
    assert (c ∈ filter (fun c => visible c = true) (normalize text)) as Hin.
    { rewrite <- Hv. apply list_elem_of_filter. split; [done|left]. }
    apply list_elem_of_filter in Hin as [_ Hin]. apply H in Hin. congruence.
Qed.

Lemma clean_spec (s : jsstring) :
  clean s = true <->
  (forall c, c ∈ s -> removed c = false /\ c <> CR)
  /\ runs_le SP 1 0 s = true /\ runs_le LF 2 0 s = true
  /\ (forall c r, s = c :: r -> is_white_space c = false)
  /\ (forall front c, s = front ++ [c] -> is_white_space c = false).
Proof.
  unfold clean. rewrite !andb_true_iff, forallb_forall, !negb_true_iff.
  split.
  - intros ((((Hall & Hsp) & Hlf) & Hh) & Hl). repeat split; try done.
    + apply list_elem_of_In, Hall in H.
      by apply andb_true_iff in H as [?%negb_true_iff _].
    + apply list_elem_of_In, Hall in H.
      by apply andb_true_iff in H as [_ ?%negb_true_iff%Z.eqb_neq].
    + intros c r ->. done.
    + intros front c ->. by rewrite last_snoc in Hl.
  - intros (Hall & Hsp & Hlf & Hh & Hl). repeat split; try done.
    + intros c Hc%list_elem_of_In. apply Hall in Hc as [Hr Hcr].
      rewrite Hr. by apply Z.eqb_neq in Hcr as ->.
    + destruct s as [|c r]; [done|]. simpl. by apply (Hh c r).
    + destruct (last s) as [c|] eqn:E; [|done].
      apply last_Some in E as [front ->]. simpl. by apply (Hl front c).
Qed.

(** X4: among the texts that normalization leaves alone, the fixed points
    of the sanitizer are exactly the clean ones: no deleted character, no
    carriage return, no two spaces and no three newlines in a row, no white
    space at either end. *)
Theorem sanitizeText_fixed_points (s : jsstring) :
  normalize s = s ->
  (sanitizeText normalize s = s <-> clean s = true).
Proof.
  intros Hn. rewrite clean_spec. split.
  - intros E.
    destruct (sanitizeText_runs normalize s) as [Hsp Hlf].
    rewrite E in Hsp, Hlf. repeat split; try done.
    + rewrite <- E in H. apply sanitizeText_chars in H as (H1 & H2 & H3 & _).
      unfold removed. by rewrite H1, H2, H3.
    + rewrite <- E in H. by apply sanitizeText_chars in H as (_ & _ & _ & ?).
    + intros c r Hs. rewrite <- E in Hs. by apply trim_head in Hs.
    + intros front c Hs. rewrite <- E in Hs. by apply trim_last in Hs.
  - intros (Hall & Hsp & Hlf & Hh & Hl).
    assert (CR ∉ s) as Hcr by (intros H; by apply Hall in H as [_ ?]).
    unfold sanitizeText. rewrite Hn.
    rewrite (remove_all_id CONTROL_CHAR), (remove_all_id ZERO_WIDTH),
      (remove_all_id BIDI_CONTROL);
      try (intros c Hc; apply Hall in Hc as [Hr _]; unfold removed in Hr;
           by apply orb_false_iff in Hr as [[? ?]%orb_false_iff ?]).
    rewrite replace_CRLF_id, replace_CR_id by done.
    unfold replace_MULTI_NEWLINE, replace_MULTI_SPACE.
    rewrite (squeeze_id SP), (squeeze_id LF) by done.
    unfold trim. rewrite trimStart_id by done. by apply trimEnd_id.
Qed.

End SanitizerContent.

(** ** TokenCounter: the cached tokenizer and the estimates *)

Section TokenCounterMore.

Import TokenCounter.

(** X5: the tokenizer is obtained once.  After a first call the module
    variable holds the outcome, and every later call returns that outcome
    and leaves the variable alone, whatever a new import would give; a
    failed import is not tried again. *)
Theorem getTokenizer_memoized
  (importTokenizer importLater : option Tokenizer) (st : TokenizerPromise)
  (text : jsstring) (maxTokens : Z) :
  let first := getTokenizer importTokenizer st in
  first.2 = Some first.1
  /\ first.1 = match st with None => importTokenizer | Some tok => tok end
  /\ getTokenizer importLater first.2 = first
  /\ (countTokens importLater text first.2).2 = first.2
  /\ (exceedsTokenLimit importLater text maxTokens first.2).2 = first.2
  /\ (truncateToTokenLimit importLater text maxTokens first.2).2 = first.2.
Proof.
  unfold exceedsTokenLimit, countTokens, truncateToTokenLimit.
  destruct st as [[tok|]|]; [| |destruct importTokenizer as [tok|]];
    simpl; repeat split; try done; by destruct (_ <=? _).
Qed.

Lemma Math_ceil_div_mul (t : Z) (b : positive) :
  Math_ceil_div (t * Z.pos b) b = t.
Proof.
  pose proof (Math_ceil_div_spec (t * Z.pos b) b) as H. simpl in H. nia.
Qed.

Lemma MAX_VALUE_pos : 0 < MAX_VALUE.
Proof. by vm_compute. Qed.

(** The product by four, within [Number.MAX_VALUE] and beyond. *)
Lemma estimateCharsFromTokens_cases (tokens : Z) :
  (Z.abs tokens * 4 <= MAX_VALUE ->
   estimateCharsFromTokens tokens = Whole (tokens * 4))
  /\ (MAX_VALUE < tokens * 4 -> estimateCharsFromTokens tokens = Infinity)
  /\ (tokens * 4 < - MAX_VALUE ->
      estimateCharsFromTokens tokens = NegInfinity).
Proof.
  pose proof MAX_VALUE_pos as Hmax.
  unfold estimateCharsFromTokens, CHARS_PER_TOKEN. cbv zeta.
  generalize dependent MAX_VALUE. intros M HM.
  destruct (M <? tokens * 4) eqn:E1;
    [apply Z.ltb_lt in E1|apply Z.ltb_ge in E1];
    (destruct (tokens * 4 <? - M) eqn:E2;
     [apply Z.ltb_lt in E2|apply Z.ltb_ge in E2]);
    repeat split; intros; try done; lia.
Qed.

(** X6: the two estimates on whole numbers.  A whole number of tokens
    survives the way to characters and back exactly when four times the
    number is within [Number.MAX_VALUE]; beyond, the product is an infinity
    and stays one.  A number of characters, with room for four more below
    [Number.MAX_VALUE], comes back as the next multiple of four. *)
Theorem estimates_round_trip (tokens chars : Z)
  (Hchars : Z.abs chars + 4 <= MAX_VALUE) :
  (estimateTokensFromChars_of (estimateCharsFromTokens tokens) = Whole tokens
   <-> Z.abs tokens * 4 <= MAX_VALUE)
  /\ (MAX_VALUE < tokens * 4 ->
      estimateTokensFromChars_of (estimateCharsFromTokens tokens) = Infinity)
  /\ (tokens * 4 < - MAX_VALUE ->
      estimateTokensFromChars_of (estimateCharsFromTokens tokens)
      = NegInfinity)
  /\ exists c,
       estimateCharsFromTokens (estimateTokensFromChars chars) = Whole c
       /\ chars <= c < chars + 4
       /\ c mod 4 = 0.
Proof.
  destruct (estimateCharsFromTokens_cases tokens) as (Hin & Hpos & Hneg).
  split; [|split; [|split]].
  - split.
    + intros E. destruct (decide (Z.abs tokens * 4 <= MAX_VALUE)); [done|].
      destruct (decide (0 <= tokens)).
      * rewrite Hpos in E by lia. done.
      * rewrite Hneg in E by lia. done.
    + intros H. rewrite Hin by done. cbn [estimateTokensFromChars_of].
      unfold estimateTokensFromChars. f_equal.
      apply (Math_ceil_div_mul tokens 4).
  - intros H. by rewrite Hpos.
  - intros H. by rewrite Hneg.
  - pose proof (Math_ceil_div_spec chars CHARS_PER_TOKEN) as H.
    unfold CHARS_PER_TOKEN in *. cbv zeta in H.
    exists (estimateTokensFromChars chars * 4).
    destruct (estimateCharsFromTokens_cases (estimateTokensFromChars chars))
      as (Hin' & _).
    unfold estimateTokensFromChars, CHARS_PER_TOKEN in *.
    split; [apply Hin'; lia|]. split; [lia|]. apply Z.mod_mul. lia.
Qed.

Lemma countTokensEstimate_le (a b : jsstring) :
  len a <= len b -> countTokensEstimate a <= countTokensEstimate b.
Proof.
  unfold countTokensEstimate.
  pose proof (Math_ceil_div_spec (len a) CHARS_PER_TOKEN) as Ha.
  pose proof (Math_ceil_div_spec (len b) CHARS_PER_TOKEN) as Hb.
  unfold CHARS_PER_TOKEN in *. simpl in *. lia.
Qed.

(** X7: the estimate grows with the text and is subadditive: a text joined
    from two parts counts at least as many tokens as either part and at
    most as many as both together, so parts within a budget can exceed it
    by their sum only. *)
Theorem countTokensEstimate_app (a b : jsstring) :
  0 <= countTokensEstimate a
  /\ countTokensEstimate a <= countTokensEstimate (a ++ b)
  /\ countTokensEstimate b <= countTokensEstimate (a ++ b)
  /\ countTokensEstimate (a ++ b) <= countTokensEstimate a + countTokensEstimate b.
Proof.
  unfold countTokensEstimate.
  pose proof (Math_ceil_div_spec (len a) CHARS_PER_TOKEN) as Ha.
  pose proof (Math_ceil_div_spec (len b) CHARS_PER_TOKEN) as Hb.
  pose proof (Math_ceil_div_spec (len (a ++ b)) CHARS_PER_TOKEN) as Hab.
  unfold CHARS_PER_TOKEN, len in *. rewrite length_app in *. simpl in *. lia.
Qed.



End TokenCounterMore.

(** ** Mistral: loading the client, errors of a request, the connection
    check *)

Section MistralMore.

Import Mistral EmbeddingBatcher.

Context {vector : Type}.

(** X9: the client is a singleton across reloads outside production.  It
    is missing exactly when none is kept and the key is missing or empty;
    outside production a client, once created, is kept, and a later load
    returns it without constructing or warning, whatever the environment
    says then; in production nothing is kept and every load with a key
    constructs a client. *)
Theorem load_mistral_singleton (env later : Env)
  (globalForMistral : option MistralOptions) :
  let r := load_mistral env globalForMistral in
  let mistral := r.1.1 in
  let kept := r.1.2 in
  let events := r.2 in
  (mistral = None
   <-> globalForMistral = None
       /\ (MISTRAL_API_KEY env = None \/ MISTRAL_API_KEY env = Some ""))
  /\ (NODE_ENV env <> Some "production" -> is_Some mistral ->
      kept = mistral
      /\ (NODE_ENV later <> Some "production" ->
          load_mistral later kept = (mistral, kept, [])))
  /\ (NODE_ENV env = Some "production" -> kept = globalForMistral)
  /\ (globalForMistral = None -> is_Some mistral ->
      exists options, mistral = Some options /\ events = [NewMistral options]
        /\ Some (apiKey options) = MISTRAL_API_KEY env
        /\ maxElapsedTime (retryConfig options) = 300000)
  /\ (is_Some globalForMistral -> mistral = globalForMistral /\ events = []).
Proof.
  unfold load_mistral, createMistralClient.
  destruct (decide (NODE_ENV env = Some "production")) as [Hp|Hp];
    [rewrite (bool_decide_eq_true_2 _ Hp)|rewrite (bool_decide_eq_false_2 _ Hp)];
    destruct globalForMistral as [client|];
    [|destruct (MISTRAL_API_KEY env) as [[|a key]|] eqn:Hkey
     | |destruct (MISTRAL_API_KEY env) as [[|a key]|] eqn:Hkey];
    simpl; repeat split; intros;
    repeat match goal with
           | H : is_Some None |- _ => by destruct H
           | H : _ /\ _ |- _ => destruct H
           | H : _ \/ _ |- _ => destruct H
           | H : NODE_ENV later <> _ |- _ =>
               rewrite (bool_decide_eq_false_2 _ H); clear H
           end;
    simplify_eq; simpl; eauto 10.
Qed.

Lemma createEmbeddings_no_client (texts : list jsstring) (h : list event) :
  createEmbeddings (vector := vector) None texts h
  = (Threw (Error "Mistral client not initialized. Check MISTRAL_API_KEY."), h).
Proof. done. Qed.

(** The four ways a request with a client and 1 to 16 texts can end. *)
Lemma createEmbeddings_cases (client : Client vector)
  (texts : list jsstring) (h : list event) :
  1 <= len texts <= MAX_BATCH_SIZE ->
  let sent := h ++ [EmbeddingsCreate MISTRAL_EMBED_MODEL texts] in
  createEmbeddings (Some client) texts h
  = match embeddings_create client h MISTRAL_EMBED_MODEL texts with
    | inr response =>
        (Returned {| embeddings := data response;
                     usage := {| promptTokens :=
                                   default 0 (usage_promptTokens response);
                                 totalTokens :=
                                   default 0 (usage_totalTokens response) |} |},
         sent)
    | inl (SDKValidationError message) =>
        (Threw (Error ("Mistral validation failed: " +:+ message)),
         sent ++ [LoggerError "Mistral SDK validation error" message])
    | inl (HTTPValidationError message) =>
        (Threw (Error ("Mistral API validation failed: " +:+ message)),
         sent ++ [LoggerError "Mistral HTTP validation error" message])
    | inl err => (Threw err, sent)
    end.
Proof.
  unfold MAX_BATCH_SIZE. intros Hlen. cbv zeta.
  unfold createEmbeddings, MAX_BATCH_SIZE.
  destruct (16 <? len texts) eqn:E1; [apply Z.ltb_lt in E1; lia|].
  destruct (len texts =? 0) eqn:E2; [apply Z.eqb_eq in E2; lia|].
  unfold try_catch, bind, call_embeddings_create, ret, throw, emit.
  by destruct (embeddings_create client h MISTRAL_EMBED_MODEL texts)
    as [[msg|msg|msg|msg]|response].
Qed.

Lemma createEmbeddings_size_error (client : Client vector)
  (texts : list jsstring) (h : list event) :
  ~ (1 <= len texts <= MAX_BATCH_SIZE) ->
  exists message, createEmbeddings (Some client) texts h
                  = (Threw (Error message), h).
Proof.
  unfold MAX_BATCH_SIZE. intros Hlen. unfold createEmbeddings, MAX_BATCH_SIZE.
  destruct (16 <? len texts) eqn:E1; [by eexists|].
  destruct (len texts =? 0) eqn:E2; [by eexists|].
  apply Z.ltb_ge in E1. apply Z.eqb_neq in E2. unfold len in *. lia.
Qed.

(** X10: the errors of a request.  With a client and 1 to 16 texts, a
    validation error of the SDK is logged once, after the request, and
    thrown again as an [Error] that carries its message; any other error
    of the provider is thrown on as it is, with nothing logged.  So a
    validation error never leaves [createEmbeddings] as such, and nothing
    else is logged.  Earlier events are kept, at most one request is sent,
    and a result is returned only when the provider answered this very
    request, with the vectors of its answer. *)
Theorem createEmbeddings_error_discipline (mistral : option (Client vector))
  (texts : list jsstring) (h : list event) :
  let r := createEmbeddings mistral texts h in
  let sent := h ++ [EmbeddingsCreate MISTRAL_EMBED_MODEL texts] in
  (forall client, mistral = Some client -> 1 <= len texts <= MAX_BATCH_SIZE ->
     (forall error,
         embeddings_create client h MISTRAL_EMBED_MODEL texts
         = inl (SDKValidationError error) ->
         r = (Threw (Error ("Mistral validation failed: " +:+ error)),
              sent ++ [LoggerError "Mistral SDK validation error" error]))
     /\ (forall error,
           embeddings_create client h MISTRAL_EMBED_MODEL texts
           = inl (HTTPValidationError error) ->
           r = (Threw (Error ("Mistral API validation failed: " +:+ error)),
                sent ++ [LoggerError "Mistral HTTP validation error" error]))
     /\ (forall err,
           embeddings_create client h MISTRAL_EMBED_MODEL texts = inl err ->
           (forall error, err <> SDKValidationError error) ->
           (forall error, err <> HTTPValidationError error) ->
           r = (Threw err, sent)))
  /\ (forall message, r.1 <> Threw (SDKValidationError message))
  /\ (forall message, r.1 <> Threw (HTTPValidationError message))
  /\ h `prefix_of` r.2
  /\ (length (provider_calls r.2) <= length (provider_calls h) + 1)%nat
  /\ (forall message error,
        LoggerError message error ∈ drop (length h) r.2 ->
        exists client,
          mistral = Some client
          /\ (embeddings_create client h MISTRAL_EMBED_MODEL texts
              = inl (SDKValidationError error)
              \/ embeddings_create client h MISTRAL_EMBED_MODEL texts
                 = inl (HTTPValidationError error)))
  /\ (forall result, r.1 = Returned result ->
        exists client response,
          mistral = Some client
          /\ embeddings_create client h MISTRAL_EMBED_MODEL texts = inr response
          /\ embeddings result = data response
          /\ r.2 = h ++ [EmbeddingsCreate MISTRAL_EMBED_MODEL texts]).
Proof.
  intros r sent. subst r sent. split.
  { intros client -> Hlen.
    rewrite (createEmbeddings_cases client texts h Hlen).
    split; [by intros error ->|]. split; [by intros error ->|].
    intros err -> Hsdk Hhttp. destruct err as [m|m|m|m]; try done.
    - by destruct (Hsdk m).
    - by destruct (Hhttp m). }
  assert (forall m,
             createEmbeddings mistral texts h = (Threw (Error m), h) ->
             (forall message,
                 (createEmbeddings mistral texts h).1
                 <> Threw (SDKValidationError message))
             /\ (forall message,
                 (createEmbeddings mistral texts h).1
                 <> Threw (HTTPValidationError message))
             /\ h `prefix_of` (createEmbeddings mistral texts h).2
             /\ (length (provider_calls (createEmbeddings mistral texts h).2)
                 <= length (provider_calls h) + 1)%nat
             /\ (forall message error,
                   LoggerError message error
                     ∈ drop (length h) (createEmbeddings mistral texts h).2 ->
                   exists client,
                     mistral = Some client
                     /\ (embeddings_create client h MISTRAL_EMBED_MODEL texts
                         = inl (SDKValidationError error)
                         \/ embeddings_create client h MISTRAL_EMBED_MODEL texts
                            = inl (HTTPValidationError error)))
             /\ (forall result,
                   (createEmbeddings mistral texts h).1 = Returned result ->
                   exists client response,
                     mistral = Some client
                     /\ embeddings_create client h MISTRAL_EMBED_MODEL texts
                        = inr response
                     /\ embeddings result = data response
                     /\ (createEmbeddings mistral texts h).2
                        = h ++ [EmbeddingsCreate MISTRAL_EMBED_MODEL texts]))
    as Hquiet.
  { intros m ->. simpl. rewrite drop_all.
    split; [done|]. split; [done|]. split; [done|]. split; [lia|].
    split; [by intros ? ? ?%elem_of_nil|done]. }
  destruct mistral as [client|];
    [|by apply (Hquiet _ (createEmbeddings_no_client texts h))].
  destruct (decide (1 <= len texts <= MAX_BATCH_SIZE)) as [Hlen|Hlen].
  2:{ destruct (createEmbeddings_size_error client texts h Hlen) as [m Hm].
      by apply (Hquiet m). }
  clear Hquiet. rewrite createEmbeddings_cases by done.
  destruct (embeddings_create client h MISTRAL_EMBED_MODEL texts)
    as [[msg|msg|msg|msg]|response] eqn:E; simpl;
    rewrite <- ?app_assoc, ?drop_app_length, !provider_calls_app, !length_app;
    simpl.
  all: split; [done|]. all: split; [done|].
  all: split; [by apply prefix_app_r|]. all: split; [lia|].
  all: split;
    [intros m e He; repeat (apply elem_of_cons in He as [He|He]);
       try apply elem_of_nil in He; try done; simplify_eq;
       exists client; rewrite E; eauto
    |intros res ?; simplify_eq; exists client; eauto].
Qed.

Section WithDimension.

Variable dimension : vector -> Z.

(** X11: the connection check never throws.  Without a client it answers
    [false] and sends nothing; with one it sends the single text ['test']
    once, and answers [true] exactly when the provider answered with one
    vector of dimension 1024. *)
Theorem verifyConnection_spec (mistral : option (Client vector))
  (h : list event) :
  let r := verifyConnection dimension mistral h in
  (exists ok, r.1 = Returned ok)
  /\ (mistral = None -> r = (Returned false, h))
  /\ (is_Some mistral ->
      provider_calls r.2 = provider_calls h ++ [[lit "test"]])
  /\ (r.1 = Returned true
      <-> exists client response v,
            mistral = Some client
            /\ embeddings_create client h MISTRAL_EMBED_MODEL [lit "test"]
               = inr response
            /\ data response = [v]
            /\ dimension v = MISTRAL_EMBED_DIMENSION).
Proof.
  intros r. subst r. unfold verifyConnection.
  destruct mistral as [client|].
  2:{ unfold try_catch, bind. rewrite createEmbeddings_no_client. simpl.
      split; [by eexists|]. split; [done|].
      split; [by intros [? [=]]|].
      split; [done|by intros (? & ? & ? & [=] & _)]. }
  unfold try_catch, bind.
  rewrite createEmbeddings_cases by (by vm_compute).
  destruct (embeddings_create client h MISTRAL_EMBED_MODEL [lit "test"])
    as [[msg|msg|msg|msg]|response] eqn:E; simpl;
    rewrite <- ?app_assoc, !provider_calls_app; simpl.
  all: split; [by eexists|]. all: split; [done|].
  all: split; [by rewrite ?app_nil_r|].
  1-4: by split; [|intros (c & resp & v & [= <-] & E' & _); rewrite E in E'].
  split.
  - intros [= H]. apply andb_true_iff in H as [H1 H2].
    destruct (data response) as [|v [|w l]] eqn:Hd; try done.
    2:{ apply Z.eqb_eq in H1. unfold len in H1. simpl length in H1. lia. }
    apply Z.eqb_eq in H2. by exists client, response, v.
  - intros (c & resp & v & [= <-] & E' & Hd & Hv).
    rewrite E in E'. injection E' as <-.
    rewrite Hd. simpl. by rewrite Hv.
Qed.

End WithDimension.

End MistralMore.

(** ** More on the batched requests *)

Section BatchedMore.

Import Mistral EmbeddingBatcher.

Context {vector : Type}.

Lemma pauses_app (h1 h2 : list event) :
  pauses (h1 ++ h2) = pauses h1 ++ pauses h2.
Proof. unfold pauses. apply omap_app. Qed.

Lemma progress_reports_app (h1 h2 : list event) :
  progress_reports (h1 ++ h2) = progress_reports h1 ++ progress_reports h2.
Proof. unfold progress_reports. apply omap_app. Qed.

Lemma rate_limited_no_calls (paused : bool) (e : list event) :
  provider_calls e = [] -> rate_limited paused e = true.
Proof.
  revert paused. induction e as [|ev e IH]; intros paused He; [done|].
  destruct ev; try done; simpl in *; by apply IH.
Qed.

(** One turn of the loop whose request fails: the loop is left at once. *)
Lemma embedAll_cons_threw (mistral : option (Client vector))
  (onProgress : bool) (total completed : Z) (b : list jsstring)
  (rest : list (list jsstring)) (h h1 : list event) (e : thrown) :
  createEmbeddings mistral b h = (Threw e, h1) ->
  embedAll mistral onProgress total completed (b :: rest) h = (Threw e, h1).
Proof. intros E. cbn [embedAll]. unfold bind at 1. by rewrite E. Qed.

(** One turn of the loop whose request is answered. *)
Lemma embedAll_cons_returned (mistral : option (Client vector))
  (onProgress : bool) (total completed : Z) (b : list jsstring)
  (rest : list (list jsstring)) (h h1 : list event)
  (result : EmbeddingResult vector) :
  createEmbeddings mistral b h = (Returned result, h1) ->
  embedAll mistral onProgress total completed (b :: rest) h
  = (let* vectors :=
       embedAll mistral onProgress total (completed + len b) rest in
     ret (embeddings result ++ vectors))
      (h1 ++ (if onProgress then [OnProgress (completed + len b) total] else [])
          ++ match rest with
             | [] => []
             | _ :: _ =>
                 [LoggerDebug "Rate limiting: waiting 31s before next batch";
                  SetTimeout 31000]
             end).
Proof.
  intros E. cbn [embedAll]. unfold bind at 1. rewrite E.
  unfold report_progress, inter_batch_delay.
  destruct onProgress, rest as [|b' rest]; unfold bind, emit, ret;
    cbn beta iota; rewrite <- ?app_assoc, ?app_nil_r; done.
Qed.

(** What a run of the loop leaves behind, whatever the provider does. *)
Lemma embedAll_trace (mistral : option (Client vector)) (onProgress : bool)
  (total : Z) (bs : list (list jsstring)) :
  Forall (fun b => 1 <= len b <= MAX_BATCH_SIZE) bs ->
  forall (completed : Z) (h : list event),
  exists (k : nat) (e : list event),
    (embedAll mistral onProgress total completed bs h).2 = h ++ e
    /\ (k <= length bs)%nat
    /\ provider_calls e = take k bs
    /\ pauses e = replicate (pred k) 31000
    /\ rate_limited true e = true
    /\ (length (progress_reports e) <= k)%nat
    /\ (mistral = None -> k = O)
    /\ (is_Some mistral -> bs <> [] -> (1 <= k)%nat)
    /\ (forall vectors,
          (embedAll mistral onProgress total completed bs h).1
          = Returned vectors -> k = length bs).
Proof.
  induction 1 as [|b rest Hb Hrest IH]; intros completed h.
  { exists O, []. simpl. rewrite app_nil_r.
    repeat split; done. }
  destruct mistral as [client|].
  2:{ exists O, [].
      rewrite (embedAll_cons_threw None _ _ _ _ _ h h _
                 (createEmbeddings_no_client b h)).
      simpl. rewrite app_nil_r. repeat split; try done; lia. }
  pose proof (createEmbeddings_cases client b h Hb) as Hc. cbv zeta in Hc.
  destruct (embeddings_create client h MISTRAL_EMBED_MODEL b)
    as [[msg|msg|msg|msg]|response] eqn:E.
  1-4: rewrite (embedAll_cons_threw _ _ _ _ _ _ _ _ _ Hc); simpl;
    rewrite <- ?app_assoc;
    eexists 1%nat, _; (split; [reflexivity|]); simpl;
    repeat split; try done; lia.
  rewrite (embedAll_cons_returned _ _ _ _ _ _ _ _ _ Hc).
  match goal with
  | |- context [bind _ _ ?h2] =>
      destruct (IH (completed + len b) h2)
        as (k & e & He & Hk & Hcalls & Hpauses & Hrate & Hprog & _ & Hone
            & Hall)
  end.
  unfold bind at 1 2.
  destruct (embedAll (Some client) onProgress total (completed + len b) rest _)
    as [[vs|err|] h3] eqn:Eall; simpl in He; subst h3; simpl;
    rewrite <- ?app_assoc.
  all: eexists (S k), _; (split; [reflexivity|]).
  all: rewrite !provider_calls_app, !pauses_app, !progress_reports_app.
  all: split; [simpl; lia|].
  all: split;
    [by destruct onProgress, rest; simpl; rewrite Hcalls|].
  all: split;
    [destruct rest as [|b' rest];
       [assert (k = O) as -> by (simpl in Hk; lia);
        by destruct onProgress; simpl; rewrite Hpauses
       |specialize (Hone ltac:(done) ltac:(done));
        destruct k as [|k]; [lia|];
        by destruct onProgress; simpl; rewrite Hpauses]|].
  all: split;
    [destruct rest as [|b' rest];
       [rewrite take_nil in Hcalls;
        by destruct onProgress; simpl; apply rate_limited_no_calls
       |by destruct onProgress; simpl]|].
  all: split; [destruct onProgress, rest; simpl; lia|].
  all: split; [done|]. all: split; [intros; lia|].
  all: intros vectors [= <-]; simpl; f_equal; eauto.
Qed.

(** X12: the batched requests, whatever the provider answers.  The requests
    sent are the first [k] batches of the input, in order; the run pauses
    31 s between any two of them and never sends two requests without such
    a pause; it reports progress at most once a request; a failed request
    ends the run, so that only a run that sent every batch returns; and
    without a client no request is sent. *)
Theorem createEmbeddingsBatched_fails_fast (mistral : option (Client vector))
  (texts : list jsstring) (onProgress : bool) (h : list event) :
  let r := createEmbeddingsBatched mistral texts onProgress h in
  exists k : nat,
    (k <= length (batches texts))%nat
    /\ h `prefix_of` r.2
    /\ provider_calls r.2 = provider_calls h ++ take k (batches texts)
    /\ pauses r.2 = pauses h ++ replicate (pred k) 31000
    /\ rate_limited true (drop (length h) r.2) = true
    /\ (length (progress_reports r.2)
        <= length (progress_reports h) + k)%nat
    /\ (mistral = None -> k = O)
    /\ (forall vectors, r.1 = Returned vectors -> k = length (batches texts)).
Proof.
  intros r. subst r. rewrite createEmbeddingsBatched_refines.
  destruct (embedAll_trace mistral onProgress (len texts) (batches texts)
              (batches_sizes texts) 0 h)
    as (k & e & He & Hk & Hcalls & Hpauses & Hrate & Hprog & Hnone & _ & Hall).
  exists k. rewrite He.
  rewrite provider_calls_app, pauses_app, progress_reports_app, length_app,
    drop_app_length, Hcalls, Hpauses.
  repeat split; try done; [by apply prefix_app_r|lia].
Qed.

(** The number of batches is the number of texts over 16, rounded up. *)
Lemma pieces_length {A} (fuel : nat) (l : list A) :
  (length l <= fuel)%nat ->
  len (pieces fuel (Z.to_nat MAX_BATCH_SIZE) l) = Math_ceil_div (len l) 16.
Proof.
  revert l. induction fuel as [|fuel IH]; intros l Hfuel.
  - destruct l; [|simpl in Hfuel; lia]. by rewrite Math_ceil_div_0.
  - destruct l as [|a l]; [by rewrite Math_ceil_div_0|].
    rewrite pieces_cons by done. unfold len at 1. cbn [length].
    rewrite Nat2Z.inj_succ. fold (len (pieces fuel (Z.to_nat MAX_BATCH_SIZE)
                                         (drop (Z.to_nat MAX_BATCH_SIZE) (a :: l)))).
    rewrite IH by (rewrite length_drop; simpl in *; lia).
    pose proof (Math_ceil_div_spec (len (a :: l)) 16) as H1.
    pose proof (Math_ceil_div_spec
                  (len (drop (Z.to_nat MAX_BATCH_SIZE) (a :: l))) 16) as H2.
    cbv zeta in H1, H2. unfold len in *. rewrite length_drop in *.
    unfold MAX_BATCH_SIZE in *. simpl length in *. lia.
Qed.

Lemma batched_events_calls (onProgress : bool) (total : Z)
  (bs : list (list jsstring)) (completed : Z) :
  provider_calls (batched_events onProgress total completed bs) = bs.
Proof.
  revert completed. induction bs as [|b rest IH]; intros completed; [done|].
  cbn [batched_events]. rewrite !provider_calls_app, IH.
  by destruct onProgress, rest.
Qed.

Lemma batched_events_pauses (onProgress : bool) (total : Z)
  (bs : list (list jsstring)) (completed : Z) :
  pauses (batched_events onProgress total completed bs)
  = replicate (pred (length bs)) 31000.
Proof.
  revert completed. induction bs as [|b rest IH]; intros completed; [done|].
  cbn [batched_events]. rewrite !pauses_app, IH.
  by destruct onProgress, rest.
Qed.

Lemma timeline_app (h1 h2 : list event) :
  timeline (h1 ++ h2) = timeline h1 ++ timeline h2.
Proof. unfold timeline. apply omap_app. Qed.

Lemma batched_events_timeline (onProgress : bool) (total : Z)
  (bs : list (list jsstring)) (completed : Z) :
  timeline (batched_events onProgress total completed bs)
  = with_pauses 31000 bs.
Proof.
  revert completed. induction bs as [|b rest IH]; intros completed; [done|].
  cbn [batched_events with_pauses]. rewrite !timeline_app, IH.
  by destruct onProgress, rest.
Qed.

Lemma batched_events_silent (total : Z) (bs : list (list jsstring))
  (completed : Z) :
  progress_reports (batched_events false total completed bs) = [].
Proof.
  revert completed. induction bs as [|b rest IH]; intros completed; [done|].
  cbn [batched_events]. rewrite !progress_reports_app, IH.
  by destruct rest.
Qed.

(** The progress reported after each batch is what the source computes from
    the loop counter: [Math.min(i + 16, texts.length)]. *)
Lemma batched_events_progress (total : Z) (fuel : nat) (l : list jsstring)
  (completed : Z) :
  (length l <= fuel)%nat ->
  progress_reports
    (batched_events true total completed
       (pieces fuel (Z.to_nat MAX_BATCH_SIZE) l))
  = map (fun j : nat =>
           (completed + Z.min (16 * (Z.of_nat j + 1)) (len l), total))
        (seq 0 (length (pieces fuel (Z.to_nat MAX_BATCH_SIZE) l))).
Proof.
  revert l completed. induction fuel as [|fuel IH]; intros l completed Hfuel.
  - by destruct l.
  - destruct l as [|a l]; [done|].
    rewrite pieces_cons by done. cbn [batched_events length seq map].
    rewrite !progress_reports_app.
    rewrite IH by (rewrite length_drop; simpl in *; lia).
    rewrite <- seq_shift, map_map.
    assert (len (take (Z.to_nat MAX_BATCH_SIZE) (a :: l))
            = Z.min 16 (len (a :: l))) as Htake.
    { unfold len. rewrite length_take. unfold MAX_BATCH_SIZE. lia. }
    rewrite Htake.
    replace (progress_reports
               match pieces fuel (Z.to_nat MAX_BATCH_SIZE)
                       (drop (Z.to_nat MAX_BATCH_SIZE) (a :: l)) with
               | [] => []
               | _ :: _ =>
                   [LoggerDebug "Rate limiting: waiting 31s before next batch";
                    SetTimeout 31000]
               end) with (@nil (Z * Z))
      by (by destruct (pieces _ _ _)).
    change (progress_reports [EmbeddingsCreate _ _]) with (@nil (Z * Z)).
    change (progress_reports [OnProgress ?c ?t]) with [(c, t)].
    cbn [app]. apply (f_equal2 cons); [f_equal; lia|].
    destruct (decide (length (a :: l) <= 16)%nat) as [Hle|Hgt].
    + rewrite pieces_rest_nil; [done|by unfold MAX_BATCH_SIZE].
    + apply map_ext. intros j. f_equal.
      unfold len. rewrite length_drop. unfold MAX_BATCH_SIZE. lia.
Qed.

(** X13: what embedding [n] texts costs when every request is answered:
    [Math.ceil(n / 16)] requests, one for each batch in order; a pause of
    31 s between any two requests that follow each other, hence before each
    request but the first, and no other pause; and, when asked for, one
    progress report after each request, [(min(16 (j + 1), n), n)] after the
    [j]-th. *)
Theorem createEmbeddingsBatched_cost (embed : list jsstring -> list vector)
  (texts : list jsstring) (onProgress : bool) (h : list event) :
  let r := createEmbeddingsBatched (Some (answering embed)) texts onProgress h in
  let n := len texts in
  let requests := Math_ceil_div n 16 in
  len (batches texts) = requests
  /\ provider_calls r.2 = provider_calls h ++ batches texts
  /\ timeline (drop (length h) r.2) = with_pauses 31000 (batches texts)
  /\ pauses r.2 = pauses h ++ replicate (Z.to_nat (requests - 1)) 31000
  /\ progress_reports r.2
     = progress_reports h
       ++ (if onProgress
           then map (fun j : nat => (Z.min (16 * (Z.of_nat j + 1)) n, n))
                  (seq 0 (Z.to_nat requests))
           else []).
Proof.
  intros r n requests. subst r n requests.
  assert (len (batches texts) = Math_ceil_div (len texts) 16) as Hn
    by by apply pieces_length.
  rewrite createEmbeddingsBatched_refines,
    (embedAll_answering onProgress embed) by apply batches_sizes.
  cbn [snd]. rewrite provider_calls_app, pauses_app, progress_reports_app.
  rewrite drop_app_length, batched_events_timeline.
  rewrite batched_events_calls, batched_events_pauses.
  split; [done|]. split; [done|]. split; [done|].
  split;
    [by replace (Z.to_nat (Math_ceil_div (len texts) 16 - 1))
       with (pred (length (batches texts)))
       by (rewrite <- Hn; unfold len; lia)|].
  f_equal. destruct onProgress; [|apply batched_events_silent].
  unfold batches. rewrite batched_events_progress by done.
  fold (batches texts).
  replace (Z.to_nat (Math_ceil_div (len texts) 16))
    with (length (batches texts)) by (rewrite <- Hn; unfold len; lia).
  apply map_ext. intros j. by rewrite Z.add_0_l.
Qed.

End BatchedMore.

(** ** The vector index *)

Section PineconeTheorems.

Import Eff Pinecone.

Context {service : Type}.

Lemma creations_app (h1 h2 : list event) :
  creations (h1 ++ h2) = creations h1 ++ creations h2.
Proof. unfold creations. apply omap_app. Qed.


Lemma queries_app (h1 h2 : list event) :
  queries (h1 ++ h2) = queries h1 ++ queries h2.
Proof. unfold queries. apply omap_app. Qed.

(** Whether the listing names the index of the application. *)
Local Abbreviation names_the_index l :=
  (existsb (fun idx => String.eqb (index_name idx) PINECONE_INDEX_NAME) l).

(** The index that [ensureIndexExists] asks for. *)
Local Abbreviation the_index :=
  {| name := PINECONE_INDEX_NAME;
     dimension := Pinecone.MISTRAL_EMBED_DIMENSION;
     metric := "cosine";
     cloud := "aws";
     region := "us-east-1";
     waitUntilReady := true |}.

(** The runs of [ensureIndexExists] with a client, by the answers of the
    service. *)
Lemma ensureIndexExists_cases (client : Client service) (s : service)
  (h : list event) :
  ensureIndexExists (Some client) (s, h)
  = match listIndexes client s with
    | inl err => (Threw err, (s, h ++ [ListIndexes]))
    | inr l =>
        if default false (existsb
                            (fun idx => String.eqb (index_name idx)
                                          PINECONE_INDEX_NAME)
                            <$> indexes l)
        then (Returned tt, (s, h ++ [ListIndexes]))
        else
          match createIndex client the_index s with
          | inl err =>
              (Threw err,
               (s, h ++ [ListIndexes; LoggerInfo "Creating Pinecone index";
                         CreateIndex the_index]))
          | inr s' =>
              (Returned tt,
               (s', h ++ [ListIndexes; LoggerInfo "Creating Pinecone index";
                          CreateIndex the_index;
                          LoggerInfo "Created Pinecone index"]))
          end
    end.
Proof.
  unfold ensureIndexExists, bind at 1, call_listIndexes. cbn [fst snd].
  destruct (listIndexes client s) as [err|l]; [done|].
  destruct (default false _); cbn [negb]; [done|].
  unfold bind, emit, modify, call_createIndex. cbn [fst snd].
  rewrite <- !app_assoc. cbn [app].
  by destruct (createIndex client the_index s) as [err|s'];
    cbn [fst snd]; rewrite <- ?app_assoc.
Qed.


(** X15: on a service that lists what it creates, [ensureIndexExists] is
    idempotent: once a run has returned, a further run returns as well,
    creates nothing and leaves the service as it is. *)
Theorem ensureIndexExists_idempotent (client : Client service) (s : service)
  (h : list event) :
  lists_what_it_creates client ->
  (ensureIndexExists (Some client) (s, h)).1 = Returned tt ->
  let first := ensureIndexExists (Some client) (s, h) in
  let second := ensureIndexExists (Some client) first.2 in
  second = (Returned tt, (first.2.1, first.2.2 ++ [ListIndexes])).
Proof.
  intros Hlawful Hreturned first second. subst first second.
  revert Hreturned. rewrite (ensureIndexExists_cases client s h).
  destruct (listIndexes client s) as [err|l] eqn:El; [done|].
  destruct (default false _) eqn:Ex; cbn [fst snd].
  - intros _. by rewrite ensureIndexExists_cases, El, Ex.
  - destruct (createIndex client the_index s) as [err|s'] eqn:Ec; [done|].
    intros _. cbn [fst snd].
    destruct (Hlawful _ _ _ Ec) as (l' & El' & Ex').
    rewrite ensureIndexExists_cases, El'. cbn [indexes fmap option_fmap
      option_map default]. cbn [name] in Ex'. by rewrite Ex'.
Qed.

(** X16: the keep-alive ping.  Without a client [getIndex],
    [getNamespacedIndex] and [keepAlive] throw and nothing is sent; with a
    client [keepAlive] sends one query to the index that
    [ensureIndexExists] creates, outside the namespace of the content, for
    the nearest neighbour of the zero vector, whose dimension is that of
    the index and of the embeddings of [Mistral.ts]; the ping is logged only
    when the query was answered. *)
Theorem keepAlive_pings_the_index (pinecone : option (Client service))
  (s : service) (h : list event) :
  let r := keepAlive pinecone (s, h) in
  let probe := replicate 1024 0 in
  (pinecone = None ->
   (exists e, r = (Threw e, (s, h)))
   /\ (exists e, getIndex pinecone (s, h) = (Threw e, (s, h)))
   /\ (exists e, getNamespacedIndex pinecone (s, h) = (Threw e, (s, h))))
  /\ (forall client, pinecone = Some client ->
        r.2.1 = s
        /\ queries r.2.2
           = queries h ++ [(PINECONE_INDEX_NAME, None, probe, 1)]
        /\ creations r.2.2 = creations h
        /\ (LoggerInfo "Pinecone keep-alive ping sent" ∈ drop (length h) r.2.2
            <-> r.1 = Returned tt)
        /\ (r.1 = Returned tt
            <-> query client PINECONE_INDEX_NAME None probe 1 s = inr tt))
  /\ len probe = dimension the_index
  /\ len probe = Mistral.MISTRAL_EMBED_DIMENSION
  /\ name the_index = PINECONE_INDEX_NAME.
Proof.
  intros r probe. subst r probe.
  split; [intros ->; repeat split; by eexists|].
  split; [|done].
  intros client ->.
  unfold keepAlive, getIndex, bind, ret, call_query, emit, modify.
  cbn [fst snd target namespace_ index_client].
  change (Z.to_nat Pinecone.MISTRAL_EMBED_DIMENSION) with 1024%nat.
  destruct (query client PINECONE_INDEX_NAME None (replicate 1024 0) 1 s)
    as [err|[]]; cbn [fst snd];
    rewrite <- ?app_assoc, ?drop_app_length, !queries_app, !creations_app;
    cbn [queries creations omap app]; rewrite ?app_nil_r.
  - repeat split; try done.
    intros H. apply elem_of_cons in H as [H|H]; [done|].
    by apply elem_of_nil in H.
  - repeat split; try done. intros _. apply elem_of_cons. right.
    apply elem_of_cons. by left.
Qed.

End PineconeTheorems.

(** ** The tables and the webhook *)

Section SchemaFacts.

Import Eff Schema.

Lemma select_users_spec (x : string) (t : Tables) (u : User) :
  u ∈ select_users x t <-> u ∈ users t /\ clerkId u = x.
Proof. unfold select_users. by rewrite list_elem_of_filter, (comm and). Qed.

Lemma select_users_nil (x : string) (t : Tables) :
  select_users x t = [] <-> x ∉ clerkId <$> users t.
Proof.
  split.
  - intros E [u [-> Hu]]%list_elem_of_fmap.
    assert (u ∈ select_users (clerkId u) t) as H
      by by apply select_users_spec.
    rewrite E in H. by apply elem_of_nil in H.
  - intros H. destruct (select_users x t) as [|u l] eqn:E; [done|].
    exfalso. apply H.
    assert (u ∈ select_users x t) as [Hu <-]%select_users_spec
      by (rewrite E; apply elem_of_cons; by left).
    by apply list_elem_of_fmap_2.
Qed.

Lemma findFirst_None (x : string) (t : Tables) :
  findFirst x t = None <-> x ∉ clerkId <$> users t.
Proof.
  rewrite <- select_users_nil. unfold findFirst.
  by destruct (select_users x t).
Qed.

Lemma findFirst_Some (x : string) (t : Tables) (u : User) :
  findFirst x t = Some u -> u ∈ users t /\ clerkId u = x.
Proof.
  unfold findFirst. intros H. apply select_users_spec.
  destruct (select_users x t) as [|v l]; [done|].
  injection H as ->. apply elem_of_cons. by left.
Qed.

Lemma foldr_max_le (l : list Z) (i : Z) : i ∈ l -> i <= foldr Z.max 0 l.
Proof.
  induction l as [|a l IH]; [by intros ?%elem_of_nil|].
  intros [->|H]%elem_of_cons; simpl; [lia|]. specialize (IH H). lia.
Qed.

Lemma gen_random_uuid_fresh (t : Tables) :
  gen_random_uuid t ∉ id <$> users t.
Proof.
  intros H%foldr_max_le. unfold gen_random_uuid in H. lia.
Qed.

Lemma insert_users_new (x : string) (t : Tables) :
  x ∉ clerkId <$> users t ->
  insert_users x t
  = inr {| users := users t ++ [{| id := gen_random_uuid t; clerkId := x |}];
           documents_user_id := documents_user_id t;
           exercises_user_id := exercises_user_id t;
           responses_user_id := responses_user_id t |}.
Proof. intros H. unfold insert_users. by rewrite bool_decide_eq_false_2. Qed.

Lemma insert_users_constraints (x : string) (t t' : Tables) :
  constraints t -> insert_users x t = inr t' -> constraints t'.
Proof.
  intros (Hc & Hi & Hfk). unfold insert_users.
  destruct (bool_decide _) eqn:E; [done|]. intros [= <-].
  apply bool_decide_eq_false in E. unfold constraints. cbn [users
    documents_user_id exercises_user_id responses_user_id].
  rewrite !fmap_app. cbn [fmap list_fmap id clerkId].
  split; [|split].
  - apply NoDup_app. split; [done|]. split; [|apply NoDup_singleton].
    intros y Hy [->|[]%elem_of_nil]%elem_of_cons. done.
  - apply NoDup_app. split; [done|]. split; [|apply NoDup_singleton].
    intros y Hy [->|[]%elem_of_nil]%elem_of_cons.
    by apply (gen_random_uuid_fresh t).
  - intros i Hi'. apply elem_of_app. left. by apply Hfk.
Qed.

Lemma delete_users_constraints (x : string) (t t' : Tables) :
  constraints t -> delete_users x t = inr t' -> constraints t'.
Proof.
  intros (Hc & Hi & Hfk). unfold delete_users.
  destruct (existsb _ _) eqn:E; [done|]. intros [= <-].
  unfold constraints. cbn [users documents_user_id exercises_user_id
    responses_user_id].
  split; [|split].
  - apply (sublist_NoDup _ (clerkId <$> users t)); [done|].
    apply fmap_sublist, sublist_filter.
  - apply (sublist_NoDup _ (id <$> users t)); [done|].
    apply fmap_sublist, sublist_filter.
  - intros i Hi'. pose proof (Hfk i Hi') as [u [-> Hu]]%list_elem_of_fmap.
    apply list_elem_of_fmap_2, list_elem_of_filter. split; [|done].
    intros Hx.
    assert (existsb (fun u => referenced t (id u)) (select_users x t) = true)
      as E'; [|by rewrite E in E'].
    apply existsb_exists. exists u. split.
    + apply list_elem_of_In, select_users_spec. done.
    + by apply bool_decide_eq_true.
Qed.

End SchemaFacts.

Section WebhookTheorems.

Import Eff Schema ClerkWebhook.

Variable Webhook :
  string -> thrown + (string -> string * string * string -> option WebhookEvent).
Variable concurrent : Tables -> Tables.

(** The secret and the three headers are there and not empty. *)
Local Abbreviation complete secret req :=
  (truthy secret && truthy (svix_id req) && truthy (svix_timestamp req)
   && truthy (svix_signature req)).

(** The headers as [verify] gets them. *)
Local Abbreviation headers_of req :=
  (default "" (svix_id req), default "" (svix_timestamp req),
   default "" (svix_signature req)).

(** The event of a request that carries the secret's signature: none when
    the secret or a header is missing or empty, when the body is no JSON,
    when the [Webhook] cannot be built or when the signature is wrong. *)
Local Abbreviation verified secret req :=
  (if complete secret req
   then json req ≫= fun body =>
        match Webhook (default "" secret) with
        | inr verify => verify body (headers_of req)
        | inl _ => None
        end
   else None).

Local Abbreviation processed :=
  {| body := "Webhook processed"; status := 200 |}.

(** What the handler does with a verified event. *)
Lemma POST_verified (secret : option string) (req : Request)
  (evt : WebhookEvent) (w : World logline) :
  verified secret req = Some evt ->
  POST Webhook concurrent secret req w
  = match evt with
    | user_created id =>
        match findFirst id w.1 with
        | Some _ =>
            (Returned processed,
             (w.1, w.2 ++ [LoggerDebug "User already exists, skipping" id]))
        | None =>
            match insert_users id (concurrent w.1) with
            | inr t =>
                (Returned processed,
                 (t, w.2 ++ [LoggerInfo "Created user from webhook" id]))
            | inl err => (Threw err, (concurrent w.1, w.2))
            end
        end
    | user_deleted id =>
        if truthy id then
          match delete_users (default "" id) w.1 with
          | inr t =>
              (Returned processed,
               (t, w.2 ++ [LoggerInfo "Deleted user from webhook"
                             (default "" id)]))
          | inl err => (Threw err, w)
          end
        else (Returned processed, w)
    | other type =>
        (Returned processed,
         (w.1, w.2 ++ [LoggerDebug "Unhandled webhook event" type]))
    end.
Proof.
  unfold POST. cbv zeta. destruct w as [t h].
  destruct (truthy secret); [|done].
  destruct (truthy (svix_id req)); [|done].
  destruct (truthy (svix_timestamp req)); [|done].
  destruct (truthy (svix_signature req)); [|done].
  cbn [andb negb orb]. destruct (json req) as [b|]; [|done].
  cbn [mbind option_bind].
  destruct (Webhook (default "" secret)) as [err|verify]; [done|].
  intros Hv. unfold bind at 1, ret at 1. cbv beta iota.
  unfold bind at 1, ret at 1. cbv beta iota. rewrite Hv.
  destruct evt as [id|id|type].
  - unfold bind at 1 2, query, gets, findFirst. cbn [fst snd].
    destruct (head (select_users id t)) as [u|]; [done|].
    unfold bind, interleave, execute, emit, modify, ret. cbn [fst snd].
    by destruct (insert_users id (concurrent t)).
  - destruct (truthy id); [|done].
    unfold bind, execute, emit, modify, ret. cbn [fst snd].
    by destruct (delete_users (default "" id) t).
  - done.
Qed.

(** What the handler does with any other request. *)
Lemma POST_unverified (secret : option string) (req : Request)
  (w : World logline) :
  verified secret req = None ->
  POST Webhook concurrent secret req w
  = if negb (truthy secret) then
      (Returned {| body := "Webhook secret not configured"; status := 500 |},
       (w.1, w.2 ++ [LoggerError
                       "Missing CLERK_WEBHOOK_SECRET environment variable"]))
    else if negb (truthy (svix_id req) && truthy (svix_timestamp req)
                  && truthy (svix_signature req)) then
      (Returned {| body := "Missing Svix headers"; status := 400 |},
       (w.1, w.2 ++ [LoggerWarn "Missing Svix headers in webhook request"]))
    else
      match json req with
      | None => (Threw SyntaxError, w)
      | Some _ =>
          match Webhook (default "" secret) with
          | inl err => (Threw err, w)
          | inr _ =>
              (Returned {| body := "Invalid signature"; status := 400 |},
               (w.1, w.2 ++ [LoggerError "Webhook verification failed"]))
          end
      end.
Proof.
  unfold POST. cbv zeta. destruct w as [t h].
  destruct (truthy secret); [|done].
  destruct (truthy (svix_id req)); [|done].
  destruct (truthy (svix_timestamp req)); [|done].
  destruct (truthy (svix_signature req)); [|done].
  cbn [andb negb orb]. destruct (json req) as [b|]; [|done].
  cbn [mbind option_bind].
  destruct (Webhook (default "" secret)) as [err|verify]; [done|].
  intros Hv. unfold bind at 1, ret at 1. cbv beta iota.
  unfold bind at 1, ret at 1. cbv beta iota. by rewrite Hv.
Qed.

(** The lines of one run: one line or none. *)
Local Ltac one_line :=
  first [ eexists [_]; split; [reflexivity|simpl; lia]
        | exists []; split; [by rewrite app_nil_r|simpl; lia] ].

(** X17: the answers of the webhook.  It answers 500 exactly when the
    secret is missing or empty.  It answers 400 exactly when the secret is
    there and either a Svix header is missing or empty, or the body is
    JSON, the [Webhook] is built and the signature does not verify.  It
    answers 200 only for an event that verifies, and for such an event it
    answers 200 unless the database refuses a statement, in which case it
    throws the error of the database.  A run that is not verified leaves
    the tables as they are, and every run logs at most one line. *)
Theorem POST_answers (secret : option string) (req : Request)
  (w : World logline) :
  let r := POST Webhook concurrent secret req w in
  ((exists response, r.1 = Returned response /\ status response = 500)
   <-> truthy secret = false)
  /\ ((exists response, r.1 = Returned response /\ status response = 400)
      <-> truthy secret = true
          /\ (complete secret req = false
              \/ exists b verify,
                   json req = Some b
                   /\ Webhook (default "" secret) = inr verify
                   /\ verify b (headers_of req) = None))
  /\ ((exists response, r.1 = Returned response /\ status response = 200)
      -> is_Some (verified secret req))
  /\ (is_Some (verified secret req) ->
      r.1 = Returned processed \/ exists code, r.1 = Threw (QueryError code))
  /\ (forall response, r.1 = Returned response ->
        status response = 200 \/ status response = 400
        \/ status response = 500)
  /\ (verified secret req = None -> r.2.1 = w.1)
  /\ (exists logged, r.2.2 = w.2 ++ logged /\ (length logged <= 1)%nat)
  /\ r.1 <> OutOfFuel.
Proof.
  intros r. assert (r = POST Webhook concurrent secret req w) as Hrun by done.
  clearbody r. destruct (verified secret req) as [evt|] eqn:Ev.
  - rewrite (POST_verified _ _ _ _ Ev) in Hrun.
    assert (truthy secret = true /\ complete secret req = true
            /\ exists b verify,
                 json req = Some b
                 /\ Webhook (default "" secret) = inr verify
                 /\ verify b (headers_of req) = Some evt)
      as (Hs & Hc & b & verify & Hb & Hw & Hv).
    { destruct (truthy secret); [|done].
      destruct (truthy (svix_id req)); [|done].
      destruct (truthy (svix_timestamp req)); [|done].
      destruct (truthy (svix_signature req)); [|done].
      split; [done|]. split; [done|].
      destruct (json req) as [b|]; [|done]. cbn [mbind option_bind] in Ev.
      destruct (Webhook (default "" secret)) as [err|verify]; [done|].
      by exists b, verify. }
    assert (forall o (w' : World logline),
               o = Returned processed \/ (exists code, o = Threw (QueryError code)) ->
               ((exists response, (o, w').1 = Returned response
                                  /\ status response = 500)
                <-> truthy secret = false)
               /\ ((exists response, (o, w').1 = Returned response
                                     /\ status response = 400)
                   <-> truthy secret = true
                       /\ (complete secret req = false
                           \/ exists b verify,
                                json req = Some b
                                /\ Webhook (default "" secret) = inr verify
                                /\ verify b (headers_of req) = None))
               /\ ((exists response, (o, w').1 = Returned response
                                     /\ status response = 200)
                   -> is_Some (Some evt))
               /\ (is_Some (Some evt) ->
                   (o, w').1 = Returned processed
                   \/ exists code, (o, w').1 = Threw (QueryError code))
               /\ (forall response, (o, w').1 = Returned response ->
                     status response = 200 \/ status response = 400
                     \/ status response = 500)) as Hout.
    { intros o w' Ho. cbn [fst]. rewrite Hc, Hs.
      split; [split; [|done]|].
      { intros (resp & Hr & Hst).
        destruct Ho as [->|[code ->]]; [|done]. by injection Hr as <-. }
      split; [split|].
      { intros (resp & Hr & Hst).
        destruct Ho as [->|[code ->]]; [|done]. by injection Hr as <-. }
      { intros [_ [?|(b' & verify' & Hb' & Hw' & Hv')]]; [done|].
        rewrite Hb in Hb'. injection Hb' as <-.
        rewrite Hw in Hw'. injection Hw' as <-. by rewrite Hv in Hv'. }
      split; [by eexists|]. split; [done|].
      intros resp Hr. destruct Ho as [->|[code ->]]; [|done].
      injection Hr as <-. by left. }
    assert (exists o w',
               r = (o, w')
               /\ (o = Returned processed
                   \/ exists code, o = Threw (QueryError code))
               /\ (exists logged, w'.2 = w.2 ++ logged
                                  /\ (length logged <= 1)%nat)
               /\ o <> OutOfFuel) as (o & w' & -> & Ho & Hlog & Hfuel).
    { rewrite Hrun. clear Hrun. destruct w as [t h]. cbn [fst snd].
      destruct evt as [id|id|type].
      - destruct (findFirst id t).
        { eexists _, _. split; [done|]. split; [by left|].
          split; [one_line|done]. }
        unfold insert_users. destruct (bool_decide _).
        + eexists _, _. split; [done|]. split; [right; by eexists|].
          split; [one_line|done].
        + eexists _, _. split; [done|]. split; [by left|].
          split; [one_line|done].
      - destruct (truthy id).
        2:{ eexists _, _. split; [done|]. split; [by left|].
            split; [one_line|done]. }
        unfold delete_users. destruct (existsb _ _).
        + eexists _, _. split; [done|]. split; [right; by eexists|].
          split; [one_line|done].
        + eexists _, _. split; [done|]. split; [by left|].
          split; [one_line|done].
      - eexists _, _. split; [done|]. split; [by left|].
        split; [one_line|done]. }
    destruct (Hout o w' Ho) as (H1 & H2 & H3 & H4 & H5).
    split; [done|]. split; [done|]. split; [done|]. split; [done|].
    split; [done|]. split; [done|]. split; done.
  - rewrite (POST_unverified _ _ _ Ev) in Hrun. subst r. destruct w as [t h].
    destruct (truthy secret) eqn:Hs; cbn [negb andb].
    2:{ cbn [fst snd status].
        split; [split; [done|by eexists]|].
        split; [split; [by intros (? & [= <-] & ?)|by intros [? _]]|].
        split; [by intros (? & [= <-] & ?)|].
        split; [by intros [? ?]|].
        split; [intros ? [= <-]; by right; right|].
        split; [done|]. split; [one_line|done]. }
    destruct (truthy (svix_id req) && truthy (svix_timestamp req)
              && truthy (svix_signature req)) eqn:Hc; cbn [negb].
    2:{ cbn [fst snd status].
        split; [split; [by intros (? & [= <-] & ?)|done]|].
        split; [split; [by intros _; split; [|left]|by eexists]|].
        split; [by intros (? & [= <-] & ?)|].
        split; [by intros [? ?]|].
        split; [intros ? [= <-]; by right; left|].
        split; [done|]. split; [one_line|done]. }
    destruct (json req) as [b|] eqn:Hb.
    2:{ cbn [fst snd].
        split; [split; [by intros (? & ? & ?)|done]|].
        split; [split; [by intros (? & ? & ?)|]|].
        { by intros [_ [?|(? & ? & ? & _)]]. }
        split; [by intros (? & ? & ?)|].
        split; [by intros [? ?]|]. split; [done|].
        split; [done|]. split; [one_line|done]. }
    cbn [mbind option_bind] in Ev.
    destruct (Webhook (default "" secret)) as [err|verify] eqn:Hw.
    + cbn [fst snd].
      split; [split; [by intros (? & ? & ?)|done]|].
      split; [split; [by intros (? & ? & ?)|]|].
      { by intros [_ [?|(? & ? & ? & ? & _)]]. }
      split; [by intros (? & ? & ?)|].
      split; [by intros [? ?]|]. split; [done|].
      split; [done|]. split; [one_line|done].
    + cbn [fst snd status]. cbn [andb] in Ev. rewrite Hc in Ev.
      split; [split; [by intros (? & [= <-] & ?)|done]|].
      split; [split; [intros _; split; [done|right]; by exists b, verify
                     |by eexists]|].
      split; [by intros (? & [= <-] & ?)|].
      split; [by intros [? ?]|].
      split; [intros ? [= <-]; by right; left|].
      split; [done|]. split; [one_line|done].
Qed.

(** X18: what the webhook throws, and when.  A run throws in four cases
    and no other: the body is no JSON; the [Webhook] cannot be built from
    the secret, which happens outside the [try]; the insert of
    [user.created] is refused by the unique constraint on [clerk_id]
    (error 23505), which happens exactly when the search did not find the
    user and another writer stored it before the insert; the delete of
    [user.deleted] is refused by a foreign key (error 23503).  A run that
    throws logs nothing and writes nothing itself. *)
Theorem POST_throws_only (secret : option string) (req : Request)
  (w : World logline) (err : thrown) :
  let r := POST Webhook concurrent secret req w in
  (r.1 = Threw err
   <-> (complete secret req = true /\ json req = None /\ err = SyntaxError)
       \/ (complete secret req = true /\ is_Some (json req)
           /\ Webhook (default "" secret) = inl err)
       \/ (err = QueryError unique_violation
           /\ exists id,
                verified secret req = Some (user_created id)
                /\ (id ∉ clerkId <$> users w.1)
                /\ id ∈ clerkId <$> users (concurrent w.1))
       \/ (err = QueryError foreign_key_violation
           /\ exists id,
                verified secret req = Some (user_deleted (Some id))
                /\ id <> EmptyString
                /\ existsb (fun u => referenced w.1 (Schema.id u))
                     (select_users id w.1) = true))
  /\ (r.1 = Threw err ->
      r.2.2 = w.2 /\ (r.2.1 = w.1 \/ r.2.1 = concurrent w.1)).
Proof.
  intros r. subst r.
  destruct (verified secret req) as [evt|] eqn:Ev.
  - rewrite (POST_verified _ _ _ _ Ev).
    assert (complete secret req = true
            /\ exists b verify,
                 json req = Some b
                 /\ Webhook (default "" secret) = inr verify)
      as (Hc & b & verify & Hb & Hw).
    { destruct (complete secret req); [|done]. split; [done|].
      destruct (json req) as [b|]; [|done]. cbn [mbind option_bind] in Ev.
      destruct (Webhook (default "" secret)) as [e|verify]; [done|].
      by exists b, verify. }
    rewrite Hc, Hb, Hw.
    assert (forall P Q : Prop,
               (P <-> Q) ->
               (P <-> (true = true /\ Some b = None /\ err = SyntaxError)
                      \/ (true = true /\ is_Some (Some b)
                          /\ @inr thrown _ verify = inl err)
                      \/ Q)) as Hskip.
    { intros P Q HPQ. rewrite HPQ. split; [by right; right|].
      by intros [(_ & ? & _)|[(_ & _ & ?)|?]]. }
    destruct evt as [id|id|type].
    + destruct (findFirst id w.1) as [u|] eqn:Ef; cbn [fst snd].
      { split; [|done]. apply Hskip. split; [done|].
        apply findFirst_Some in Ef as [Hu <-].
        intros [(_ & id' & [= <-] & Hno & _)|(_ & id' & [=] & _)].
        destruct Hno. by apply list_elem_of_fmap_2. }
      apply findFirst_None in Ef. unfold insert_users.
      destruct (bool_decide _) eqn:Ei; cbn [fst snd].
      * apply bool_decide_eq_true in Ei.
        split; [|intros _; split; [done|by right]].
        apply Hskip. split.
        -- intros [= <-]. left. split; [done|]. by exists id.
        -- by intros [[-> _]|[-> (id' & [=] & _)]].
      * apply bool_decide_eq_false in Ei.
        split; [|done]. apply Hskip. split; [done|].
        intros [(_ & id' & [= <-] & _ & Hin)|(_ & id' & [=] & _)]. done.
    + destruct (truthy id) eqn:Ht; cbn [fst snd].
      2:{ split; [|done]. apply Hskip. split; [done|].
          intros [(_ & id' & [=] & _)|(_ & id' & [= ->] & Hne & _)].
          cbn [truthy] in Ht. by destruct (String.eqb_spec id' ""). }
      destruct id as [id|]; [|done].
      change (default "" (Some id)) with id. unfold delete_users.
      destruct (existsb _ _) eqn:Ex; cbn [fst snd].
      * split; [|intros _; split; [done|by left]].
        apply Hskip. split.
        -- intros [= <-]. right. split; [done|]. exists id.
           split; [done|]. split; [|done].
           cbn [truthy] in Ht. by destruct (String.eqb_spec id "").
        -- by intros [[-> (id' & [=] & _)]|[-> _]].
      * split; [|done]. apply Hskip. split; [done|].
        intros [(_ & id' & [=] & _)|(_ & id' & [= <-] & _ & Hex)].
        by rewrite Ex in Hex.
    + cbn [fst snd]. split; [|done]. apply Hskip. split; [done|].
      by intros [(_ & id' & [=] & _)|(_ & id' & [=] & _)].
  - rewrite (POST_unverified _ _ _ Ev).
    assert (forall P : Prop,
               (P <-> (complete secret req = true /\ json req = None
                       /\ err = SyntaxError)
                      \/ (complete secret req = true /\ is_Some (json req)
                          /\ Webhook (default "" secret) = inl err)) ->
               (P <-> (complete secret req = true /\ json req = None
                       /\ err = SyntaxError)
                      \/ (complete secret req = true /\ is_Some (json req)
                          /\ Webhook (default "" secret) = inl err)
                      \/ (err = QueryError unique_violation
                          /\ exists id,
                               None = Some (user_created id)
                               /\ (id ∉ clerkId <$> users w.1)
                               /\ id ∈ clerkId <$> users (concurrent w.1))
                      \/ (err = QueryError foreign_key_violation
                          /\ exists id,
                               None = Some (user_deleted (Some id))
                               /\ id <> EmptyString
                               /\ existsb (fun u => referenced w.1 (Schema.id u))
                                    (select_users id w.1) = true))) as Hskip.
    { intros P ->. split; [intros [?|?]; [by left|by right; left]|].
      intros [?|[?|[(_ & ? & [=] & _)|(_ & ? & [=] & _)]]];
        [by left|by right]. }
    destruct (truthy secret) eqn:Hs; cbn [negb andb] in *.
    2:{ split; [|done]. apply Hskip. split; [done|].
        by intros [(? & _)|(? & _)]. }
    destruct (truthy (svix_id req) && truthy (svix_timestamp req)
              && truthy (svix_signature req)) eqn:Hc; cbn [negb].
    2:{ split; [|done]. apply Hskip. split; [done|].
        by intros [(? & _)|(? & _)]. }
    destruct (json req) as [b|] eqn:Hb.
    2:{ split; [|intros _; split; [done|by left]]. apply Hskip. split.
        - intros [= <-]. by left.
        - by intros [(_ & _ & ->)|(_ & [? ?] & _)]. }
    destruct (Webhook (default "" secret)) as [e|verify] eqn:Hw.
    + split; [|intros _; split; [done|by left]]. apply Hskip. split.
      * intros [= <-]. right. split; [done|]. split; [by eexists|done].
      * by intros [(_ & ? & _)|(_ & _ & [= ->])].
    + split; [|done]. apply Hskip. split; [done|].
      by intros [(_ & ? & _)|(_ & _ & ?)].
Qed.

(** After a verified [user.created] the user is in the table, whether the
    run stored the user, found the user or was refused the insert because
    another writer had stored the user in between. *)
Lemma POST_user_created_stores (secret : option string) (req : Request)
  (id : string) (w : World logline) :
  verified secret req = Some (user_created id) ->
  id ∈ clerkId <$> users (POST Webhook concurrent secret req w).2.1.
Proof.
  intros Ev. rewrite (POST_verified _ _ _ _ Ev).
  destruct (findFirst id w.1) as [u|] eqn:Ef; cbn [fst snd].
  - apply findFirst_Some in Ef as [Hu <-]. by apply list_elem_of_fmap_2.
  - destruct (decide (id ∈ clerkId <$> users (concurrent w.1))) as [Hin|Hout].
    + unfold insert_users. by rewrite bool_decide_eq_true_2.
    + rewrite insert_users_new by done.
      cbn [fst snd users]. rewrite fmap_app. apply elem_of_app. right.
      apply elem_of_cons. by left.
Qed.

(** X20: [user.created] may be delivered more than once.  After a
    verified delivery the user is in the table, and a second delivery run
    on the tables the first one left answers 200 and changes no table.
    The first delivery answers 200 or throws the error of the unique
    constraint (23505), the latter when another writer stored the user
    between the search and the insert.  When no other writer changes the
    tables between the search and the insert, the first delivery answers
    200, keeps the rows that were in [users], and leaves the user exactly
    once if [clerk_id] was unique before. *)
Theorem POST_user_created_idempotent (secret : option string) (req : Request)
  (id : string) (w : World logline) :
  verified secret req = Some (user_created id) ->
  let first := POST Webhook concurrent secret req w in
  let second := POST Webhook concurrent secret req first.2 in
  id ∈ clerkId <$> users first.2.1
  /\ second.1 = Returned {| body := "Webhook processed"; status := 200 |}
  /\ second.2.1 = first.2.1
  /\ (first.1 = Returned {| body := "Webhook processed"; status := 200 |}
      \/ first.1 = Threw (QueryError unique_violation))
  /\ (concurrent w.1 = w.1 ->
      first.1 = Returned {| body := "Webhook processed"; status := 200 |}
      /\ users w.1 `prefix_of` users first.2.1
      /\ (NoDup (clerkId <$> users w.1) ->
          length (select_users id first.2.1) = 1%nat)).
Proof.
  intros Ev first second.
  pose proof (POST_user_created_stores secret req id w Ev) as Hin.
  fold first in Hin. split; [done|].
  assert (forall t (h : list logline),
             id ∈ clerkId <$> users t ->
             (POST Webhook concurrent secret req (t, h)).1
             = Returned processed
             /\ (POST Webhook concurrent secret req (t, h)).2.1 = t) as Hagain.
  { intros t h Hin'. rewrite (POST_verified _ _ _ _ Ev). cbn [fst snd].
    destruct (findFirst id t) eqn:Ef; [done|].
    by apply findFirst_None in Ef. }
  split; [|split].
  { subst second. destruct first.2 as [t h]. by apply Hagain. }
  { subst second. destruct first.2 as [t h]. by apply Hagain. }
  clear Hin. subst first second.
  assert (NoDup (clerkId <$> users w.1) ->
          forall t, users t = users w.1 -> id ∈ clerkId <$> users t ->
          length (select_users id t) = 1%nat) as Hone.
  { intros Hnd t Ht Hin. unfold select_users. rewrite Ht.
    rewrite Ht in Hin. clear Ht.
    induction (users w.1) as [|u l IH]; [by apply elem_of_nil in Hin|].
    rewrite fmap_cons in Hnd, Hin. apply NoDup_cons in Hnd as [Hu Hl].
    rewrite filter_cons. destruct (decide (clerkId u = id)) as [E|E].
    - simpl. f_equal. apply length_zero_iff_nil.
      apply (select_users_nil id {| users := l; documents_user_id := [];
                                    exercises_user_id := [];
                                    responses_user_id := [] |}).
      by rewrite <- E.
    - apply IH; [done|]. apply elem_of_cons in Hin as [Hin|Hin]; done. }
  rewrite (POST_verified _ _ _ _ Ev).
  destruct (findFirst id w.1) as [u|] eqn:Ef; cbn [fst snd].
  - apply findFirst_Some in Ef as [Hu <-].
    assert (clerkId u ∈ clerkId <$> users w.1) as Hin
      by by apply list_elem_of_fmap_2.
    split; [by left|]. intros _. split; [done|]. split; [done|].
    intros Hnd; by apply Hone.
  - apply findFirst_None in Ef. split.
    { unfold insert_users. destruct (bool_decide _); [by right|by left]. }
    intros ->. rewrite insert_users_new by done. cbn [fst snd users].
    split; [done|]. split; [by apply prefix_app_r|].
    intros _. unfold select_users. cbn [users]. rewrite filter_app.
    replace (filter (fun u => clerkId u = id) (users w.1)) with (@nil User)
      by (symmetry; by apply select_users_nil).
    rewrite filter_cons. cbn [clerkId]. by rewrite decide_True.
Qed.

(** X21: [user.deleted].  The handler's comment counts on a cascade, but the
    foreign keys on [users.id] are [ON DELETE no action]: the deletion of a
    user to whom a document, an exercise or a response refers is refused,
    the handler throws and the user stays.  Otherwise the answer is 200,
    no row of the user is left and the other users are kept.  An event
    without an [id], or with an empty one, deletes nothing. *)
Theorem POST_user_deleted (secret : option string) (req : Request)
  (id : option string) (w : World logline) :
  verified secret req = Some (user_deleted id) ->
  let r := POST Webhook concurrent secret req w in
  let owned :=
    existsb (fun u => referenced w.1 (Schema.id u))
      (select_users (default "" id) w.1) in
  (truthy id = false ->
   r = (Returned {| body := "Webhook processed"; status := 200 |}, w))
  /\ (truthy id = true -> owned = true ->
      r = (Threw (QueryError foreign_key_violation), w))
  /\ (truthy id = true -> owned = false ->
      r.1 = Returned {| body := "Webhook processed"; status := 200 |}
      /\ select_users (default "" id) r.2.1 = []
      /\ (forall u, u ∈ users r.2.1
                    <-> u ∈ users w.1 /\ clerkId u <> default "" id)
      /\ documents_user_id r.2.1 = documents_user_id w.1
      /\ exercises_user_id r.2.1 = exercises_user_id w.1
      /\ responses_user_id r.2.1 = responses_user_id w.1).
Proof.
  intros Ev r owned. subst r owned. rewrite (POST_verified _ _ _ _ Ev).
  destruct (truthy id); [|done].
  split; [done|]. unfold delete_users.
  destruct (existsb _ _); (split; [done|]); intros _ [=].
  cbn [fst snd users documents_user_id exercises_user_id responses_user_id].
  split; [done|]. split; [|split; [|done]].
  - apply select_users_nil. cbn [users].
    intros [u [E Hu]]%list_elem_of_fmap.
    by apply list_elem_of_filter in Hu as [Hne _].
  - intros u. by rewrite list_elem_of_filter, (comm and).
Qed.

(** X22: the webhook and [requireUser].  Before the webhook has stored the
    user, [requireUser] throws for a signed-in user; once a verified
    [user.created] with a non-empty [id] was handled, it returns the row of
    the user. *)
Theorem requireUser_after_webhook (secret : option string) (req : Request)
  (id : string) (w : World logline) :
  verified secret req = Some (user_created id) ->
  id <> EmptyString ->
  let synced := (POST Webhook concurrent secret req w).2 in
  (id ∉ clerkId <$> users w.1 ->
   Auth.requireUser (Some id) w
   = (Threw (Error "User not found in database. Webhook may not have synced yet."),
      w))
  /\ exists user,
       Auth.requireUser (Some id) synced = (Returned user, synced)
       /\ clerkId user = id
       /\ user ∈ users synced.1.
Proof.
  intros Ev Hid synced.
  assert (truthy (Some id) = true) as Ht.
  { cbn [truthy]. destruct (String.eqb_spec id ""); done. }
  unfold Auth.requireUser, Auth.getCurrentUser, bind, query, gets.
  rewrite Ht. cbn [negb]. change (default "" (Some id)) with id.
  cbv beta. split.
  - intros Hno%findFirst_None. by rewrite Hno.
  - pose proof (POST_user_created_stores secret req id w Ev) as Hin.
    fold synced in Hin.
    destruct (findFirst id synced.1) as [u|] eqn:Ef.
    + exists u. apply findFirst_Some in Ef as [Hu Hc]. by destruct synced.
    + by apply findFirst_None in Ef.
Qed.

End WebhookTheorems.

Section AuthTheorems.

Import Eff Schema Auth.

Context {line : Type}.

(** X23: the helpers of authentication read and never write.
    [requireUser] returns a row exactly when somebody is signed in, with a
    non-empty identifier, and the table holds a row with that identifier,
    which is the row returned; whenever it returns, [requireAuth] returns
    the identifier of that row; and [requireAuth] throws exactly when the
    identifier is missing or empty. *)
Theorem requireUser_spec (userId : option string) (w : World line) :
  let r := requireUser userId w in
  r.2 = w
  /\ (getCurrentUser userId w).2 = w
  /\ (requireAuth userId w).2 = w
  /\ (forall user,
        r.1 = Returned user
        <-> truthy userId = true
            /\ findFirst (default "" userId) w.1 = Some user)
  /\ (forall user,
        r.1 = Returned user ->
        user ∈ users w.1
        /\ userId = Some (clerkId user)
        /\ requireAuth userId w = (Returned (clerkId user), w))
  /\ (r.1 = Threw (Error "User not found in database. Webhook may not have synced yet.")
      <-> (getCurrentUser userId w).1 = Returned None)
  /\ ((requireAuth userId w).1 = Threw (Error "Authentication required")
      <-> truthy userId = false).
Proof.
  intros r. subst r.
  unfold requireUser, requireAuth, getClerkUserId, getCurrentUser, bind,
    query, gets, ret, throw.
  destruct userId as [x|];
    [|cbn [truthy negb fst snd]; repeat split; try done; by intros [? _]].
  change (default "" (Some x)) with x.
  destruct (truthy (Some x)) eqn:Ht; cbn [negb fst snd].
  - destruct (findFirst x w.1) as [u|] eqn:Ef; cbn [fst snd].
    + apply findFirst_Some in Ef as [Hu <-].
      repeat split; try done; intros; destruct_and?; by simplify_eq.
    + repeat split; try done; by intros [_ ?].
  - repeat split; try done; by intros [? _].
Qed.

End AuthTheorems.

(** ** The script that copies the users of Clerk *)

Section SyncTheorems.

Import Eff Schema SyncUsers.

Lemma page_requests_app (h1 h2 : list line) :
  page_requests (h1 ++ h2) = page_requests h1 ++ page_requests h2.
Proof. unfold page_requests. apply omap_app. Qed.

(** Copying the two fields of each user gives the same users. *)
Lemma map_copy (l : list ClerkUser) :
  map (fun u => {| user_id := user_id u; createdAt := createdAt u |}) l = l.
Proof. induction l as [|[] l IH]; [done|]. simpl. by rewrite IH. Qed.

(** The loop over the pages of a Clerk that holds [all], entered at the
    [k]-th page. *)
Lemma fetch_loop_paging (all : list ClerkUser) (fuel : nat) :
  forall (k : nat) (acc : list ClerkUser) (t : Tables) (h : list line),
    (100 * k <= length all)%nat ->
    (length all / 100 - k < fuel)%nat ->
    fetch_loop (paging all) fuel (100 * Z.of_nat k) acc (t, h)
    = (Returned (acc ++ drop (100 * k) all),
       (t, h ++ map (fun j : nat => GetUserList 100 (100 * Z.of_nat j))
                  (seq k (S (length all / 100 - k))))).
Proof.
  pose proof (Nat.div_mod_eq (length all) 100) as Hdiv.
  pose proof (Nat.mod_upper_bound (length all) 100 ltac:(done)) as Hmod.
  induction fuel as [|fuel IH]; intros k acc t h Hk Hfuel; [lia|].
  cbn [fetch_loop]. unfold bind at 1, call_getUserList. cbn [fst snd].
  unfold paging at 1. unfold limit. change (Z.to_nat 100) with 100%nat.
  replace (Z.to_nat (100 * Z.of_nat k)) with (100 * k)%nat by lia.
  rewrite map_copy.
  destruct (len (take 100 (drop (100 * k) all)) <? 100) eqn:E.
  - apply Z.ltb_lt in E. unfold len in E.
    rewrite length_take, length_drop in E.
    assert (length all / 100 - k = 0)%nat as -> by lia.
    unfold ret. cbn [seq map]. rewrite take_ge; [done|].
    rewrite length_drop. lia.
  - apply Z.ltb_ge in E. unfold len in E.
    rewrite length_take, length_drop in E.
    replace (100 * Z.of_nat k + 100) with (100 * Z.of_nat (S k)) by lia.
    rewrite IH by lia.
    replace (S (length all / 100 - k))
      with (S (S (length all / 100 - S k))) by lia.
    cbn [seq map]. rewrite <- !app_assoc. cbn [app].
    do 2 f_equal. f_equal.
    replace (100 * S k)%nat with (100 * k + 100)%nat by lia.
    by rewrite <- drop_drop, take_drop.
Qed.

(** X24: the pages of Clerk.  From a Clerk that holds [all] users and
    answers each request with the page asked for, the loop reads every
    user, in order, with one request of 100 users at each of the offsets
    0, 100, 200, ..., the last of which returns fewer than 100 users (none
    when the number of users is a multiple of 100); [length all / 100 + 1]
    turns are enough for it. *)
Theorem fetch_loop_reads_all_pages (all : list ClerkUser) (extra : nat)
  (w : World line) :
  let pages := S (length all / 100) in
  fetch_loop (paging all) (pages + extra) 0 [] w
  = (Returned all,
     (w.1, w.2 ++ map (fun j : nat => GetUserList 100 (100 * Z.of_nat j))
                    (seq 0 pages))).
Proof.
  intros pages. subst pages. destruct w as [t h].
  rewrite (fetch_loop_paging all _ 0 [] t h) by lia.
  cbn [fst snd]. by rewrite Nat.sub_0_r, Nat.mul_0_r, drop_0.
Qed.

Section Interleaved.

(** What other writers do before each awaited statement of the loop. *)
Variable concurrent : Z -> Tables -> Tables.

(** One turn of the loop over the users: the select sees the table as the
    other writers left it, and so does the insert, one statement later. *)
Lemma sync_turn_run (u : ClerkUser) (c s : Z) (t : Tables) (h : list line) :
  sync_turn concurrent u (c, s) (t, h)
  = let seen := concurrent (2 * (c + s)) t in
    if bool_decide (user_id u ∈ clerkId <$> users seen) then
      (Returned (c, s + 1),
       (seen, h ++ [ConsoleLog ("  ⏭ User " +:+ user_id u
                                +:+ " already exists, skipping")]))
    else
      let written := concurrent (2 * (c + s) + 1) seen in
      match insert_users (user_id u) written with
      | inr t' =>
          (Returned (c + 1, s),
           (t', h ++ [ConsoleLog ("  ✓ Created user " +:+ user_id u)]))
      | inl err => (Threw err, (written, h))
      end.
Proof.
  unfold sync_turn. cbv zeta. cbn [fst snd].
  unfold bind at 1, interleave at 1, modify. cbn [fst snd].
  unfold bind at 1, query, gets. cbn [fst snd].
  destruct (bool_decide _) eqn:E.
  - apply bool_decide_eq_true in E.
    destruct (select_users (user_id u) _) as [|v l] eqn:Es;
      [by apply select_users_nil in Es|].
    done.
  - apply bool_decide_eq_false in E.
    rewrite (proj2 (select_users_nil _ _) E). cbn [take].
    change (0 <? len []) with false. cbv iota beta.
    unfold bind, interleave, execute, emit, modify, ret. cbn [fst snd].
    by destruct (insert_users _ _).
Qed.

Lemma turn_skips (u : ClerkUser) (c s : Z) (t : Tables) (h : list line) :
  (forall k t, concurrent k t = t) ->
  user_id u ∈ clerkId <$> users t ->
  sync_turn concurrent u (c, s) (t, h)
  = (Returned (c, s + 1),
     (t, h ++ [ConsoleLog ("  ⏭ User " +:+ user_id u
                           +:+ " already exists, skipping")])).
Proof.
  intros Halone Hin. rewrite sync_turn_run. cbv zeta. rewrite !Halone.
  by rewrite bool_decide_eq_true_2.
Qed.

Lemma turn_creates (u : ClerkUser) (c s : Z) (t : Tables) (h : list line) :
  (forall k t, concurrent k t = t) ->
  user_id u ∉ clerkId <$> users t ->
  sync_turn concurrent u (c, s) (t, h)
  = (Returned (c + 1, s),
     ({| users := users t ++ [{| id := gen_random_uuid t;
                                 clerkId := user_id u |}];
         documents_user_id := documents_user_id t;
         exercises_user_id := exercises_user_id t;
         responses_user_id := responses_user_id t |},
      h ++ [ConsoleLog ("  ✓ Created user " +:+ user_id u)])).
Proof.
  intros Halone Hin. rewrite sync_turn_run. cbv zeta. rewrite !Halone.
  rewrite bool_decide_eq_false_2 by done.
  by rewrite insert_users_new.
Qed.

Lemma for_of_cons_returned {S E A V} (body : A -> V -> M S E V) (x : A)
  (l : list A) (v v' : V) (s s' : S) :
  body x v s = (Returned v', s') ->
  for_of (x :: l) body v s = for_of l body v' s'.
Proof. intros H. cbn [for_of]. unfold bind. by rewrite H. Qed.

(** Whatever the other writers do, the loop returns or is refused an insert
    by the unique constraint on [clerk_id]. *)
Lemma sync_loop_outcome (allUsers : list ClerkUser) :
  forall (v : Z * Z) (w : World line),
    (exists counters,
        (for_of allUsers (sync_turn concurrent) v w).1 = Returned counters)
    \/ (for_of allUsers (sync_turn concurrent) v w).1
       = Threw (QueryError unique_violation).
Proof.
  induction allUsers as [|u l IH]; intros [c s] [t h]; cbn [for_of].
  { left. by eexists. }
  unfold bind. rewrite sync_turn_run. cbv zeta.
  destruct (bool_decide _); [apply IH|].
  unfold insert_users. destruct (bool_decide _); [by right|apply IH].
Qed.

(** The loop over the users, from any value of its counters. *)
Lemma sync_loop_from (allUsers : list ClerkUser) :
  (forall k t, concurrent k t = t) ->
  forall (c s : Z) (t : Tables) (h : list line),
  exists (created skipped : Z) (t' : Tables) (printed : list line),
    for_of allUsers (sync_turn concurrent) (c, s) (t, h)
    = (Returned (c + created, s + skipped), (t', h ++ printed))
    /\ 0 <= created /\ 0 <= skipped
    /\ created + skipped = len allUsers
    /\ (exists new, users t' = users t ++ new /\ len new = created
                    /\ forall x, x ∈ clerkId <$> new
                                 -> x ∈ user_id <$> allUsers)
    /\ (forall u, u ∈ allUsers -> user_id u ∈ clerkId <$> users t')
    /\ documents_user_id t' = documents_user_id t
    /\ exercises_user_id t' = exercises_user_id t
    /\ responses_user_id t' = responses_user_id t
    /\ (constraints t -> constraints t')
    /\ page_requests printed = []
    /\ PoolEnd ∉ printed.
Proof.
  intros Halone. induction allUsers as [|u l IH]; intros c s t h.
  { exists 0, 0, t, []. cbn [for_of]. unfold ret.
    rewrite !Z.add_0_r, app_nil_r.
    split; [done|]. split; [done|]. split; [done|]. split; [done|].
    split; [exists []; by rewrite app_nil_r|].
    split; [by intros ? ?%elem_of_nil|].
    split; [done|]. split; [done|]. split; [done|]. split; [done|].
    split; [done|]. by intros ?%elem_of_nil. }
  destruct (decide (user_id u ∈ clerkId <$> users t)) as [Hin|Hout].
  - rewrite (for_of_cons_returned (sync_turn concurrent) u l _ _ _ _
               (turn_skips u c s t h Halone Hin)).
    destruct (IH c (s + 1) t (h ++ [ConsoleLog ("  ⏭ User " +:+ user_id u
                           +:+ " already exists, skipping")]))
      as (cr & sk & t' & pr & -> & Hcr & Hsk & Hsum & (new & Hnew & Hlen & Hids)
          & Hall & Hd & He & Hr & Hc & Hp & Hpool).
    exists cr, (sk + 1), t'. eexists (_ :: pr).
    rewrite <- app_assoc. cbn [app].
    replace (s + (sk + 1)) with (s + 1 + sk) by lia.
    split; [done|]. split; [done|]. split; [lia|].
    split; [unfold len in *; cbn [length]; lia|].
    split; [exists new; repeat split; try done;
            intros x Hx; rewrite fmap_cons; apply elem_of_cons; right;
            by apply Hids|].
    split.
    { intros v [->|Hv]%elem_of_cons; [|by apply Hall].
      rewrite Hnew, fmap_app. apply elem_of_app. by left. }
    split; [done|]. split; [done|]. split; [done|]. split; [done|].
    split; [exact Hp|]. intros [?|?]%elem_of_cons; done.
  - rewrite (for_of_cons_returned (sync_turn concurrent) u l _ _ _ _
               (turn_creates u c s t h Halone Hout)).
    match goal with
    | |- context [for_of l _ _ (?t1, ?h1)] =>
        destruct (IH (c + 1) s t1 h1)
          as (cr & sk & t' & pr & -> & Hcr & Hsk & Hsum
              & (new & Hnew & Hlen & Hids)
              & Hall & Hd & He & Hr & Hc & Hp & Hpool)
    end.
    cbn [users documents_user_id exercises_user_id responses_user_id]
      in Hnew, Hd, He, Hr.
    exists (cr + 1), sk, t'. eexists (_ :: pr).
    rewrite <- app_assoc. cbn [app].
    replace (c + (cr + 1)) with (c + 1 + cr) by lia.
    split; [done|]. split; [lia|]. split; [done|].
    split; [unfold len in *; cbn [length]; lia|].
    split.
    { eexists (_ :: new). rewrite Hnew, <- app_assoc. cbn [app].
      split; [done|]. split; [unfold len in *; cbn [length]; lia|].
      intros x. rewrite !fmap_cons. cbn [clerkId].
      intros [->|Hx]%elem_of_cons; apply elem_of_cons; [by left|right].
      by apply Hids. }
    split.
    { intros v [->|Hv]%elem_of_cons; [|by apply Hall].
      rewrite Hnew, !fmap_app. apply elem_of_app. left.
      apply elem_of_app. right. apply elem_of_cons. by left. }
    split; [done|]. split; [done|]. split; [done|].
    split.
    { intros Hct. apply Hc.
      apply (insert_users_constraints (user_id u) t); [done|].
      by apply insert_users_new. }
    split; [exact Hp|]. intros [?|?]%elem_of_cons; done.
Qed.

(** A further run over users that are all in the table. *)
Lemma sync_loop_again (allUsers : list ClerkUser) :
  (forall k t, concurrent k t = t) ->
  forall (c s : Z) (t : Tables) (h : list line),
    (forall u, u ∈ allUsers -> user_id u ∈ clerkId <$> users t) ->
    exists printed,
      for_of allUsers (sync_turn concurrent) (c, s) (t, h)
      = (Returned (c, s + len allUsers), (t, h ++ printed)).
Proof.
  intros Halone. induction allUsers as [|u l IH]; intros c s t h Hall.
  { exists []. cbn [for_of]. unfold ret, len. simpl.
    by rewrite Z.add_0_r, app_nil_r. }
  rewrite (for_of_cons_returned (sync_turn concurrent) u l _ _ _ _
             (turn_skips u c s t h Halone
                (Hall u ltac:(apply elem_of_cons; by left)))).
  destruct (IH c (s + 1) t (h ++ [ConsoleLog ("  ⏭ User " +:+ user_id u
                           +:+ " already exists, skipping")]))
    as [pr ->]; [intros v Hv; apply Hall, elem_of_cons; by right|].
  eexists (_ :: pr). rewrite <- app_assoc. cbn [app].
  replace (s + len (u :: l)) with (s + 1 + len l); [done|].
  unfold len. cbn [length]. lia.
Qed.

(** X25: the loop over the users.  Whatever other writers do between its
    statements, the loop returns or throws the error of the unique
    constraint (23505), which an insert meets when another writer stored
    the user after the select.  When no other writer changes the tables
    while the loop runs, it does not fail and counts every user once:
    [created + skipped] is the number of users read, [created] is the
    number of rows added, every user read is in the table afterwards, the
    rows that were there are kept and the other tables and the constraints
    are untouched; a user that the list names twice is created once.  A
    second run over the same users then creates nothing. *)
Theorem sync_loop_counts (allUsers : list ClerkUser) (w : World line) :
  let r := sync_loop concurrent allUsers w in
  ((exists counters, r.1 = Returned counters)
   \/ r.1 = Threw (QueryError unique_violation))
  /\ ((forall k t, concurrent k t = t) ->
      exists created skipped : Z,
        r.1 = Returned (created, skipped)
        /\ 0 <= created /\ 0 <= skipped
        /\ created + skipped = len allUsers
        /\ len (users r.2.1) = len (users w.1) + created
        /\ users w.1 `prefix_of` users r.2.1
        /\ (forall x, x ∈ clerkId <$> users r.2.1
                      <-> x ∈ clerkId <$> users w.1
                          \/ x ∈ user_id <$> allUsers)
        /\ documents_user_id r.2.1 = documents_user_id w.1
        /\ exercises_user_id r.2.1 = exercises_user_id w.1
        /\ responses_user_id r.2.1 = responses_user_id w.1
        /\ (constraints w.1 -> constraints r.2.1)
        /\ (sync_loop concurrent allUsers r.2).1
           = Returned (0, len allUsers)
        /\ (sync_loop concurrent allUsers r.2).2.1 = r.2.1).
Proof.
  intros r. subst r. split; [apply sync_loop_outcome|].
  intros Halone. destruct w as [t h].
  destruct (sync_loop_from allUsers Halone 0 0 t h)
    as (cr & sk & t' & pr & Heq & Hcr & Hsk & Hsum & (new & Hnew & Hlen & Hids)
        & Hall & Hd & He & Hr & Hc & _).
  assert (sync_loop concurrent allUsers (t, h)
          = (Returned (cr, sk), (t', h ++ pr)))
    as -> by exact Heq.
  exists cr, sk. cbn [fst snd].
  split; [done|]. split; [done|]. split; [done|]. split; [done|].
  split; [rewrite Hnew; unfold len in *; rewrite length_app; lia|].
  split; [rewrite Hnew; by apply prefix_app_r|].
  split.
  { intros x. rewrite Hnew, fmap_app, elem_of_app. split.
    - intros [?|?]; [by left|right; by apply Hids].
    - intros [?|[u [-> Hu]]%list_elem_of_fmap]; [by left|].
      apply elem_of_app. rewrite <- fmap_app, <- Hnew. by apply Hall. }
  split; [done|]. split; [done|]. split; [done|]. split; [done|].
  destruct (sync_loop_again allUsers Halone 0 0 t' (h ++ pr) Hall)
    as [pr' Heq'].
  assert (sync_loop concurrent allUsers (t', h ++ pr)
          = (Returned (0, len allUsers), (t', (h ++ pr) ++ pr')))
    as -> by exact Heq'.
  done.
Qed.

Lemma bind_returned {S E A B} (m : M S E A) (k : A -> M S E B) (s s' : S)
  (a : A) :
  m s = (Returned a, s') -> bind m k s = k a s'.
Proof. intros H. unfold bind. by rewrite H. Qed.

(** Computations that print after what was printed and do not close the
    pool. *)
Local Abbreviation quiet m :=
  (forall w : World line,
      exists printed, (m w).2.2 = w.2 ++ printed /\ PoolEnd ∉ printed).

Lemma quiet_ret {A} (a : A) : quiet (ret (E := thrown) a).
Proof.
  intros w. exists []. rewrite app_nil_r.
  split; [done|by intros ?%elem_of_nil].
Qed.

Lemma quiet_throw {A} (e : thrown) : quiet (throw (A := A) e).
Proof.
  intros w. exists []. rewrite app_nil_r.
  split; [done|by intros ?%elem_of_nil].
Qed.

Lemma quiet_emit (l : line) : l <> PoolEnd -> quiet (emit l).
Proof.
  intros Hl w. exists [l]. split; [done|].
  intros [?|?%elem_of_nil]%elem_of_cons; done.
Qed.

Lemma quiet_bind {A B} (m : M (World line) thrown A)
  (k : A -> M (World line) thrown B) :
  quiet m -> (forall a, quiet (k a)) -> quiet (bind m k).
Proof.
  intros Hm Hk w. unfold bind. destruct (Hm w) as (pr & Hpr & Hpool).
  destruct (m w) as [[a| |] w1]; cbn [fst snd] in *; [|by exists pr..].
  destruct (Hk a w1) as (pr' & Hpr' & Hpool').
  exists (pr ++ pr'). rewrite Hpr', Hpr, app_assoc. split; [done|].
  intros [?|?]%elem_of_app; done.
Qed.

Lemma quiet_query {A} (q : Tables -> A) : quiet (query q).
Proof.
  intros w. exists []. rewrite app_nil_r.
  split; [done|by intros ?%elem_of_nil].
Qed.

Lemma quiet_execute (q : Tables -> thrown + Tables) : quiet (execute q).
Proof.
  intros w. exists []. rewrite app_nil_r. unfold execute.
  split; [by destruct (q w.1)|by intros ?%elem_of_nil].
Qed.

Lemma quiet_interleave (other : Tables -> Tables) :
  quiet (interleave (line := line) other).
Proof.
  intros w. exists []. rewrite app_nil_r.
  split; [done|by intros ?%elem_of_nil].
Qed.

Lemma quiet_for_of {A V} (body : A -> V -> M (World line) thrown V)
  (l : list A) :
  (forall x v, quiet (body x v)) -> forall v, quiet (for_of l body v).
Proof.
  intros Hbody. induction l as [|x l IH]; intros v; cbn [for_of].
  - apply quiet_ret.
  - apply quiet_bind; [apply Hbody|apply IH].
Qed.

Lemma quiet_fetch_loop (getUserList : Z -> Z -> thrown + list ClerkUser)
  (fuel : nat) :
  forall offset acc, quiet (fetch_loop getUserList fuel offset acc).
Proof.
  induction fuel as [|fuel IH]; intros offset acc; cbn [fetch_loop].
  { intros w. exists []. rewrite app_nil_r.
    split; [done|by intros ?%elem_of_nil]. }
  apply quiet_bind.
  - intros w. exists [GetUserList limit offset]. unfold call_getUserList.
    split; [by destruct (getUserList limit offset)|].
    intros [?|?%elem_of_nil]%elem_of_cons; done.
  - intros data. destruct (len data <? limit); [apply quiet_ret|apply IH].
Qed.

Lemma quiet_sync_loop (allUsers : list ClerkUser) :
  quiet (sync_loop concurrent allUsers).
Proof.
  apply quiet_for_of. intros u v. unfold sync_turn. cbv zeta.
  apply quiet_bind; [apply quiet_interleave|]. intros _.
  apply quiet_bind; [apply quiet_query|]. intros existing.
  destruct (0 <? len existing).
  - apply quiet_bind; [by apply quiet_emit|]. intros _. apply quiet_ret.
  - apply quiet_bind; [apply quiet_interleave|]. intros _.
    apply quiet_bind; [apply quiet_execute|]. intros _.
    apply quiet_bind; [by apply quiet_emit|]. intros _. apply quiet_ret.
Qed.

Lemma quiet_attempt (getUserList : Z -> Z -> thrown + list ClerkUser)
  (fuel : nat) :
  quiet (attempt getUserList concurrent fuel).
Proof.
  unfold attempt.
  apply quiet_bind; [by apply quiet_emit|]. intros _.
  apply quiet_bind; [apply quiet_fetch_loop|]. intros allUsers.
  apply quiet_bind; [by apply quiet_emit|]. intros _.
  destruct (len allUsers =? 0); [by apply quiet_emit|].
  apply quiet_bind; [apply quiet_sync_loop|]. intros counters.
  repeat (apply quiet_bind; [by apply quiet_emit|]; intros _).
  by apply quiet_emit.
Qed.

(** The runs of [main]. *)
Lemma main_run (getUserList : Z -> Z -> thrown + list ClerkUser)
  (CLERK_SECRET_KEY DATABASE_URL : option string) (fuel : nat)
  (t : Tables) (h : list line) :
  main getUserList concurrent CLERK_SECRET_KEY DATABASE_URL fuel (t, h)
  = if negb (truthy CLERK_SECRET_KEY) then
      (Threw (ProcessExit 1),
       (t, h ++ [ConsoleLog "=== Syncing Clerk Users to Database ===\n";
                 ConsoleError "Error: CLERK_SECRET_KEY not configured" None]))
    else if negb (truthy DATABASE_URL) then
      (Threw (ProcessExit 1),
       (t, h ++ [ConsoleLog "=== Syncing Clerk Users to Database ===\n";
                 ConsoleError "Error: DATABASE_URL not configured" None]))
    else
      match attempt getUserList concurrent fuel
              (t, h ++ [ConsoleLog "=== Syncing Clerk Users to Database ===\n"])
      with
      | (Returned a, w') => (Returned a, (w'.1, w'.2 ++ [PoolEnd]))
      | (Threw e, w') =>
          (Threw (ProcessExit 1),
           (w'.1, w'.2 ++ [ConsoleError "Sync failed:" (Some e)]))
      | (OutOfFuel, w') => (OutOfFuel, w')
      end.
Proof.
  unfold main, bind at 1, emit at 1, modify. cbn [fst snd].
  destruct (truthy CLERK_SECRET_KEY); cbn [negb];
    [|unfold bind, emit, modify, throw; cbn [fst snd];
      by rewrite <- app_assoc].
  destruct (truthy DATABASE_URL); cbn [negb];
    [|unfold bind, emit, modify, throw; cbn [fst snd];
      by rewrite <- app_assoc].
  unfold try_catch_finally, try_catch.
  by destruct (attempt getUserList concurrent fuel _) as [[a|e|] w'].
Qed.

(** X26: how the script ends.  Without [CLERK_SECRET_KEY] or
    [DATABASE_URL] (missing or empty) it exits with status 1 before any
    request and leaves the tables alone.  It ends in no other way than by
    returning or by [process.exit(1)]: every error of the sync is caught.
    The pool is closed exactly when the script returns, as its last step;
    after a failure the process exits inside [catch], before [finally]. *)
Theorem main_exits (getUserList : Z -> Z -> thrown + list ClerkUser)
  (CLERK_SECRET_KEY DATABASE_URL : option string) (fuel : nat)
  (w : World line) :
  let r := main getUserList concurrent CLERK_SECRET_KEY DATABASE_URL fuel w in
  (truthy CLERK_SECRET_KEY && truthy DATABASE_URL = false ->
   r.1 = Threw (ProcessExit 1)
   /\ r.2.1 = w.1
   /\ page_requests r.2.2 = page_requests w.2)
  /\ (r.1 = Returned tt \/ r.1 = Threw (ProcessExit 1) \/ r.1 = OutOfFuel)
  /\ (PoolEnd ∈ drop (length w.2) r.2.2 <-> r.1 = Returned tt)
  /\ (r.1 = Returned tt -> last r.2.2 = Some PoolEnd).
Proof.
  intros r. subst r. destruct w as [t h]. rewrite main_run.
  destruct (truthy CLERK_SECRET_KEY); cbn [negb andb fst snd].
  2:{ rewrite drop_app_length, !page_requests_app. cbn [app].
      split; [by rewrite app_nil_r|]. split; [by right; left|].
      split; [|done]. split; [|done].
      intros H. repeat (apply elem_of_cons in H as [?|H]; [done|]).
      by apply elem_of_nil in H. }
  destruct (truthy DATABASE_URL); cbn [negb fst snd].
  2:{ rewrite drop_app_length, !page_requests_app. cbn [app].
      split; [by rewrite app_nil_r|]. split; [by right; left|].
      split; [|done]. split; [|done].
      intros H. repeat (apply elem_of_cons in H as [?|H]; [done|]).
      by apply elem_of_nil in H. }
  split; [done|].
  destruct (quiet_attempt getUserList fuel
              (t, h ++ [ConsoleLog "=== Syncing Clerk Users to Database ===\n"]))
    as (pr & Hpr & Hpool).
  destruct (attempt getUserList concurrent fuel _) as [[[]|err|] [t1 h1]];
    cbn [fst snd] in *; subst h1;
    rewrite <- ?app_assoc, drop_app_length; cbn [app].
  - split; [by left|]. split.
    + split; [done|]. intros _. apply elem_of_cons. right.
      apply elem_of_app. right. apply elem_of_cons. by left.
    + intros _. by rewrite app_comm_cons, app_assoc, last_snoc.
  - split; [by right; left|]. split; [|done]. split; [|done].
    intros [?|[?|H]%elem_of_app]%elem_of_cons; try done.
    apply elem_of_cons in H as [?|?%elem_of_nil]; done.
  - split; [by right; right|]. split; [|done]. split; [|done].
    intros [?|?]%elem_of_cons; done.
Qed.

Lemma page_requests_map (js : list nat) :
  page_requests (map (fun j : nat => GetUserList 100 (100 * Z.of_nat j)) js)
  = map (fun j : nat => (100, 100 * Z.of_nat j)) js.
Proof.
  unfold page_requests. induction js as [|j l IH]; [done|].
  exact (f_equal (cons (100, 100 * Z.of_nat j)) IH).
Qed.

(** The body of [main] on a Clerk that answers with its pages. *)
Lemma attempt_paging (all : list ClerkUser) (t : Tables) (h : list line) :
  (forall k t, concurrent k t = t) ->
  exists (t' : Tables) (printed : list line),
    attempt (paging all) concurrent (S (length all / 100)) (t, h)
    = (Returned tt, (t', h ++ printed))
    /\ page_requests printed
       = map (fun j : nat => (100, 100 * Z.of_nat j))
           (seq 0 (S (length all / 100)))
    /\ (forall x, x ∈ clerkId <$> users t'
                  <-> x ∈ clerkId <$> users t \/ x ∈ user_id <$> all)
    /\ users t `prefix_of` users t'
    /\ (constraints t -> constraints t').
Proof.
  intros Halone.
  pose proof (fetch_loop_paging all (S (length all / 100)) 0 [] t
                (h ++ [ConsoleLog "Fetching users from Clerk..."])
                ltac:(lia) ltac:(lia)) as Hfetch.
  rewrite Nat.sub_0_r, Nat.mul_0_r, drop_0 in Hfetch. cbn [app] in Hfetch.
  assert (page_requests
            (map (fun j : nat => GetUserList 100 (100 * Z.of_nat j))
               (seq 0 (S (length all / 100))))
          = map (fun j : nat => (100, 100 * Z.of_nat j))
              (seq 0 (S (length all / 100)))) as Hpages.
  { apply page_requests_map. }
  destruct (len all =? 0) eqn:E0.
  - exists t. eexists. split.
    { unfold attempt. etrans; [by apply bind_returned|].
      etrans; [apply bind_returned; exact Hfetch|].
      etrans; [by apply bind_returned|]. cbv beta. rewrite E0.
      unfold emit, modify. cbn [fst snd]. rewrite <- !app_assoc.
      reflexivity. }
    apply Z.eqb_eq in E0. destruct all; [|done].
    split; [by rewrite !page_requests_app, Hpages|].
    split; [|done]. intros x. split; [by left|].
    intros [?|?%elem_of_nil]; done.
  - match type of Hfetch with
    | _ = (_, (_, ?h1)) =>
        destruct (sync_loop_from all Halone 0 0 t
                    (h1 ++ [ConsoleLog ("Found " +:+ pretty (len all)
                                        +:+ " users in Clerk\n")]))
          as (cr & sk & t' & pr & Heq & _ & _ & _ & (new & Hnew & _ & Hids)
              & Hall & _ & _ & _ & Hc & Hp & _)
    end.
    exists t'. eexists. split.
    { unfold attempt. etrans; [by apply bind_returned|].
      etrans; [apply bind_returned; exact Hfetch|].
      etrans; [by apply bind_returned|]. cbv beta. rewrite E0.
      etrans; [apply bind_returned; exact Heq|].
      unfold bind, emit, modify. cbn [fst snd]. rewrite <- !app_assoc.
      reflexivity. }
    split.
    { rewrite !page_requests_app, Hpages, Hp. cbn [app].
      by rewrite app_nil_r. }
    split; [|split; [rewrite Hnew; by apply prefix_app_r|done]].
    intros x. rewrite Hnew, fmap_app, elem_of_app. split.
    + intros [?|?]; [by left|right; by apply Hids].
    + intros [?|[u [-> Hu]]%list_elem_of_fmap]; [by left|].
      apply elem_of_app. rewrite <- fmap_app, <- Hnew. by apply Hall.
Qed.

(** X27: the whole script, run while no other writer changes the tables,
    on a Clerk that answers with its pages.  With both settings present,
    [length all / 100 + 1] turns of the loop over the pages are enough: the
    script returns, the pool is closed, the table holds the users it held
    and those of Clerk and no others, the rows it held are kept and the
    constraints of the migration are preserved. *)
Theorem main_syncs_all (all : list ClerkUser)
  (CLERK_SECRET_KEY DATABASE_URL : option string) (w : World line) :
  (forall k t, concurrent k t = t) ->
  truthy CLERK_SECRET_KEY = true ->
  truthy DATABASE_URL = true ->
  let r := main (paging all) concurrent CLERK_SECRET_KEY DATABASE_URL
             (S (length all / 100)) w in
  r.1 = Returned tt
  /\ last r.2.2 = Some PoolEnd
  /\ page_requests r.2.2
     = page_requests w.2
       ++ map (fun j : nat => (100, 100 * Z.of_nat j))
            (seq 0 (S (length all / 100)))
  /\ (forall x, x ∈ clerkId <$> users r.2.1
                <-> x ∈ clerkId <$> users w.1 \/ x ∈ user_id <$> all)
  /\ users w.1 `prefix_of` users r.2.1
  /\ (constraints w.1 -> constraints r.2.1).
Proof.
  intros Halone Hk Hd r. subst r. destruct w as [t h].
  rewrite main_run, Hk, Hd. cbn [negb].
  destruct (attempt_paging all t
              (h ++ [ConsoleLog "=== Syncing Clerk Users to Database ===\n"])
              Halone)
    as (t' & pr & -> & Hpages & Hids & Hprefix & Hc).
  cbn [fst snd].
  split; [done|]. split; [by rewrite last_snoc|].
  split; [|done].
  rewrite !page_requests_app, Hpages. cbn [app].
  by rewrite !app_nil_r.
Qed.

End Interleaved.

End SyncTheorems.

(** ** Applications to sample data *)

Section MoreWitnesses.

Import Sanitizer SanitizerSpec TokenCounter.
Import Eff Schema ClerkWebhook SyncUsers Fixtures.

(** X4 on a text that is clean. *)
Lemma sanitizeText_fixed_points_witness :
  sanitizeText nfc_excerpt (lit "ciao a tutti") = lit "ciao a tutti"
  <-> clean (lit "ciao a tutti") = true.
Proof.
  apply (sanitizeText_fixed_points nfc_excerpt (lit "ciao a tutti")).
  reflexivity.
Defined.


(** X15 on the service that keeps a list of its indexes. *)
Lemma ensureIndexExists_idempotent_witness :
  Pinecone.ensureIndexExists (Some Pinecone.list_service)
    (Pinecone.ensureIndexExists (Some Pinecone.list_service) ([], [])).2
  = (Returned tt,
     ((Pinecone.ensureIndexExists (Some Pinecone.list_service) ([], [])).2.1,
      (Pinecone.ensureIndexExists (Some Pinecone.list_service) ([], [])).2.2
      ++ [Pinecone.ListIndexes])).
Proof.
  apply (ensureIndexExists_idempotent Pinecone.list_service [] []);
    [|reflexivity].
  intros o s s' H. simpl in H.
  destruct (existsb _ s) eqn:E; [done|]. injection H as <-.
  eexists. split; [reflexivity|].
  rewrite existsb_app. simpl. rewrite String.eqb_refl.
  by rewrite orb_true_r.
Defined.

(** X6 on 25 tokens and 10 code units. *)
Lemma estimates_round_trip_witness :
  estimateTokensFromChars_of (estimateCharsFromTokens 25) = Whole 25
  /\ exists c, estimateCharsFromTokens (estimateTokensFromChars 10) = Whole c
               /\ 10 <= c < 14 /\ c mod 4 = 0.
Proof.
  pose proof (estimates_round_trip 25 10 ltac:(by vm_compute)) as H.
  destruct H as (H1 & _ & _ & H4).
  split; [apply H1; by vm_compute|exact H4].
Defined.

(** X18 on a [user.created] that another delivery stores between the search
    and the insert. *)
Lemma POST_throws_only_witness :
  (POST sample_Webhook other_delivery sample_secret (signed "created")
     (no_tables, [])).1
  = Threw (QueryError unique_violation).
Proof.
  apply (proj1 (POST_throws_only sample_Webhook other_delivery sample_secret
                  (signed "created") (no_tables, [])
                  (QueryError unique_violation))).
  right. right. left. split; [done|]. exists "user_1".
  split; [done|]. split; [apply not_elem_of_nil|].
  apply elem_of_cons. by left.
Defined.

(** X20 on two deliveries of [user.created], with no other writer. *)
Lemma POST_user_created_idempotent_witness :
  (POST sample_Webhook alone sample_secret (signed "created")
     (POST sample_Webhook alone sample_secret (signed "created")
        (no_tables, [])).2).2.1
  = (POST sample_Webhook alone sample_secret (signed "created")
       (no_tables, [])).2.1
  /\ (POST sample_Webhook alone sample_secret (signed "created")
        (no_tables, [])).1
     = Returned {| body := "Webhook processed"; status := 200 |}.
Proof.
  pose proof (POST_user_created_idempotent sample_Webhook alone sample_secret
                (signed "created") "user_1" (no_tables, []) eq_refl) as H.
  cbv zeta in H. destruct H as (_ & _ & H3 & _ & H5).
  split; [exact H3|exact (proj1 (H5 eq_refl))].
Defined.

(** X21 on the deletion of a user who owns a document. *)
Lemma POST_user_deleted_witness :
  POST sample_Webhook alone sample_secret (signed "deleted") (owner_tables, [])
  = (Threw (QueryError foreign_key_violation), (owner_tables, [])).
Proof.
  apply (proj1 (proj2 (POST_user_deleted sample_Webhook alone sample_secret
                         (signed "deleted") (Some "user_1") (owner_tables, [])
                         eq_refl)));
    reflexivity.
Defined.

(** X22 on a user whom the webhook has not stored yet. *)
Lemma requireUser_after_webhook_witness :
  Auth.requireUser (Some "user_1") (no_tables, @nil logline)
  = (Threw (Error "User not found in database. Webhook may not have synced yet."),
     (no_tables, [])).
Proof.
  apply (proj1 (requireUser_after_webhook sample_Webhook alone sample_secret
                  (signed "created") "user_1" (no_tables, []) eq_refl
                  ltac:(discriminate))).
  apply not_elem_of_nil.
Defined.

(** X25 on two users and empty tables, with no other writer. *)
Lemma sync_loop_counts_witness :
  exists created skipped : Z,
    (sync_loop (fun _ t => t) two_users (no_tables, [])).1
    = Returned (created, skipped)
    /\ created + skipped = 2.
Proof.
  destruct (proj2 (sync_loop_counts (fun _ t => t) two_users (no_tables, []))
              (fun _ _ => eq_refl))
    as (created & skipped & H1 & _ & _ & H4 & _).
  exists created, skipped. split; [exact H1|exact H4].
Defined.

(** X27 on a Clerk with two users and empty tables, with no other writer. *)
Lemma main_syncs_all_witness :
  (main (paging two_users) (fun _ t => t) (Some "sk_test")
     (Some "postgres://db") 1 (no_tables, [])).1
  = Returned tt.
Proof.
  apply (proj1 (main_syncs_all (fun _ t => t) two_users (Some "sk_test")
                  (Some "postgres://db") (no_tables, [])
                  (fun _ _ => eq_refl) eq_refl eq_refl)).
Defined.

(** The same script when another script stores [user_1] between the select
    and the insert of the first turn: the insert is refused, the error is
    caught and the process exits with status 1 before the pool is closed. *)
Example main_raced :
  let r := main (paging two_users) racing (Some "sk_test")
             (Some "postgres://db") 1 (no_tables, []) in
  r.1 = Threw (ProcessExit 1)
  /\ last r.2.2
     = Some (ConsoleError "Sync failed:"
               (Some (QueryError unique_violation)))
  /\ clerkId <$> users r.2.1 = ["user_1"].
Proof. by vm_compute. Qed.

(** The webhook with a secret from which no [Webhook] can be built: the
    constructor stands outside the [try], so the handler throws. *)
Example POST_constructor_throws :
  POST sample_Webhook alone (Some "sample") (signed "created") (no_tables, [])
  = (Threw (Error "Base64Coder: incorrect characters for decoding"),
     (no_tables, [])).
Proof. by vm_compute. Qed.

End MoreWitnesses.
